(** * Address book: proximity search and address store

    A shallow embedding of the FastAPI address book:
    - [app/crud/address.py]: [calculate_distance] (Haversine),
      [get_addresses_within_radius], [get_address], [update_address],
      [delete_address], [create_address], [get_addresses];
    - [app/api/routes/addresses.py]: [get_nearby_addresses] and the
      handlers of the store;
    - [app/models/address.py]: [LocationQuery], [AddressUpdate],
      [AddressBase] and its validators, [AddressCreate];
    - [app/schemas/address.py]: the [Address] row;
    - [app/core/config.py]: [EARTH_RADIUS_KM].

    Python floats are IEEE 754 binary64 numbers: they are modelled by Rocq's
    primitive floats, whose operations are specified by [SpecFloat].  What
    the code calls in the C mathematical library ([sin], [cos], [atan2],
    [pow]) is a parameter of the development ([libm]); [Fdlibm] is one
    concrete library, the one of FreeBSD, musl and Android. *)

From Stdlib Require Import ZArith List Bool Lia String Floats.
From Stdlib Require Import Sorted Permutation.
From Stdlib Require Uint63.
From Stdlib Require Ascii.
Import ListNotations.

Set Implicit Arguments.

(** ** Exceptions *)

(** The Python exceptions the modelled code can raise. *)
Inductive exn : Type :=
| ValueError      (* "math domain error" *)
| OverflowError   (* "math range error", float ** overflow, an int that
                        SQLite does not store *)
| IntegrityError. (* NOT NULL constraint failed, at commit *)

Inductive result (A : Type) : Type :=
| Ok (a : A)
| Raise (e : exn).

Arguments Ok {A} a.
Arguments Raise {A} e.

Definition bind {A B : Type} (r : result A) (k : A -> result B) : result B :=
  match r with
  | Ok a => k a
  | Raise e => Raise e
  end.

Declare Scope py_scope.
Delimit Scope py_scope with py.
Notation "x <- r ;; k" := (bind r (fun x => k))
  (at level 61, r at next level, right associativity) : py_scope.
Open Scope py_scope.

Definition returns {A : Type} (r : result A) : bool :=
  match r with Ok _ => true | Raise _ => false end.

(** ** Python floats *)

Module PyFloat.
Open Scope float_scope.

(** C's [signbit]: set on negative numbers and on [-0.0]. *)
Definition signbit (x : float) : bool :=
  match Prim2SF x with
  | S754_zero s | S754_infinity s | S754_finite s _ _ => s
  | S754_nan => false
  end.

(** C's [copysign]. *)
Definition copysign (m s : float) : float :=
  if signbit s then - (abs m) else abs m.

(** [mag_le K x]: [x] is a zero, or a finite number whose mantissa and
    exponent give [|x| < 2 ^ K]. *)
Definition mag_le (K : Z) (x : spec_float) : Prop :=
  match x with
  | S754_zero _ => True
  | S754_finite _ m e => (Zdigits2 (Z.pos m) + e <= K)%Z
  | _ => False
  end.

(** [sign_is s x]: [x] is not NaN and its sign bit is [s]. *)
Definition sign_is (s : bool) (x : spec_float) : Prop :=
  match x with
  | S754_zero s' | S754_finite s' _ _ | S754_infinity s' => s' = s
  | S754_nan => False
  end.

(** [0 <= x]: the sign bit is clear, or [x] is [-0.0]. *)
Definition nonneg (x : spec_float) : Prop :=
  sign_is false x \/ x = S754_zero true.

End PyFloat.
Import PyFloat.

(** ** The C mathematical library, as CPython sees it *)

Record libm : Type := {
  c_sin : float -> float;
  c_cos : float -> float;
  c_atan2 : float -> float -> float;
  c_pow : float -> float -> float
}.

Module Math.
Open Scope float_scope.

(** [Py_MATH_PI] and [degToRad = Py_MATH_PI / 180.0] of [mathmodule.c]. *)
Definition Py_MATH_PI : float := 0x1.921fb54442d18p+1.
Definition degToRad : float := Py_MATH_PI / 180.

(** [math.radians]. *)
Definition radians (x : float) : float := x * degToRad.

(** [math_1]: the wrapper of [math.sin], [math.cos] and [math.sqrt].  A NaN
    result for a non-NaN argument, and an infinite result for a finite one,
    are turned into [ValueError] ("math domain error"). *)
Definition math_1 (func : float -> float) (x : float) : result float :=
  let r := func x in
  if is_nan r && negb (is_nan x) then Raise ValueError
  else if is_infinity r && is_finite x then Raise ValueError
  else Ok r.

(** [math.sqrt]: C's [sqrt] is the correctly rounded IEEE square root. *)
Definition sqrt (x : float) : result float := math_1 PrimFloat.sqrt x.

(** [m_atan2]: CPython settles the special cases itself and leaves the
    others to the C library. *)
Definition m_atan2 (atan2 : float -> float -> float) (y x : float) : float :=
  if is_nan x || is_nan y then nan
  else if is_infinity y then
    if is_infinity x then
      if signbit x then copysign (0.75 * Py_MATH_PI) y
      else copysign (0.25 * Py_MATH_PI) y
    else copysign (0.5 * Py_MATH_PI) y
  else if is_infinity x || (y =? 0) then
    if signbit x then copysign Py_MATH_PI y
    else copysign 0 y
  else atan2 y x.

(** [math_2] around [m_atan2]: [math.atan2]. *)
Definition math_2 (func : float -> float -> float) (x y : float)
  : result float :=
  let r := func x y in
  if is_nan r then
    if negb (is_nan x) && negb (is_nan y) then Raise ValueError else Ok r
  else if is_infinity r then
    if is_finite x && is_finite y then Raise OverflowError else Ok r
  else Ok r.

Section WithLibm.
Variable L : libm.

Definition sin (x : float) : result float := math_1 (c_sin L) x.
Definition cos (x : float) : result float := math_1 (c_cos L) x.
Definition atan2 (y x : float) : result float :=
  math_2 (m_atan2 (c_atan2 L)) y x.

(** [x ** 2] on a float: [float_pow] of [floatobject.c] at the exponent
    [2.0].  The special cases come first; a negative base is replaced by its
    absolute value (the exponent is an even integer), and only then is the C
    library's [pow] called.  An infinite result is an [OverflowError]. *)
Definition pow2 (iv : float) : result float :=
  if is_nan iv then Ok iv
  else if is_infinity iv then Ok (abs iv)
  else if iv =? 0 then Ok 0
  else
    let iv := if iv <? 0 then - iv else iv in
    if iv =? 1 then Ok 1
    else
      let ix := c_pow L iv 2 in
      if is_infinity ix then Raise OverflowError else Ok ix.

End WithLibm.
End Math.

(** ** [app/core/config.py] *)

(** [Settings.EARTH_RADIUS_KM], at its declared default. *)
Definition EARTH_RADIUS_KM : float := 6371%float.

(** ** [app/crud/address.py]: the distance calculator *)

Section Distance.
Variable L : libm.
Open Scope float_scope.

(** The local [a] of [calculate_distance]:
    [sin(dlat / 2) ** 2 + cos(lat1_rad) * cos(lat2_rad) * sin(dlon / 2) ** 2],
    evaluated left to right. *)
Definition haversine_a (lat1 lon1 lat2 lon2 : float) : result float :=
  let lat1_rad := Math.radians lat1 in
  let lon1_rad := Math.radians lon1 in
  let lat2_rad := Math.radians lat2 in
  let lon2_rad := Math.radians lon2 in
  let dlat := lat2_rad - lat1_rad in
  let dlon := lon2_rad - lon1_rad in
  s1 <- Math.sin L (dlat / 2) ;;
  p1 <- Math.pow2 L s1 ;;
  c1 <- Math.cos L lat1_rad ;;
  c2 <- Math.cos L lat2_rad ;;
  s2 <- Math.sin L (dlon / 2) ;;
  p2 <- Math.pow2 L s2 ;;
  Ok (p1 + c1 * c2 * p2).

(** [c = 2 * atan2(sqrt(a), sqrt(1 - a))] and
    [distance = settings.EARTH_RADIUS_KM * c]. *)
Definition central_distance (a : float) : result float :=
  sa <- Math.sqrt a ;;
  sb <- Math.sqrt (1 - a) ;;
  t <- Math.atan2 L sa sb ;;
  let c := 2 * t in
  Ok (EARTH_RADIUS_KM * c).

Definition calculate_distance (lat1 lon1 lat2 lon2 : float) : result float :=
  a <- haversine_a lat1 lon1 lat2 lon2 ;;
  central_distance a.

End Distance.

(** ** A concrete C library

    The [sin], [cos] and [atan2] of FreeBSD's msun (fdlibm), which musl and
    Android's bionic share: [k_sin.c], [k_cos.c], [e_rem_pio2.c], [s_sin.c],
    [s_cos.c], [s_atan.c], [e_atan2.c].  The routines are double-precision
    programs over [+ - * /] and tests on the bits of their arguments, so they
    run as they are on primitive floats. *)

Module Fdlibm.
Open Scope float_scope.

(** The IEEE 754 binary64 encoding of a number, and its two 32-bit words. *)
Definition bits (x : float) : Z :=
  match Prim2SF x with
  | S754_zero s => if s then 2 ^ 63 else 0
  | S754_infinity s => (if s then 2 ^ 63 else 0) + 2047 * 2 ^ 52
  | S754_nan => 2047 * 2 ^ 52 + 2 ^ 51
  | S754_finite s m e =>
      (if s then 2 ^ 63 else 0) +
      (if (2 ^ 52 <=? Z.pos m)%Z
       then (e + 1075) * 2 ^ 52 + (Z.pos m - 2 ^ 52)
       else Z.pos m)
  end%Z.

Definition high_word (x : float) : Z := Z.shiftr (bits x) 32.
Definition low_word (x : float) : Z := Z.land (bits x) (2 ^ 32 - 1).
(** [ix = hx & 0x7fffffff] *)
Definition abs_high_word (x : float) : Z := Z.land (high_word x) 0x7fffffff.
(** The biased exponent field, [(u.i >> 52) & 0x7ff]. *)
Definition exponent_field (x : float) : Z :=
  Z.land (Z.shiftr (bits x) 52) 0x7ff.

(** The integer value of a float that holds a small integer: [(int32_t)fn]. *)
Definition to_int (x : float) : Z :=
  match Prim2SF x with
  | S754_finite s m e =>
      let v := match e with
               | Z0 => Z.pos m
               | Zpos p => Z.pos m * 2 ^ Z.pos p
               | Zneg p => Z.pos m / 2 ^ Z.pos p
               end%Z in
      if s then (- v)%Z else v
  | _ => 0%Z
  end.

(** *** [__kernel_sin] *)
Definition S1 : float := -0x1.5555555555549p-3.
Definition S2 : float := 0x1.111111110f8a6p-7.
Definition S3 : float := -0x1.a01a019c161d5p-13.
Definition S4 : float := 0x1.71de357b1fe7dp-19.
Definition S5 : float := -0x1.ae5e68a2b9cebp-26.
Definition S6 : float := 0x1.5d93a5acfd57cp-33.

Definition kernel_sin (x y : float) (iy : bool) : float :=
  let z := x * x in
  let w := z * z in
  let r := S2 + z * (S3 + z * S4) + z * w * (S5 + z * S6) in
  let v := z * x in
  if iy then x - ((z * (0.5 * y - v * r) - y) - v * S1)
  else x + v * (S1 + z * r).

(** *** [__kernel_cos] *)
Definition C1 : float := 0x1.555555555554cp-5.
Definition C2 : float := -0x1.6c16c16c15177p-10.
Definition C3 : float := 0x1.a01a019cb1590p-16.
Definition C4 : float := -0x1.27e4f809c52adp-22.
Definition C5 : float := 0x1.1ee9ebdb4b1c4p-29.
Definition C6 : float := -0x1.8fae9be8838d4p-37.

Definition kernel_cos (x y : float) : float :=
  let z := x * x in
  let w := z * z in
  let r := z * (C1 + z * (C2 + z * C3)) + w * w * (C4 + z * (C5 + z * C6)) in
  let hz := 0.5 * z in
  let w := 1 - hz in
  w + (((1 - w) - hz) + (z * r - x * y)).

(** *** [__ieee754_rem_pio2] *)
Definition toint : float := 0x1.8p+52.
Definition invpio2 : float := 0x1.45f306dc9c883p-1.
Definition pio2_1 : float := 0x1.921fb54400000p+0.
Definition pio2_1t : float := 0x1.0b4611a626331p-34.
Definition pio2_2 : float := 0x1.0b4611a600000p-34.
Definition pio2_2t : float := 0x1.3198a2e037073p-69.
Definition pio2_3 : float := 0x1.3198a2e000000p-69.
Definition pio2_3t : float := 0x1.b839a252049c1p-104.

(** The quadrant and the two-word remainder [y[0] + y[1]]. *)
Definition rem_pio2_medium (x : float) : Z * float * float :=
  let ix := abs_high_word x in
  let fn := x * invpio2 + toint - toint in
  let n := to_int fn in
  let r := x - fn * pio2_1 in
  let w := fn * pio2_1t in
  let y0 := r - w in
  let ex := Z.shiftr ix 20 in
  let '(r, w, y0) :=
    if (16 <? ex - exponent_field y0)%Z then
      let t := r in
      let w := fn * pio2_2 in
      let r := t - w in
      let w := fn * pio2_2t - ((t - r) - w) in
      let y0 := r - w in
      if (49 <? ex - exponent_field y0)%Z then
        let t := r in
        let w := fn * pio2_3 in
        let r := t - w in
        let w := fn * pio2_3t - ((t - r) - w) in
        (r, w, r - w)
      else (r, w, y0)
    else (r, w, y0) in
  (n, y0, (r - y0) - w).

(** The branch [z = x -+ k*pio2_1] taken near [k*pi/2], [k = 1..4]. *)
Definition rem_pio2_near (x : float) (k : float) (n : Z) : Z * float * float :=
  if signbit x then
    let z := x + k * pio2_1 in
    let y0 := z + k * pio2_1t in
    ((- n)%Z, y0, (z - y0) + k * pio2_1t)
  else
    let z := x - k * pio2_1 in
    let y0 := z - k * pio2_1t in
    (n, y0, (z - y0) - k * pio2_1t).

(** Arguments of magnitude [2^20 * pi/2] and more need the multi-word
    reduction of [k_rem_pio2.c]; it is not part of this port, and [None] is
    the answer there. *)
Definition rem_pio2 (x : float) : option (Z * float * float) :=
  let ix := abs_high_word x in
  if (ix <=? 0x400f6a7a)%Z then
    if (Z.land ix 0xfffff =? 0x921fb)%Z then Some (rem_pio2_medium x)
    else if (ix <=? 0x4002d97c)%Z then Some (rem_pio2_near x 1 1)
    else Some (rem_pio2_near x 2 2)
  else if (ix <=? 0x401c463b)%Z then
    if (ix <=? 0x4015fdbc)%Z then
      if (ix =? 0x4012d97c)%Z then Some (rem_pio2_medium x)
      else Some (rem_pio2_near x 3 3)
    else
      if (ix =? 0x401921fb)%Z then Some (rem_pio2_medium x)
      else Some (rem_pio2_near x 4 4)
  else if (ix <? 0x413921fb)%Z then Some (rem_pio2_medium x)
  else None.

(** *** [sin] and [cos] *)
Definition sin (x : float) : float :=
  let ix := abs_high_word x in
  if (ix <=? 0x3fe921fb)%Z then
    if (ix <? 0x3e500000)%Z then x else kernel_sin x 0 false
  else if (0x7ff00000 <=? ix)%Z then x - x
  else
    match rem_pio2 x with
    | None => nan
    | Some (n, y0, y1) =>
        match Z.land n 3 with
        | 0%Z => kernel_sin y0 y1 true
        | 1%Z => kernel_cos y0 y1
        | 2%Z => - kernel_sin y0 y1 true
        | _ => - kernel_cos y0 y1
        end
    end.

Definition cos (x : float) : float :=
  let ix := abs_high_word x in
  if (ix <=? 0x3fe921fb)%Z then
    if (ix <? 0x3e46a09e)%Z then 1 else kernel_cos x 0
  else if (0x7ff00000 <=? ix)%Z then x - x
  else
    match rem_pio2 x with
    | None => nan
    | Some (n, y0, y1) =>
        match Z.land n 3 with
        | 0%Z => kernel_cos y0 y1
        | 1%Z => - kernel_sin y0 y1 true
        | 2%Z => - kernel_cos y0 y1
        | _ => kernel_sin y0 y1 true
        end
    end.

(** *** [atan] *)
Definition atanhi (id : nat) : float :=
  match id with
  | 0%nat => 0x1.dac670561bb4fp-2
  | 1%nat => 0x1.921fb54442d18p-1
  | 2%nat => 0x1.f730bd281f69bp-1
  | _ => 0x1.921fb54442d18p+0
  end.

Definition atanlo (id : nat) : float :=
  match id with
  | 0%nat => 0x1.a2b7f222f65e2p-56
  | 1%nat => 0x1.1a62633145c07p-55
  | 2%nat => 0x1.007887af0cbbdp-56
  | _ => 0x1.1a62633145c07p-54
  end.

Definition aT (i : nat) : float :=
  match i with
  | 0%nat => 0x1.555555555550dp-2
  | 1%nat => -0x1.999999998ebc4p-3
  | 2%nat => 0x1.24924920083ffp-3
  | 3%nat => -0x1.c71c6fe231671p-4
  | 4%nat => 0x1.745cdc54c206ep-4
  | 5%nat => -0x1.3b0f2af749a6dp-4
  | 6%nat => 0x1.10d66a0d03d51p-4
  | 7%nat => -0x1.dde2d52defd9ap-5
  | 8%nat => 0x1.97b4b24760debp-5
  | 9%nat => -0x1.2b4442c6a6c2fp-5
  | _ => 0x1.0ad3ae322da11p-6
  end.

(** The polynomial part, after the argument reduction. *)
Definition atan_poly (x : float) : float :=
  let z := x * x in
  let w := z * z in
  let s1 := z * (aT 0 + w * (aT 2 + w * (aT 4 + w * (aT 6 + w * (aT 8 + w * aT 10))))) in
  let s2 := w * (aT 1 + w * (aT 3 + w * (aT 5 + w * (aT 7 + w * aT 9)))) in
  x * (s1 + s2).

Definition atan (x : float) : float :=
  let ix := abs_high_word x in
  let sign := signbit x in
  if (0x44100000 <=? ix)%Z then
    if is_nan x then x
    else let z := atanhi 3 + 0x1p-120 in if sign then - z else z
  else if (ix <? 0x3fdc0000)%Z then
    if (ix <? 0x3e400000)%Z then x else x - atan_poly x
  else
    let ax := abs x in
    let '(id, x') :=
      if (ix <? 0x3ff30000)%Z then
        if (ix <? 0x3fe60000)%Z then (0%nat, (2 * ax - 1) / (2 + ax))
        else (1%nat, (ax - 1) / (ax + 1))
      else
        if (ix <? 0x40038000)%Z then (2%nat, (ax - 1.5) / (1 + 1.5 * ax))
        else (3%nat, -1 / ax) in
    let z := atanhi id - (atan_poly x' - atanlo id - x') in
    if sign then - z else z.

(** *** [atan2] *)
Definition pi : float := 0x1.921fb54442d18p+1.
Definition pi_lo : float := 0x1.1a62633145c07p-53.

Definition atan2 (y x : float) : float :=
  if is_nan x || is_nan y then x + y
  else if (high_word x =? 0x3ff00000)%Z && (low_word x =? 0)%Z then atan y
  else
    let sx := signbit x in
    let sy := signbit y in
    let ix := abs_high_word x in
    let iy := abs_high_word y in
    if (iy =? 0)%Z && (low_word y =? 0)%Z then
      if sx then (if sy then - pi else pi) else y
    else if (ix =? 0)%Z && (low_word x =? 0)%Z then
      if sy then - pi / 2 else pi / 2
    else if (ix =? 0x7ff00000)%Z then
      if (iy =? 0x7ff00000)%Z then
        match sx, sy with
        | false, false => pi / 4
        | false, true => - pi / 4
        | true, false => 3 * pi / 4
        | true, true => -3 * pi / 4
        end
      else
        match sx, sy with
        | false, false => 0
        | false, true => -0
        | true, false => pi
        | true, true => - pi
        end
    else if (ix + 0x4000000 <? iy)%Z || (iy =? 0x7ff00000)%Z then
      if sy then - pi / 2 else pi / 2
    else
      let z := if sx && (iy + 0x4000000 <? ix)%Z then 0
               else atan (abs (y / x)) in
      match sx, sy with
      | false, false => z
      | false, true => - z
      | true, false => pi - (z - pi_lo)
      | true, true => (z - pi_lo) - pi
      end.

(** [pow] is called by the modelled program at the exponent [2.0] only.
    There the correctly rounded power is the IEEE product; other exponents
    are not part of this library and answer NaN. *)
Definition pow (x y : float) : float :=
  if y =? 2 then x * x else nan.

Definition lib : libm :=
  {| c_sin := sin; c_cos := cos; c_atan2 := atan2; c_pow := pow |}.

End Fdlibm.

(** ** Python built-ins: [round] and [list.sort] *)

Module Builtins.
Open Scope Z_scope.

(** The integer nearest to [num / den] ([den > 0]), ties to even. *)
Definition div_half_even (num den : Z) : Z :=
  let q := num / den in
  let r := num mod den in
  match 2 * r ?= den with
  | Lt => q
  | Gt => q + 1
  | Eq => if Z.even q then q else q + 1
  end.

(** [round(x, ndigits)] for a float [x] and [0 <= ndigits]: [float.__round__]
    goes through the decimal string of [x] correctly rounded (half to even,
    on the exact binary value) to [ndigits] places, and reads that string
    back as the nearest float.  Infinities, NaN and zeros round to
    themselves. *)
Definition round (x : float) (ndigits : nat) : float :=
  match Prim2SF x with
  | S754_finite s m e =>
      let p := 10 ^ Z.of_nat ndigits in
      let n := match e with
               | Z0 => Z.pos m * p
               | Zpos k => Z.pos m * 2 ^ Z.pos k * p
               | Zneg k => div_half_even (Z.pos m * p) (2 ^ Z.pos k)
               end in
      match n, p with
      | Zpos n, Zpos p =>
          SF2Prim (SFdiv prec emax (S754_finite s n 0) (S754_finite false p 0))
      | _, _ => SF2Prim (S754_zero s)
      end
  | _ => x
  end.

Section Sort.
Variable A : Type.
Variable key : A -> float.

(** [x] is placed after the elements whose key is smaller than its own, and
    before the others. *)
Fixpoint insert (x : A) (l : list A) : list A :=
  match l with
  | [] => [x]
  | y :: l' => if (key y <? key x)%float then y :: insert x l' else x :: y :: l'
  end.

(** [list.sort(key=...)].  CPython's sort is stable and compares keys with
    [<] only; on keys that [<] orders totally every such sort returns the
    list that inserting the elements one by one, last first, returns. *)
Definition sort (l : list A) : list A := fold_right insert [] l.

End Sort.
End Builtins.

(** ** [app/schemas/address.py]: the [addresses] table *)

(** A row.  [state] and [postal_code] are the nullable columns; the two
    timestamps are seconds of UTC. *)
Record Address : Type := {
  id : Z;
  street : string;
  city : string;
  state : option string;
  country : string;
  postal_code : option string;
  latitude : float;
  longitude : float;
  created_at : Z;
  updated_at : Z
}.

(** The database session: the rows of the table in the order a query without
    [ORDER BY] lists them, and the clock read by [datetime.utcnow]. *)
Record Session : Type := {
  rows : list Address;
  utcnow : Z
}.

(** [db.query(Address).all()] *)
Definition query_all (db : Session) : list Address := rows db.

(** ** [app/models/address.py] *)

(** [AddressUpdate]: every field is optional.  The outer [None] is a field
    that the request did not set ([exclude_unset] drops it); [Some None] is a
    field set to [null]. *)
Record AddressUpdate : Type := {
  u_street : option (option string);
  u_city : option (option string);
  u_state : option (option string);
  u_country : option (option string);
  u_postal_code : option (option string);
  u_latitude : option (option float);
  u_longitude : option (option float)
}.

(** [LocationQuery], once validated. *)
Record LocationQuery : Type := {
  q_latitude : float;
  q_longitude : float;
  q_radius_km : float
}.

(** pydantic's numeric constraints: a value passes [ge=b] when [v >= b]
    holds, [le=b] when [v <= b], [gt=b] when [v > b]. *)
Definition Field_ge (b v : float) : bool := (b <=? v)%float.
Definition Field_le (b v : float) : bool := (v <=? b)%float.
Definition Field_gt (b v : float) : bool := (b <? v)%float.

(** Validation of the body of a proximity query:
    [latitude: ge=-90, le=90], [longitude: ge=-180, le=180],
    [radius_km: gt=0]. *)
Definition LocationQuery_validate (latitude longitude radius_km : float)
  : option LocationQuery :=
  if Field_ge (-90) latitude && Field_le 90 latitude
     && Field_ge (-180) longitude && Field_le 180 longitude
     && Field_gt 0 radius_km
  then Some {| q_latitude := latitude; q_longitude := longitude;
               q_radius_km := radius_km |}
  else None.

(** [AddressWithDistance]: the row and its [distance_km]. *)
Record AddressWithDistance : Type := {
  address : Address;
  distance_km : float
}.

(** ** [app/crud/address.py]: the store *)

(** A [for] loop over a list, threading the loop's variables; an exception
    raised by the body leaves the loop. *)
Fixpoint for_each {A S : Type} (l : list A) (body : S -> A -> result S) (s : S)
  : result S :=
  match l with
  | [] => Ok s
  | x :: l' => s' <- body s x ;; for_each l' body s'
  end.

(** An integer that SQLite stores: [sqlite3] raises [OverflowError] when it
    is handed another one. *)
Definition sqlite_int64 (n : Z) : bool :=
  (- 2 ^ 63 <=? n)%Z && (n <? 2 ^ 63)%Z.

(** [db.query(Address).filter(Address.id == address_id).first()].  The
    statement carries [address_id] as a 64-bit integer, and [sqlite3] raises
    [OverflowError] for a Python [int] that is not one.  The [id] of a row
    is a rowid, a 64-bit integer: an [address_id] that a row carries is
    passed on, and one that [sqlite3] refuses is carried by no row. *)
Definition get_address (db : Session) (address_id : Z)
  : result (option Address) :=
  match find (fun a => (id a =? address_id)%Z) (rows db) with
  | Some db_address => Ok (Some db_address)
  | None => if sqlite_int64 address_id then Ok None else Raise OverflowError
  end.

(** A [FLOAT] column of SQLite keeps a float without fractional part as an
    integer and hands it back as a float: [-0.0] is read back as [0.0], and
    every other float as it was written. *)
Definition sqlite_real (x : float) : float :=
  if (x =? 0)%float then 0%float else x.

(** The value of a column after [setattr], for a column declared
    [nullable=False]: storing [None] there fails at [db.commit()]. *)
Definition set_required {T : Type} (old : T) (u : option (option T)) : result T :=
  match u with
  | None => Ok old
  | Some (Some v) => Ok v
  | Some None => Raise IntegrityError
  end.

Definition set_nullable {T : Type} (old : option T) (u : option (option T))
  : option T :=
  match u with
  | None => old
  | Some v => v
  end.

Definition eq_option {T : Type} (eqb : T -> T -> bool) (x y : option T) : bool :=
  match x, y with
  | None, None => true
  | Some a, Some b => eqb a b
  | _, _ => false
  end.

(** Python's [==] on the columns of two versions of a row. *)
Definition same_columns (a b : Address) : bool :=
  String.eqb (street a) (street b) && String.eqb (city a) (city b)
  && eq_option String.eqb (state a) (state b)
  && String.eqb (country a) (country b)
  && eq_option String.eqb (postal_code a) (postal_code b)
  && (latitude a =? latitude b)%float && (longitude a =? longitude b)%float.

(** The [setattr] loop over [model_dump(exclude_unset=True)] followed by
    [db.commit()] and [db.refresh]: the row as it is read back afterwards.
    The flush writes the row, and stamps [updated_at] ([onupdate]), only
    when a column changed. *)
Definition apply_update (now : Z) (a : Address) (u : AddressUpdate)
  : result Address :=
  street' <- set_required (street a) (u_street u) ;;
  city' <- set_required (city a) (u_city u) ;;
  country' <- set_required (country a) (u_country u) ;;
  latitude' <- set_required (latitude a) (u_latitude u) ;;
  longitude' <- set_required (longitude a) (u_longitude u) ;;
  let a' := {| id := id a; street := street'; city := city';
               state := set_nullable (state a) (u_state u);
               country := country';
               postal_code := set_nullable (postal_code a) (u_postal_code u);
               latitude := latitude'; longitude := longitude';
               created_at := created_at a; updated_at := updated_at a |} in
  if same_columns a a' then Ok a
  else Ok {| id := id a'; street := street a'; city := city a';
             state := state a'; country := country a';
             postal_code := postal_code a';
             latitude := sqlite_real (latitude a');
             longitude := sqlite_real (longitude a');
             created_at := created_at a'; updated_at := now |}.

(** The table after the row of primary key [address_id] was replaced. *)
Definition replace_row (address_id : Z) (a' : Address) (l : list Address)
  : list Address :=
  map (fun a => if (id a =? address_id)%Z then a' else a) l.

(** [update_address]: the session afterwards, and what is returned or
    raised.  A failed commit leaves the table as it was. *)
Definition update_address (db : Session) (address_id : Z)
  (address_update : AddressUpdate) : Session * result (option Address) :=
  match get_address db address_id with
  | Raise e => (db, Raise e)
  | Ok None => (db, Ok None)
  | Ok (Some db_address) =>
      match apply_update (utcnow db) db_address address_update with
      | Ok a' =>
          ({| rows := replace_row address_id a' (rows db);
              utcnow := utcnow db |}, Ok (Some a'))
      | Raise e => (db, Raise e)
      end
  end.

(** [delete_address]: the session afterwards, and what is returned or
    raised. *)
Definition delete_address (db : Session) (address_id : Z)
  : Session * result bool :=
  match get_address db address_id with
  | Raise e => (db, Raise e)
  | Ok None => (db, Ok false)
  | Ok (Some db_address) =>
      ({| rows := filter (fun a => negb (id a =? id db_address)%Z) (rows db);
          utcnow := utcnow db |}, Ok true)
  end.

(** What a handler hands to FastAPI, and what an endpoint answers: a body,
    or an error status ([HTTPException]). *)
Inductive http (A : Type) : Type :=
| Response (body : A)
| HTTPException (status_code : Z).

Arguments Response {A} body.
Arguments HTTPException {A} status_code.

(** The value of a [float] field, when its constraints refuse it. *)
Definition refused (passes : float -> bool) (v : float) : list float :=
  if passes v then [] else [v].

(** What FastAPI answers when the validation of a body fails: the status
    422, with a JSON body that repeats for each refused field the value it was
    given.  [json.dumps(allow_nan=False)] raises on NaN and on the
    infinities, so a refused [float] that is not finite ends in the status
    500. *)
Definition validation_error {A : Type} (refused_values : list float)
  : http A :=
  if forallb is_finite refused_values then HTTPException 422
  else HTTPException 500.

(** The values that [LocationQuery] refuses. *)
Definition LocationQuery_refused (latitude longitude radius_km : float)
  : list float :=
  refused (fun v => Field_ge (-90) v && Field_le 90 v) latitude
  ++ refused (fun v => Field_ge (-180) v && Field_le 180 v) longitude
  ++ refused (Field_gt 0) radius_km.

Section Proximity.
Variable L : libm.

(** The body of the loop of [get_addresses_within_radius]. *)
Definition radius_step (latitude0 longitude0 radius_km : float)
  (nearby_addresses : list Address) (address0 : Address)
  : result (list Address) :=
  distance <- calculate_distance L latitude0 longitude0
                (latitude address0) (longitude address0) ;;
  if (distance <=? radius_km)%float
  then Ok (nearby_addresses ++ [address0])
  else Ok nearby_addresses.

(** [get_addresses_within_radius]: the loop over [all_addresses] appends to
    [nearby_addresses]. *)
Definition get_addresses_within_radius (db : Session)
  (latitude0 longitude0 radius_km : float) : result (list Address) :=
  let all_addresses := query_all db in
  for_each all_addresses (radius_step latitude0 longitude0 radius_km) [].

(** ** [app/api/routes/addresses.py] *)

(** The body of the loop of [get_nearby_addresses]. *)
Definition annotate_step (location : LocationQuery)
  (addresses_with_distance : list AddressWithDistance) (address0 : Address)
  : result (list AddressWithDistance) :=
  distance <- calculate_distance L (q_latitude location)
                (q_longitude location)
                (latitude address0) (longitude address0) ;;
  let address_dict := {| address := address0;
                         distance_km := Builtins.round distance 2 |} in
  Ok (addresses_with_distance ++ [address_dict]).

(** The loop of [get_nearby_addresses] that builds
    [addresses_with_distance]. *)
Definition annotate (location : LocationQuery) (addresses : list Address)
  : result (list AddressWithDistance) :=
  for_each addresses (annotate_step location) [].

(** The body of the [try] block. *)
Definition nearby_body (location : LocationQuery) (db : Session)
  : result (list AddressWithDistance) :=
  addresses <- get_addresses_within_radius db (q_latitude location)
                 (q_longitude location) (q_radius_km location) ;;
  addresses_with_distance <- annotate location addresses ;;
  Ok (Builtins.sort distance_km addresses_with_distance).

(** [get_nearby_addresses]: [except Exception] turns every exception of the
    body into a 500. *)
Definition get_nearby_addresses (location : LocationQuery) (db : Session)
  : http (list AddressWithDistance) :=
  match nearby_body location db with
  | Ok addresses_with_distance => Response addresses_with_distance
  | Raise _ => HTTPException 500
  end.

(** [POST /addresses/nearby]: FastAPI validates the body against
    [LocationQuery] and, when the validation fails, answers without calling
    the handler. *)
Definition post_addresses_nearby (latitude0 longitude0 radius_km : float)
  (db : Session) : http (list AddressWithDistance) :=
  match LocationQuery_validate latitude0 longitude0 radius_km with
  | Some location => get_nearby_addresses location db
  | None =>
      validation_error (LocationQuery_refused latitude0 longitude0 radius_km)
  end.

End Proximity.

(** ** Vocabulary of the statements *)

Section Vocabulary.
Variable L : libm.
Open Scope float_scope.

(** A coordinate within the ranges that [AddressBase] and [LocationQuery]
    declare. *)
Definition valid_coordinate (lat lon : float) : bool :=
  (-90 <=? lat) && (lat <=? 90) && (-180 <=? lon) && (lon <=? 180).

(** The distance from a reference point to a stored address. *)
Definition distance_to (lat lon : float) (a : Address) : result float :=
  calculate_distance L lat lon (latitude a) (longitude a).

(** The distance is computed, and it is at most the radius. *)
Definition within_radius (lat lon radius_km : float) (a : Address) : bool :=
  match distance_to lat lon a with
  | Ok d => d <=? radius_km
  | Raise _ => false
  end.

(** The address is within the radius of the query and its rounded distance
    equals [k]. *)
Definition reported_at (location : LocationQuery) (k : float) (a : Address)
  : bool :=
  match distance_to (q_latitude location) (q_longitude location) a with
  | Ok d => (d <=? q_radius_km location) && (Builtins.round d 2 =? k)
  | Raise _ => false
  end.

(** The distance of the address is computed, and rounds to [k]. *)
Definition rounds_to (location : LocationQuery) (k : float) (a : Address)
  : bool :=
  match distance_to (q_latitude location) (q_longitude location) a with
  | Ok d => Builtins.round d 2 =? k
  | Raise _ => false
  end.

(** [annotates location a e]: [e] is the row [a] with its distance to the
    reference point, rounded to two decimal places. *)
Inductive annotates (location : LocationQuery)
  : Address -> AddressWithDistance -> Prop :=
| annotates_intro a d :
    distance_to (q_latitude location) (q_longitude location) a = Ok d ->
    annotates location a
      {| address := a; distance_km := Builtins.round d 2 |}.

(** [two_places d r]: [r] is [d] rounded to two decimal places.  For a
    finite [d], of sign [s] and magnitude [m * 2 ^ e], there is an integer
    [n] at most one half away from [100 * m * 2 ^ e], even when it is one
    half away, and [r] is the float nearest to [n / 100], under the sign
    [s].  A zero, an infinity and NaN are kept. *)
Definition two_places (d r : float) : Prop :=
  match Prim2SF d with
  | S754_finite s m e =>
      exists n : Z,
        let num := (Z.pos m * 100 * 2 ^ Z.max 0 e)%Z in
        let den := (2 ^ Z.max 0 (- e))%Z in
        (2 * Z.abs (n * den - num) <= den)%Z
        /\ ((2 * Z.abs (n * den - num) = den)%Z -> Z.even n = true)
        /\ r = SF2Prim match n with
                       | Zpos n =>
                           SFdiv prec emax (S754_finite s n 0)
                             (S754_finite false 100 0)
                       | _ => S754_zero s
                       end
  | _ => r = d
  end.

(** Non-decreasing [distance_km]. *)
Definition distance_le (x y : AddressWithDistance) : Prop :=
  (distance_km x <=? distance_km y) = true.

(** The C library's sine is odd at [h]. *)
Definition sin_odd_at (h : float) : Prop := c_sin L (- h) = - c_sin L h.

(** The half-difference, in radians, of two angles given in degrees: the
    argument [dlat / 2], [dlon / 2] of the sine. *)
Definition half_difference (deg1 deg2 : float) : float :=
  (Math.radians deg2 - Math.radians deg1) / 2.

(** The angle that the C library's [atan2] returns lies in [[0, 2]]
    (the quarter turn is about 1.57). *)
Definition atan2_in_range (y x : float) : bool :=
  (0 <=? c_atan2 L y x) && (c_atan2 L y x <=? 2).

End Vocabulary.

(** ** Sample data *)

Module Sample.
Open Scope float_scope.
Open Scope string_scope.

Definition row (i : Z) (lat lon : float) : Address :=
  {| id := i; street := "1 Main Street"; city := "Springfield";
     state := None; country := "Utopia"; postal_code := Some "12345";
     latitude := lat; longitude := lon;
     created_at := 1700000000; updated_at := 1700000000 |}.

(** An address, and the address at its antipode. *)
Definition here : Address := row 1 8 (-180).
Definition antipode : Address := row 2 (-8) 0.
Definition antipodal_db : Session :=
  {| rows := [here; antipode]; utcnow := 1700000100 |}.

(** Four addresses around the point (0, 0): at 0.02 degree east, 0.01
    degree east, 0.01 degree north, and far away. *)
Definition east2 : Address := row 1 0 0x1.47ae147ae147bp-6.
Definition east1 : Address := row 2 0 0x1.47ae147ae147bp-7.
Definition north1 : Address := row 3 0x1.47ae147ae147bp-7 0.
Definition far : Address := row 4 10 10.
Definition equator_db : Session :=
  {| rows := [east2; east1; north1; far]; utcnow := 1700000100 |}.
Definition equator_query : LocationQuery :=
  {| q_latitude := 0; q_longitude := 0; q_radius_km := 5 |}.

(** The two addresses at 1.11 km in the order of the store, then the one
    at 2.22 km. *)
Definition equator_answer : list AddressWithDistance :=
  [ {| address := east1; distance_km := 0x1.1c28f5c28f5c3p+0 |};
    {| address := north1; distance_km := 0x1.1c28f5c28f5c3p+0 |};
    {| address := east2; distance_km := 0x1.1c28f5c28f5c3p+1 |} ].


(** New York and London. *)
Definition new_york : float * float :=
  (0x1.45b3d07c84b5ep+5, -0x1.280624dd2f1aap+6).
Definition london : float * float :=
  (0x1.9c0f27bb2fec5p+5, -0x1.05bc01a36e2ebp-3).

Definition no_update : AddressUpdate :=
  {| u_street := None; u_city := None; u_state := None; u_country := None;
     u_postal_code := None; u_latitude := None; u_longitude := None |}.
Definition move_north : AddressUpdate :=
  {| u_street := None; u_city := Some (Some "Shelbyville"); u_state := None;
     u_country := None; u_postal_code := None;
     u_latitude := Some (Some 9); u_longitude := None |}.

End Sample.

(** ** Python [str]: [strip] *)

Module Str.

(** [Py_UNICODE_ISSPACE].  A character of a [str] is a code point; the
    strings of this development hold the code points below 256, and the
    white space among them is U+0009 to U+000D, U+001C to U+0020, U+0085 and
    U+00A0. *)
Definition isspace (c : Ascii.ascii) : bool :=
  let ch := Ascii.N_of_ascii c in
  ((9 <=? ch) && (ch <=? 13) || (28 <=? ch) && (ch <=? 32)
   || (ch =? 133) || (ch =? 160))%N.

Fixpoint lstrip (s : string) : string :=
  match s with
  | String c s' => if isspace c then lstrip s' else s
  | EmptyString => EmptyString
  end.

Fixpoint rstrip (s : string) : string :=
  match s with
  | String c s' =>
      match rstrip s' with
      | EmptyString => if isspace c then EmptyString else String c EmptyString
      | r => String c r
      end
  | EmptyString => EmptyString
  end.

(** [s.strip()]: the white space at both ends is dropped. *)
Definition strip (s : string) : string := rstrip (lstrip s).

End Str.

(** ** [app/models/address.py]: the request models *)

(** The outcome of a pydantic validation is a value or a [ValidationError];
    [None] is the error. *)
Definition and_then {A B : Type} (o : option A) (k : A -> option B)
  : option B :=
  match o with
  | Some a => k a
  | None => None
  end.

Notation "x <-- o ;; k" := (and_then o (fun x => k))
  (at level 61, o at next level, right associativity) : py_scope.

(** [min_length] and [max_length] of a [str] field count characters. *)
Definition Field_length (min_length max_length : nat) (v : string) : bool :=
  (min_length <=? String.length v)%nat && (String.length v <=? max_length)%nat.

(** [AddressBase.validate_not_empty] *)
Definition AddressBase_validate_not_empty (v : string) : result string :=
  if (v =? EmptyString)%string || (Str.strip v =? EmptyString)%string
  then Raise ValueError
  else Ok (Str.strip v).

(** [AddressBase.validate_optional_fields] *)
Definition AddressBase_validate_optional_fields (v : option string)
  : option string :=
  match v with
  | Some s => if (s =? EmptyString)%string then v else Some (Str.strip s)
  | None => v
  end.

(** [AddressUpdate.validate_not_empty] *)
Definition AddressUpdate_validate_not_empty (v : option string)
  : result (option string) :=
  match v with
  | Some s =>
      if (s =? EmptyString)%string || (Str.strip s =? EmptyString)%string
      then Raise ValueError
      else Ok (Some (Str.strip s))
  | None => Ok None
  end.

(** The JSON body of a request that creates an address, each member a
    string or a number as its field declares; [None] is a member that is
    missing or [null]. *)
Record AddressBody : Type := {
  b_street : option string;
  b_city : option string;
  b_state : option string;
  b_country : option string;
  b_postal_code : option string;
  b_latitude : option float;
  b_longitude : option float
}.

(** [AddressCreate]: an instance is a validated body. *)
Record AddressCreate : Type := {
  c_street : string;
  c_city : string;
  c_state : option string;
  c_country : string;
  c_postal_code : option string;
  c_latitude : float;
  c_longitude : float
}.

(** A required [str] field with [validate_not_empty]: the constraints of
    [Field] are checked on the value as it came, the validator runs after
    them, and what it raises is a validation error. *)
Definition required_str (min_length max_length : nat) (v : option string)
  : option string :=
  s <-- v ;;
  if Field_length min_length max_length s then
    match AddressBase_validate_not_empty s with
    | Ok s' => Some s'
    | Raise _ => None
    end
  else None.

(** An [Optional[str]] field of [AddressBase] with
    [validate_optional_fields]. *)
Definition optional_str (max_length : nat) (v : option string)
  : option (option string) :=
  match v with
  | Some s =>
      if Field_length 0 max_length s
      then Some (AddressBase_validate_optional_fields v)
      else None
  | None => Some (AddressBase_validate_optional_fields v)
  end.

(** A required [float] field with [ge] and [le]. *)
Definition required_float (lo hi : float) (v : option float) : option float :=
  x <-- v ;;
  if Field_ge lo x && Field_le hi x then Some x else None.

Definition AddressCreate_validate (body : AddressBody) : option AddressCreate :=
  street' <-- required_str 1 255 (b_street body) ;;
  city' <-- required_str 1 100 (b_city body) ;;
  state' <-- optional_str 100 (b_state body) ;;
  country' <-- required_str 1 100 (b_country body) ;;
  postal_code' <-- optional_str 20 (b_postal_code body) ;;
  latitude' <-- required_float (-90) 90 (b_latitude body) ;;
  longitude' <-- required_float (-180) 180 (b_longitude body) ;;
  Some {| c_street := street'; c_city := city'; c_state := state';
          c_country := country'; c_postal_code := postal_code';
          c_latitude := latitude'; c_longitude := longitude' |}.

(** A field of [AddressUpdate] is validated when the body sets it.  [null]
    is a value of every field; a string passes the constraints of [Field]
    first; [after] is the field's validator, if it has one. *)
Definition updated_str (min_length max_length : nat)
  (after : option string -> result (option string))
  (v : option (option string)) : option (option (option string)) :=
  match v with
  | None => Some None
  | Some w =>
      if match w with
         | Some s => Field_length min_length max_length s
         | None => true
         end
      then match after w with
           | Ok w' => Some (Some w')
           | Raise _ => None
           end
      else None
  end.

Definition updated_float (lo hi : float) (v : option (option float))
  : option (option (option float)) :=
  match v with
  | Some (Some x) => if Field_ge lo x && Field_le hi x then Some v else None
  | _ => Some v
  end.

Definition AddressUpdate_validate (body : AddressUpdate)
  : option AddressUpdate :=
  street' <-- updated_str 1 255 AddressUpdate_validate_not_empty
                (u_street body) ;;
  city' <-- updated_str 1 100 AddressUpdate_validate_not_empty
              (u_city body) ;;
  state' <-- updated_str 0 100 (fun w => Ok w) (u_state body) ;;
  country' <-- updated_str 1 100 AddressUpdate_validate_not_empty
                 (u_country body) ;;
  postal_code' <-- updated_str 0 20 (fun w => Ok w) (u_postal_code body) ;;
  latitude' <-- updated_float (-90) 90 (u_latitude body) ;;
  longitude' <-- updated_float (-180) 180 (u_longitude body) ;;
  Some {| u_street := street'; u_city := city'; u_state := state';
          u_country := country'; u_postal_code := postal_code';
          u_latitude := latitude'; u_longitude := longitude' |}.

(** ** [app/crud/address.py]: [create_address] and [get_addresses] *)

(** What the database engine and the clock contribute to an [INSERT]: the two
    readings of [datetime.utcnow] of the column defaults, and the outcome of
    SQLite's search for a free rowid when the largest one is taken ([None]:
    the search gave up, and the statement fails). *)
Record Insert : Type := {
  created_default : Z;
  updated_default : Z;
  random_rowid : option Z
}.

Definition MAX_ROWID : Z := 9223372036854775807.

Definition largest_rowid (l : list Address) : option Z :=
  match l with
  | [] => None
  | a :: l' => Some (fold_left Z.max (map id l') (id a))
  end.

(** The [id] of a new row.  The column is an [INTEGER PRIMARY KEY] of SQLite,
    the rowid: a new row gets 1 in an empty table, else one more than the
    largest rowid in use; when that is the largest possible rowid, SQLite
    tries rowids at random. *)
Definition new_rowid (l : list Address) (random : option Z) : option Z :=
  match largest_rowid l with
  | None => Some 1%Z
  | Some v => if (v <? MAX_ROWID)%Z then Some (v + 1)%Z else random
  end.

(** The table lists its rows by increasing rowid. *)
Fixpoint insert_row (a : Address) (l : list Address) : list Address :=
  match l with
  | [] => [a]
  | b :: l' => if (id a <? id b)%Z then a :: l else b :: insert_row a l'
  end.

(** [create_address]: the session afterwards and the row returned, which
    [db.refresh] has read back from the table; [None] when [db.commit()]
    raised. *)
Definition create_address (db : Session) (address0 : AddressCreate)
  (engine : Insert) : Session * option Address :=
  match new_rowid (rows db) (random_rowid engine) with
  | Some i =>
      let db_address :=
        {| id := i; street := c_street address0; city := c_city address0;
           state := c_state address0; country := c_country address0;
           postal_code := c_postal_code address0;
           latitude := sqlite_real (c_latitude address0);
           longitude := sqlite_real (c_longitude address0);
           created_at := created_default engine;
           updated_at := updated_default engine |} in
      ({| rows := insert_row db_address (rows db); utcnow := utcnow db |},
       Some db_address)
  | None => (db, None)
  end.

(** [get_addresses]: [db.query(Address).offset(skip).limit(limit).all()].
    In SQLite a negative [OFFSET] is no offset and a negative [LIMIT] is no
    limit. *)
Definition get_addresses (db : Session) (skip limit : Z)
  : result (list Address) :=
  if sqlite_int64 skip && sqlite_int64 limit then
    let after := skipn (Z.to_nat skip) (rows db) in
    Ok (if (limit <? 0)%Z then after else firstn (Z.to_nat limit) after)
  else Raise OverflowError.

(** ** [app/api/routes/addresses.py]: the handlers *)

Module Routes.

(** [create_address]: [except Exception] answers 500. *)
Definition create_address (address0 : AddressCreate) (db : Session)
  (engine : Insert) : Session * http Address :=
  match create_address db address0 engine with
  | (db', Some db_address) => (db', Response db_address)
  | (db', None) => (db', HTTPException 500)
  end.

(** [get_addresses] *)
Definition get_addresses (skip limit : Z) (db : Session)
  : http (list Address) :=
  match get_addresses db skip limit with
  | Ok addresses => Response addresses
  | Raise _ => HTTPException 500
  end.

(** [get_address]: the handler has no [try]; what [crud.get_address]
    raises leaves the handler. *)
Definition get_address (address_id : Z) (db : Session)
  : result (http Address) :=
  db_address <- get_address db address_id ;;
  match db_address with
  | None => Ok (HTTPException 404)
  | Some db_address => Ok (Response db_address)
  end.

(** [update_address]: the handler has no [try]; what [crud.update_address]
    raises leaves the handler. *)
Definition update_address (address_id : Z) (address_update : AddressUpdate)
  (db : Session) : Session * result (http Address) :=
  match update_address db address_id address_update with
  | (db', Ok None) => (db', Ok (HTTPException 404))
  | (db', Ok (Some db_address)) => (db', Ok (Response db_address))
  | (db', Raise e) => (db', Raise e)
  end.

(** [delete_address]: the body of the answer is empty; the handler has no
    [try] either. *)
Definition delete_address (address_id : Z) (db : Session)
  : Session * result (http unit) :=
  match delete_address db address_id with
  | (db', Ok true) => (db', Ok (Response tt))
  | (db', Ok false) => (db', Ok (HTTPException 404))
  | (db', Raise e) => (db', Raise e)
  end.

End Routes.

(** ** The endpoints: validation of the request, then the handler *)

(** The value of an optional [float] member, when [ge] and [le] refuse it. *)
Definition refused_member (lo hi : float) (v : option float) : list float :=
  match v with
  | Some x => refused (fun v => Field_ge lo v && Field_le hi v) x
  | None => []
  end.

(** The floats that [AddressCreate] and [AddressUpdate] refuse. *)
Definition AddressCreate_refused (body : AddressBody) : list float :=
  refused_member (-90) 90 (b_latitude body)
  ++ refused_member (-180) 180 (b_longitude body).

Definition given (v : option (option float)) : option float :=
  match v with
  | Some (Some x) => Some x
  | _ => None
  end.

Definition AddressUpdate_refused (body : AddressUpdate) : list float :=
  refused_member (-90) 90 (given (u_latitude body))
  ++ refused_member (-180) 180 (given (u_longitude body)).

(** [POST /addresses] *)
Definition post_addresses (body : AddressBody) (db : Session)
  (engine : Insert) : Session * http Address :=
  match AddressCreate_validate body with
  | Some address0 => Routes.create_address address0 db engine
  | None => (db, validation_error (AddressCreate_refused body))
  end.

(** [GET /addresses]: [skip = Query(0, ge=0)] and
    [limit = Query(100, ge=1, le=1000)]; [None] is a parameter that the
    request does not give. *)
Definition get_addresses_page (skip limit : option Z) (db : Session)
  : http (list Address) :=
  let skip := match skip with Some n => n | None => 0%Z end in
  let limit := match limit with Some n => n | None => 100%Z end in
  if (0 <=? skip)%Z && (1 <=? limit)%Z && (limit <=? 1000)%Z
  then Routes.get_addresses skip limit db
  else HTTPException 422.

(** [PUT /addresses/{address_id}] *)
Definition put_address (address_id : Z) (body : AddressUpdate) (db : Session)
  : Session * result (http Address) :=
  match AddressUpdate_validate body with
  | Some address_update => Routes.update_address address_id address_update db
  | None => (db, Ok (validation_error (AddressUpdate_refused body)))
  end.

(** ** Vocabulary of the statements on the store *)

Definition first_char (s : string) : option Ascii.ascii :=
  match s with
  | String c _ => Some c
  | EmptyString => None
  end.

Fixpoint last_char (s : string) : option Ascii.ascii :=
  match s with
  | String c s' =>
      match last_char s' with
      | Some d => Some d
      | None => Some c
      end
  | EmptyString => None
  end.

Definition space_at (c : option Ascii.ascii) : bool :=
  match c with
  | Some c => Str.isspace c
  | None => false
  end.

(** No white space at either end. *)
Definition stripped (s : string) : bool :=
  negb (space_at (first_char s)) && negb (space_at (last_char s)).

(** A string that is not empty, carries no white space at its ends and has
    [max_length] characters at most. *)
Definition nonblank (max_length : nat) (s : string) : bool :=
  negb (s =? EmptyString)%string && stripped s
  && (String.length s <=? max_length)%nat.

(** An optional string of [max_length] characters at most. *)
Definition fits (max_length : nat) (v : option string) : bool :=
  match v with
  | Some s => (String.length s <=? max_length)%nat
  | None => true
  end.

(** What [AddressBase] promises of an address: the three required strings
    are not empty, carry no white space at their ends and fit their columns,
    the optional ones fit theirs, and the coordinate is in range. *)
Definition well_formed (a : Address) : bool :=
  nonblank 255 (street a) && nonblank 100 (city a) && nonblank 100 (country a)
  && fits 100 (state a) && fits 20 (postal_code a)
  && valid_coordinate (latitude a) (longitude a).

(** The primary key: the rowids of the table increase. *)
Definition primary_key (db : Session) : Prop :=
  StronglySorted Z.lt (map id (rows db)).

(** The table has room: the largest possible rowid is not in use. *)
Definition has_room (db : Session) : Prop :=
  Forall (fun a => (id a < MAX_ROWID)%Z) (rows db).

(** The body that carries the fields of an [AddressCreate]. *)
Definition body_of (a : AddressCreate) : AddressBody :=
  {| b_street := Some (c_street a); b_city := Some (c_city a);
     b_state := c_state a; b_country := Some (c_country a);
     b_postal_code := c_postal_code a;
     b_latitude := Some (c_latitude a);
     b_longitude := Some (c_longitude a) |}.

(** The body with another [state], and with another [postal_code]. *)
Definition with_state (body : AddressBody) (v : option string) : AddressBody :=
  {| b_street := b_street body; b_city := b_city body; b_state := v;
     b_country := b_country body; b_postal_code := b_postal_code body;
     b_latitude := b_latitude body; b_longitude := b_longitude body |}.

Definition with_postal_code (body : AddressBody) (v : option string)
  : AddressBody :=
  {| b_street := b_street body; b_city := b_city body;
     b_state := b_state body; b_country := b_country body;
     b_postal_code := v;
     b_latitude := b_latitude body; b_longitude := b_longitude body |}.

(** The body sets the field to [null]. *)
Definition sets_null {T : Type} (v : option (option T)) : bool :=
  match v with
  | Some None => true
  | _ => false
  end.

(** The update sets a column that is declared [nullable=False] to [null]. *)
Definition nulls_required_column (u : AddressUpdate) : bool :=
  sets_null (u_street u) || sets_null (u_city u) || sets_null (u_country u)
  || sets_null (u_latitude u) || sets_null (u_longitude u).

(** The value that the update asks for: the one it sets, else the old one. *)
Definition requested {T : Type} (old : T) (v : option (option T)) : T :=
  match v with
  | Some (Some x) => x
  | _ => old
  end.

(** The row with the columns that the update asks for. *)
Definition requested_row (a : Address) (u : AddressUpdate) : Address :=
  {| id := id a;
     street := requested (street a) (u_street u);
     city := requested (city a) (u_city u);
     state := set_nullable (state a) (u_state u);
     country := requested (country a) (u_country u);
     postal_code := set_nullable (postal_code a) (u_postal_code u);
     latitude := requested (latitude a) (u_latitude u);
     longitude := requested (longitude a) (u_longitude u);
     created_at := created_at a; updated_at := updated_at a |}.

(** The row with [updated_at] stamped. *)
Definition stamped (now : Z) (a : Address) : Address :=
  {| id := id a; street := street a; city := city a; state := state a;
     country := country a; postal_code := postal_code a;
     latitude := latitude a; longitude := longitude a;
     created_at := created_at a; updated_at := now |}.

(** The row as the table hands it back. *)
Definition read_back (a : Address) : Address :=
  {| id := id a; street := street a; city := city a; state := state a;
     country := country a; postal_code := postal_code a;
     latitude := sqlite_real (latitude a);
     longitude := sqlite_real (longitude a);
     created_at := created_at a; updated_at := updated_at a |}.

(** The update that sets no field: the body [{}]. *)
Definition empty_update : AddressUpdate :=
  {| u_street := None; u_city := None; u_state := None; u_country := None;
     u_postal_code := None; u_latitude := None; u_longitude := None |}.

(** The same table under another reading of the clock. *)
Definition at_time (now : Z) (db : Session) : Session :=
  {| rows := rows db; utcnow := now |}.

(** ** Sample requests *)

Module Fixtures.
Open Scope float_scope.
Open Scope string_scope.

(** A body with white space around its strings and a blank state, and the
    [AddressCreate] that it validates to. *)
Definition office_body : AddressBody :=
  {| b_street := Some "  10 Downing Street ";
     b_city := Some "London";
     b_state := Some "   ";
     b_country := Some " United Kingdom";
     b_postal_code := Some "SW1A 2AA";
     b_latitude := Some (fst Sample.london);
     b_longitude := Some (snd Sample.london) |}.

Definition office : AddressCreate :=
  {| c_street := "10 Downing Street"; c_city := "London";
     c_state := Some EmptyString; c_country := "United Kingdom";
     c_postal_code := Some "SW1A 2AA";
     c_latitude := fst Sample.london; c_longitude := snd Sample.london |}.

Definition engine : Insert :=
  {| created_default := 1700000200; updated_default := 1700000200;
     random_rowid := None |}.

(** An address at latitude [-0.0], and the body of [office_body] with a
    blank city. *)
Definition on_equator : AddressCreate :=
  {| c_street := "1 Line Road"; c_city := "Quito"; c_state := None;
     c_country := "Ecuador"; c_postal_code := None;
     c_latitude := - 0; c_longitude := -0x1.39e353f7ced91p+6 |}.

Definition blank_city_body : AddressBody :=
  {| b_street := Some "  10 Downing Street ";
     b_city := Some "  ";
     b_state := Some "   ";
     b_country := Some " United Kingdom";
     b_postal_code := Some "SW1A 2AA";
     b_latitude := Some (fst Sample.london);
     b_longitude := Some (snd Sample.london) |}.

(** The row that [office] becomes in [Sample.equator_db], and the table
    with it. *)
Definition office_row : Address :=
  {| id := 5; street := "10 Downing Street"; city := "London";
     state := Some EmptyString; country := "United Kingdom";
     postal_code := Some "SW1A 2AA";
     latitude := fst Sample.london; longitude := snd Sample.london;
     created_at := 1700000200; updated_at := 1700000200 |}.

Definition office_db : Session :=
  {| rows := [Sample.east2; Sample.east1; Sample.north1; Sample.far;
              office_row];
     utcnow := 1700000100 |}.

(** [Sample.east1] after [Sample.move_north], and the table with it. *)
Definition moved : Address :=
  {| id := 2; street := "1 Main Street"; city := "Shelbyville";
     state := None; country := "Utopia"; postal_code := Some "12345";
     latitude := 9; longitude := 0x1.47ae147ae147bp-7;
     created_at := 1700000000; updated_at := 1700000100 |}.

Definition moved_db : Session :=
  {| rows := [Sample.east2; moved; Sample.north1; Sample.far];
     utcnow := 1700000100 |}.

(** An update with white space around its strings, and what it validates
    to. *)
Definition padded_update : AddressUpdate :=
  {| u_street := Some (Some " 2 Side Street "); u_city := None;
     u_state := Some (Some " NY "); u_country := None;
     u_postal_code := Some None; u_latitude := Some (Some 9);
     u_longitude := None |}.

Definition trimmed_update : AddressUpdate :=
  {| u_street := Some (Some "2 Side Street"); u_city := None;
     u_state := Some (Some " NY "); u_country := None;
     u_postal_code := Some None; u_latitude := Some (Some 9);
     u_longitude := None |}.

(** The body [{"city": null}]. *)
Definition null_city : AddressUpdate :=
  {| u_street := None; u_city := Some None; u_state := None;
     u_country := None; u_postal_code := None; u_latitude := None;
     u_longitude := None |}.

(** The answer of [Sample.equator_query] once [Sample.east1] is deleted. *)
Definition answer_without_east1 : list AddressWithDistance :=
  [ {| address := Sample.north1; distance_km := 0x1.1c28f5c28f5c3p+0 |};
    {| address := Sample.east2; distance_km := 0x1.1c28f5c28f5c3p+1 |} ].

End Fixtures.

Unset Implicit Arguments.

(** * Facts on the IEEE 754 operations of [SpecFloat] *)

Module SpecFloatFacts.
Open Scope Z_scope.

(** ** Digits *)
Lemma digits2_pos_bounds p :
  2 ^ (Z.pos (digits2_pos p) - 1) <= Z.pos p < 2 ^ Z.pos (digits2_pos p).
Proof.
  induction p as [p IH|p IH|]; cbn [digits2_pos].
  - rewrite Pos2Z.inj_succ.
    replace (Z.succ (Z.pos (digits2_pos p)) - 1) with (Z.succ (Z.pos (digits2_pos p) - 1)) by lia.
    rewrite !Z.pow_succ_r by lia. lia.
  - rewrite Pos2Z.inj_succ.
    replace (Z.succ (Z.pos (digits2_pos p)) - 1) with (Z.succ (Z.pos (digits2_pos p) - 1)) by lia.
    rewrite !Z.pow_succ_r by lia. lia.
  - simpl. lia.
Qed.

Lemma Zdigits2_nonneg m : 0 <= Zdigits2 m.
Proof. destruct m; simpl; lia. Qed.

Lemma Zdigits2_upper m : 0 <= m -> m < 2 ^ Zdigits2 m.
Proof.
  destruct m as [|p|p]; simpl; intros H; try lia.
  apply digits2_pos_bounds.
Qed.

Lemma Zdigits2_lower m : 0 < m -> 2 ^ (Zdigits2 m - 1) <= m.
Proof.
  destruct m as [|p|p]; simpl; intros H; try lia.
  apply digits2_pos_bounds.
Qed.

Lemma Zdigits2_le m k : 0 <= m -> 0 <= k -> m < 2 ^ k -> Zdigits2 m <= k.
Proof.
  intros Hm Hk H. destruct (Z.eq_dec m 0) as [->|Hz]; [simpl; lia|].
  assert (L := Zdigits2_lower m ltac:(lia)).
  assert (N := Zdigits2_nonneg m).
  destruct (Z_le_gt_dec (Zdigits2 m) k) as [|G]; [assumption|].
  assert (2 ^ k <= 2 ^ (Zdigits2 m - 1)) by (apply Z.pow_le_mono_r; lia).
  lia.
Qed.

Lemma Zdigits2_mul a b :
  0 <= a -> 0 <= b -> Zdigits2 (a * b) <= Zdigits2 a + Zdigits2 b.
Proof.
  intros Ha Hb.
  assert (Na := Zdigits2_nonneg a). assert (Nb := Zdigits2_nonneg b).
  apply Zdigits2_le; try lia.
  rewrite Z.pow_add_r by lia.
  assert (Ua := Zdigits2_upper a Ha). assert (Ub := Zdigits2_upper b Hb).
  nia.
Qed.

(** Shifting to the right. *)
Lemma shr_1_m mrs : 0 <= shr_m mrs -> shr_m (shr_1 mrs) = shr_m mrs / 2.
Proof.
  destruct mrs as [m r s]. simpl. intros H.
  destruct m as [|[p|p|]|p]; simpl; try lia; try reflexivity.
  - apply (Z.div_unique_pos _ _ _ 1); lia.
  - apply (Z.div_unique_pos _ _ _ 0); lia.
Qed.

Lemma shr_m_iter p : forall mrs,
  0 <= shr_m mrs ->
  shr_m (iter_pos shr_1 p mrs) = shr_m mrs / 2 ^ Z.pos p.
Proof.
  induction p as [p IH|p IH|]; intros mrs H; cbn [iter_pos].
  - assert (H1 : 0 <= shr_m (shr_1 mrs)).
    { rewrite shr_1_m by assumption. apply Z.div_pos; lia. }
    assert (H2 : 0 <= shr_m (iter_pos shr_1 p (shr_1 mrs))).
    { rewrite IH by assumption. apply Z.div_pos; [lia|]. apply Z.pow_pos_nonneg; lia. }
    rewrite IH, IH, shr_1_m by assumption.
    rewrite !Z.div_div by (try lia; apply Z.pow_pos_nonneg; lia).
    f_equal. replace (Z.pos p~1) with (Z.pos p + Z.pos p + 1) by lia.
    rewrite !Z.pow_add_r, Z.pow_1_r by lia. ring.
  - assert (H2 : 0 <= shr_m (iter_pos shr_1 p mrs)).
    { rewrite IH by assumption. apply Z.div_pos; [lia|]. apply Z.pow_pos_nonneg; lia. }
    rewrite IH, IH by assumption.
    rewrite !Z.div_div by (try lia; apply Z.pow_pos_nonneg; lia).
    f_equal. replace (Z.pos p~0) with (Z.pos p + Z.pos p) by lia.
    rewrite !Z.pow_add_r by lia. ring.
  - rewrite shr_1_m by assumption. reflexivity.
Qed.

Lemma shr_m_record_of_loc m l : shr_m (shr_record_of_loc m l) = m.
Proof. destruct l as [|[]]; reflexivity. Qed.


(** [shr_fexp] as arithmetic. *)
Lemma shr_fexp_spec m e l :
  0 <= m ->
  let n := SpecFloat.fexp prec emax (Zdigits2 m + e) - e in
  let '(mrs, e') := shr_fexp prec emax m e l in
  e' = Z.max e (SpecFloat.fexp prec emax (Zdigits2 m + e)) /\
  shr_m mrs = (if 0 <? n then m / 2 ^ n else m).
Proof.
  intros Hm n. unfold shr_fexp, shr. fold n.
  destruct n as [|p|p] eqn:En; cbn [Z.ltb Z.compare].
  - rewrite shr_m_record_of_loc. split; lia.
  - rewrite shr_m_iter by (rewrite shr_m_record_of_loc; assumption).
    rewrite shr_m_record_of_loc. split; [lia | reflexivity].
  - rewrite shr_m_record_of_loc. split; lia.
Qed.

Lemma round_nearest_even_bounds m l :
  m <= round_nearest_even m l <= m + 1.
Proof.
  unfold round_nearest_even. destruct l as [|[]]; try lia.
  destruct (Z.even m); lia.
Qed.

Lemma fexp_eq x : SpecFloat.fexp prec emax x = Z.max (x - 53) (-1074).
Proof. reflexivity. Qed.

Lemma div_pow2_lt m n k :
  0 <= m -> 0 < n -> n <= k -> m < 2 ^ k -> m / 2 ^ n < 2 ^ (k - n).
Proof.
  intros Hm Hn Hk H.
  apply Z.div_lt_upper_bound; [apply Z.pow_pos_nonneg; lia|].
  rewrite <- Z.pow_add_r by lia. now replace (n + (k - n)) with k by lia.
Qed.

(** One normalisation step keeps a number under [2 ^ K]. *)
Lemma shr_fexp_bound m e l K :
  0 <= m -> e <= K -> -1074 <= K -> m < 2 ^ (K - e) ->
  let '(mrs, e') := shr_fexp prec emax m e l in
  0 <= shr_m mrs /\ shr_m mrs < 2 ^ (K - e') /\ e' <= K
  /\ e' = Z.max e (Z.max (Zdigits2 m + e - 53) (-1074)).
Proof.
  intros Hm He HK H.
  assert (D : Zdigits2 m <= K - e) by (apply Zdigits2_le; lia).
  assert (S := shr_fexp_spec m e l Hm). cbv zeta in S.
  destruct (shr_fexp prec emax m e l) as [mrs e'].
  destruct S as [-> S]. rewrite fexp_eq in *.
  set (n := Z.max (Zdigits2 m + e - 53) (-1074) - e) in *.
  rewrite S. destruct (0 <? n) eqn:En.
  - apply Z.ltb_lt in En.
    replace (Z.max e (Z.max (Zdigits2 m + e - 53) (-1074))) with (e + n) by lia.
    repeat split; try lia.
    + apply Z.div_pos; [lia|]. apply Z.pow_pos_nonneg; lia.
    + replace (K - (e + n)) with (K - e - n) by lia.
      apply div_pow2_lt; lia.
  - apply Z.ltb_ge in En.
    replace (Z.max e (Z.max (Zdigits2 m + e - 53) (-1074))) with e by lia.
    repeat split; lia.
Qed.

(** Rounding a number under [2 ^ K] gives at most [2 ^ K]: no overflow
    when [K <= 1023]. *)
Lemma binary_round_aux_bound s mx ex lx K :
  0 <= mx -> Zdigits2 mx + ex <= K -> -1074 <= K -> K <= 1023 -> ex <= 971 ->
  mag_le (K + 1) (binary_round_aux prec emax s mx ex lx)
  /\ sign_is s (binary_round_aux prec emax s mx ex lx).
Proof.
  intros Hm HD HK1 HK2 He. unfold binary_round_aux.
  assert (N := Zdigits2_nonneg mx).
  assert (U := Zdigits2_upper mx Hm).
  assert (B : mx < 2 ^ (K - ex)).
  { eapply Z.lt_le_trans; [exact U|]. apply Z.pow_le_mono_r; lia. }
  assert (S1 := shr_fexp_bound mx ex lx K Hm ltac:(lia) HK1 B).
  destruct (shr_fexp prec emax mx ex lx) as [mrs' e'].
  destruct S1 as (P1 & B1 & E1 & Q1).
  set (m' := round_nearest_even (shr_m mrs') (loc_of_shr_record mrs')).
  assert (R := round_nearest_even_bounds (shr_m mrs') (loc_of_shr_record mrs')).
  fold m' in R.
  assert (B' : m' < 2 ^ (K + 1 - e')).
  { replace (K + 1 - e') with (Z.succ (K - e')) by lia.
    rewrite Z.pow_succ_r by lia. lia. }
  assert (S2 := shr_fexp_bound m' e' loc_Exact (K + 1) ltac:(lia) ltac:(lia) ltac:(lia) B').
  assert (D' : Zdigits2 m' <= K + 1 - e') by (apply Zdigits2_le; lia).
  destruct (shr_fexp prec emax m' e' loc_Exact) as [mrs'' e''].
  destruct S2 as (P2 & B2 & E2 & Q2).
  unfold mag_le, sign_is.
  destruct (shr_m mrs'') as [|m''|m''] eqn:Em; [auto| |lia].
  assert (e'' <= 971) by lia.
  destruct (e'' <=? emax - prec) eqn:L;
    [|apply Z.leb_gt in L; change (emax - prec) with 971 in L; lia].
  split; [|reflexivity].
  assert (Zdigits2 (Z.pos m'') <= K + 1 - e'') by (apply Zdigits2_le; lia).
  lia.
Qed.

(** Rounding never produces NaN, and keeps the sign. *)
Lemma binary_round_aux_sign s mx ex lx :
  0 <= mx -> sign_is s (binary_round_aux prec emax s mx ex lx).
Proof.
  intros Hm. unfold binary_round_aux.
  assert (S1 := shr_fexp_spec mx ex lx Hm). cbv zeta in S1.
  destruct (shr_fexp prec emax mx ex lx) as [mrs' e'].
  destruct S1 as [_ S1].
  assert (P1 : 0 <= shr_m mrs').
  { rewrite S1.
    destruct (0 <? SpecFloat.fexp prec emax (Zdigits2 mx + ex) - ex) eqn:En; [|assumption].
    apply Z.ltb_lt in En.
    apply Z.div_pos; [assumption|]. apply Z.pow_pos_nonneg; lia. }
  set (m' := round_nearest_even (shr_m mrs') (loc_of_shr_record mrs')).
  assert (R := round_nearest_even_bounds (shr_m mrs') (loc_of_shr_record mrs')).
  fold m' in R.
  assert (S2 := shr_fexp_spec m' e' loc_Exact ltac:(lia)). cbv zeta in S2.
  destruct (shr_fexp prec emax m' e' loc_Exact) as [mrs'' e''].
  destruct S2 as [_ S2].
  assert (P2 : 0 <= shr_m mrs'').
  { rewrite S2.
    destruct (0 <? SpecFloat.fexp prec emax (Zdigits2 m' + e') - e') eqn:En; [|lia].
    apply Z.ltb_lt in En.
    apply Z.div_pos; [lia|]. apply Z.pow_pos_nonneg; lia. }
  unfold sign_is.
  destruct (shr_m mrs'') as [|m''|m'']; [reflexivity| |lia].
  destruct (e'' <=? emax - prec); reflexivity.
Qed.

(** [shl_align] keeps the value. *)
Lemma iter_xO m d : Z.pos (Pos.iter xO m d) = Z.pos m * 2 ^ Z.pos d.
Proof.
  revert m. induction d as [|d IH] using Pos.peano_ind; intros m.
  - simpl. lia.
  - rewrite Pos.iter_succ, Pos2Z.inj_xO, IH, Pos2Z.inj_succ, Z.pow_succ_r by lia.
    ring.
Qed.

Lemma shl_align_spec m e e' :
  let '(m', e'') := shl_align m e e' in
  e'' = Z.min e e' /\ Z.pos m' = Z.pos m * 2 ^ (e - e'').
Proof.
  unfold shl_align. destruct (e' - e) as [|d|d] eqn:E.
  - split; [lia|]. replace (e - e) with 0 by lia. simpl. lia.
  - split; [lia|]. replace (e - e) with 0 by lia. simpl. lia.
  - split; [lia|]. rewrite iter_xO. f_equal. f_equal. lia.
Qed.

Lemma Zdigits2_shift m k :
  0 < m -> 0 <= k -> Zdigits2 (m * 2 ^ k) = Zdigits2 m + k.
Proof.
  intros Hm Hk.
  assert (P : 0 < 2 ^ k) by (apply Z.pow_pos_nonneg; lia).
  assert (U := Zdigits2_upper m ltac:(lia)).
  assert (Lo := Zdigits2_lower m Hm).
  assert (N := Zdigits2_nonneg m).
  assert (U' := Zdigits2_upper (m * 2 ^ k) ltac:(nia)).
  assert (Lo' := Zdigits2_lower (m * 2 ^ k) ltac:(nia)).
  assert (N' := Zdigits2_nonneg (m * 2 ^ k)).
  assert (D1 : Zdigits2 (m * 2 ^ k) <= Zdigits2 m + k).
  { apply Zdigits2_le; try lia; try nia.
    rewrite Z.pow_add_r by lia. nia. }
  assert (D2 : Zdigits2 m + k <= Zdigits2 (m * 2 ^ k)).
  { destruct (Z_le_gt_dec (Zdigits2 m + k) (Zdigits2 (m * 2 ^ k))) as [|G]; [assumption|].
    exfalso.
    assert (Zdigits2 m >= 1).
    { destruct m; simpl in *; lia. }
    assert (2 ^ Zdigits2 (m * 2 ^ k) <= 2 ^ (Zdigits2 m - 1 + k))
      by (apply Z.pow_le_mono_r; lia).
    rewrite Z.pow_add_r in * by lia. nia. }
  lia.
Qed.

Lemma binary_round_bound s m e K :
  Zdigits2 (Z.pos m) + e <= K -> -1074 <= K -> K <= 1023 ->
  mag_le (K + 1) (binary_round prec emax s m e)
  /\ sign_is s (binary_round prec emax s m e).
Proof.
  intros HD HK1 HK2. unfold binary_round.
  assert (A := shl_align_spec m e (SpecFloat.fexp prec emax (Z.pos (digits2_pos m) + e))).
  destruct (shl_align m e _) as [mz ez]. destruct A as [Ez Em].
  change (Z.pos (digits2_pos m)) with (Zdigits2 (Z.pos m)) in *.
  rewrite fexp_eq in Ez.
  assert (N : 1 <= Zdigits2 (Z.pos m)) by (simpl; lia).
  apply binary_round_aux_bound; try lia.
  rewrite Em, Zdigits2_shift by lia. lia.
Qed.

Lemma binary_round_sign s m e :
  sign_is s (binary_round prec emax s m e).
Proof.
  unfold binary_round. destruct (shl_align m e _) as [mz ez].
  apply binary_round_aux_sign. lia.
Qed.

(** Validity. *)
Lemma valid_finite s m e :
  valid_binary (S754_finite s m e) = true ->
  Zdigits2 (Z.pos m) <= 53 /\ -1074 <= e <= 971
  /\ e = Z.max (Zdigits2 (Z.pos m) + e - 53) (-1074).
Proof.
  cbn [valid_binary]. unfold bounded, canonical_mantissa. rewrite fexp_eq.
  change (emax - prec) with 971.
  rewrite andb_true_iff, Z.eqb_eq, Z.leb_le.
  change (Z.pos (digits2_pos m)) with (Zdigits2 (Z.pos m)). lia.
Qed.

(** Multiplication. *)
Lemma SFmul_bound x y A B :
  valid_binary x = true -> valid_binary y = true ->
  mag_le A x -> mag_le B y -> A + B <= 1023 ->
  mag_le (Z.max (A + B) (-1074) + 1) (SFmul prec emax x y).
Proof.
  intros Vx Vy Hx Hy HK.
  destruct x as [sx|sx| |sx mx ex], y as [sy|sy| |sy my ey];
    cbn [mag_le] in Hx, Hy; try contradiction; try exact I.
  apply valid_finite in Vx, Vy. cbn [SFmul].
  assert (D := Zdigits2_mul (Z.pos mx) (Z.pos my) (Pos2Z.is_nonneg mx) (Pos2Z.is_nonneg my)).
  assert (1 <= Zdigits2 (Z.pos mx)) by (simpl; lia).
  assert (1 <= Zdigits2 (Z.pos my)) by (simpl; lia).
  apply (binary_round_aux_bound (xorb sx sy) (Z.pos (mx * my)) (ex + ey) loc_Exact
           (Z.max (A + B) (-1074))); try lia.
  change (Z.pos (mx * my)) with (Z.pos mx * Z.pos my). lia.
Qed.

Lemma SFmul_sign x y sx sy :
  sign_is sx x -> sign_is sy y ->
  SFmul prec emax x y = S754_nan \/ sign_is (xorb sx sy) (SFmul prec emax x y).
Proof.
  destruct x as [s1|s1| |s1 mx ex], y as [s2|s2| |s2 my ey]; simpl;
    intros H1 H2; subst; try contradiction; auto.
  right. apply binary_round_aux_sign. lia.
Qed.

(** A comparison with a constant bounds the magnitude. *)
Lemma SFleb_abs_mag x mc ec :
  valid_binary x = true ->
  SFleb (SFabs x) (S754_finite false mc ec) = true ->
  mag_le (53 + ec) x.
Proof.
  intros V H. destruct x as [s|s| |s m e]; try exact I; try discriminate.
  apply valid_finite in V. cbn [mag_le].
  unfold SFleb in H. cbn [SFabs SFcompare] in H.
  destruct (Z.compare_spec e ec); try discriminate; lia.
Qed.

Lemma SFleb_range_abs x mc ec :
  SFleb (S754_finite true mc ec) x = true ->
  SFleb x (S754_finite false mc ec) = true ->
  SFleb (SFabs x) (S754_finite false mc ec) = true.
Proof.
  unfold SFleb.
  destruct x as [s|s| |s m e]; try destruct s; cbn [SFabs SFcompare];
    try discriminate; try (intros; assumption); try reflexivity.
  intros H _.
  change (Pos.compare_cont Eq mc m) with (Pos.compare mc m) in H.
  change (Pos.compare_cont Eq m mc) with (Pos.compare m mc).
  rewrite (Z.compare_antisym ec e), (Pos.compare_antisym mc m).
  destruct (ec ?= e); simpl in *; try discriminate; try reflexivity.
  destruct (mc ?= m)%positive; simpl in *; try discriminate; reflexivity.
Qed.

(** Subtraction from one; [mc] is the mantissa of [1.0]. *)
Lemma SFsub_one_bound_gen mc a :
  Z.pos mc = 2 ^ 52 ->
  valid_binary a = true ->
  SFleb (S754_zero false) a = true ->
  SFleb a (S754_finite false mc (-52)) = true ->
  mag_le 2 (SFsub prec emax (S754_finite false mc (-52)) a)
  /\ sign_is false (SFsub prec emax (S754_finite false mc (-52)) a).
Proof.
  intros Hc V H0 H1.
  assert (Dc : Zdigits2 (Z.pos mc) <= 53).
  { apply Zdigits2_le; lia. }
  destruct a as [s|s| |s m e]; try discriminate.
  - cbn [SFsub mag_le sign_is]. split; [lia | reflexivity].
  - destruct s; discriminate.
  - apply valid_finite in V.
    destruct s; [discriminate|].
    unfold SFleb in H1. cbn [SFcompare] in H1.
    change (Pos.compare_cont Eq m mc) with (Pos.compare m mc) in H1.
    assert (Hm : e < -52 \/ e = -52 /\ (m <= mc)%positive).
    { destruct (Z.compare_spec e (-52)) as [E|E|E]; [right|left; assumption|discriminate].
      split; [assumption|].
      destruct (Pos.compare_spec m mc); [lia|lia|discriminate]. }
    clear H0 H1.
    unfold SFsub. cbn [cond_Zopp].
    replace (Z.min (-52) e) with e by lia.
    assert (A1 := shl_align_spec mc (-52) e).
    assert (A2 := shl_align_spec m e e).
    destruct (shl_align mc (-52) e) as [m1 e1].
    destruct (shl_align m e e) as [m2 e2]. cbn [fst].
    destruct A1 as [E1 A1]. destruct A2 as [E2 A2].
    replace e2 with e in * by lia.
    replace e1 with e in * by lia.
    replace (e - e) with 0 in A2 by lia.
    rewrite Hc, <- Z.pow_add_r in A1 by lia.
    replace (52 + (-52 - e)) with (- e) in A1 by lia.
    rewrite Z.pow_0_r, Z.mul_1_r in A2.
    assert (U := Zdigits2_upper (Z.pos m) ltac:(lia)).
    assert (Hle : Z.pos m2 <= Z.pos m1).
    { rewrite A1, A2. destruct Hm as [Hm|[Hm Hm']].
      - assert (2 ^ 53 <= 2 ^ (- e)) by (apply Z.pow_le_mono_r; lia).
        assert (2 ^ Zdigits2 (Z.pos m) <= 2 ^ 53) by (apply Z.pow_le_mono_r; lia).
        lia.
      - subst e. change (- -52) with 52. rewrite <- Hc. lia. }
    unfold binary_normalize.
    destruct (Z.pos m1 - Z.pos m2) as [|d|d] eqn:Ed;
      [cbn [mag_le sign_is]; auto| |lia].
    assert (P : 0 < 2 ^ (- e)) by (apply Z.pow_pos_nonneg; lia).
    assert (Z.pos d < 2 ^ (- e)) by lia.
    assert (Zdigits2 (Z.pos d) <= - e) by (apply Zdigits2_le; lia).
    destruct (binary_round_bound false d e 0) as [Bm Bs]; try lia.
    split; [|assumption].
    destruct (binary_round prec emax false d e); cbn [mag_le] in *; try lia.
Qed.

(** A positive number at an exponent of the format does not round to 0. *)
Lemma binary_round_aux_nonzero s mx ex lx :
  0 < mx -> -1074 <= ex ->
  match binary_round_aux prec emax s mx ex lx with
  | S754_finite s' _ _ | S754_infinity s' => s' = s
  | _ => False
  end.
Proof.
  intros Hm He. unfold binary_round_aux.
  assert (step : forall m e l, 0 < m -> -1074 <= e ->
            let '(mrs, e') := shr_fexp prec emax m e l in
            0 < shr_m mrs /\ -1074 <= e').
  { intros m e l Pm Pe.
    assert (S := shr_fexp_spec m e l ltac:(lia)). cbv zeta in S.
    destruct (shr_fexp prec emax m e l) as [mrs e'].
    destruct S as [-> S]. rewrite fexp_eq in *. split; [|lia].
    rewrite S.
    destruct (0 <? Z.max (Zdigits2 m + e - 53) (-1074) - e) eqn:En; [|assumption].
    apply Z.ltb_lt in En.
    assert (Lo := Zdigits2_lower m Pm).
    replace (Z.max (Zdigits2 m + e - 53) (-1074) - e) with (Zdigits2 m - 53) by lia.
    apply Z.div_str_pos. split; [apply Z.pow_pos_nonneg; lia|].
    eapply Z.le_trans; [|exact Lo]. apply Z.pow_le_mono_r; lia. }
  assert (S1 := step mx ex lx Hm He).
  destruct (shr_fexp prec emax mx ex lx) as [mrs' e'].
  destruct S1 as [P1 E1].
  assert (R := round_nearest_even_bounds (shr_m mrs') (loc_of_shr_record mrs')).
  assert (S2 := step (round_nearest_even (shr_m mrs') (loc_of_shr_record mrs')) e' loc_Exact ltac:(lia) E1).
  destruct (shr_fexp prec emax _ e' loc_Exact) as [mrs'' e''].
  destruct S2 as [P2 E2].
  destruct (shr_m mrs'') as [|m''|m'']; try lia.
  destruct (e'' <=? emax - prec); reflexivity.
Qed.

Lemma binary_round_nonzero s m e :
  -1074 <= e ->
  match binary_round prec emax s m e with
  | S754_finite s' _ _ | S754_infinity s' => s' = s
  | _ => False
  end.
Proof.
  intros He. unfold binary_round.
  assert (A := shl_align_spec m e (SpecFloat.fexp prec emax (Z.pos (digits2_pos m) + e))).
  destruct (shl_align m e _) as [mz ez]. destruct A as [Ez _].
  rewrite fexp_eq in Ez.
  apply binary_round_aux_nonzero; lia.
Qed.

(** Above one, [1 - a] is negative. *)
Lemma SFsub_one_neg_gen mc a :
  Z.pos mc = 2 ^ 52 ->
  valid_binary a = true -> SFltb (S754_finite false mc (-52)) a = true ->
  match SFsub prec emax (S754_finite false mc (-52)) a with
  | S754_finite true _ _ | S754_infinity true => True
  | _ => False
  end.
Proof.
  intros Hc V H. destruct a as [s|s| |s m e]; try discriminate.
  - destruct s; [discriminate | exact I].
  - apply valid_finite in V. destruct s; [discriminate|].
    unfold SFltb in H. cbn [SFcompare] in H.
    change (Pos.compare_cont Eq mc m) with (Pos.compare mc m) in H.
    assert (Hm : -52 < e \/ e = -52 /\ (mc < m)%positive).
    { destruct (Z.compare_spec (-52) e) as [E|E|E]; [right|left; assumption|discriminate].
      split; [lia|].
      destruct (Pos.compare_spec mc m); [discriminate|lia|discriminate]. }
    clear H.
    unfold SFsub. cbn [cond_Zopp].
    replace (Z.min (-52) e) with (-52) by lia.
    assert (A1 := shl_align_spec mc (-52) (-52)).
    assert (A2 := shl_align_spec m e (-52)).
    destruct (shl_align mc (-52) (-52)) as [m1 e1].
    destruct (shl_align m e (-52)) as [m2 e2]. cbn [fst].
    destruct A1 as [E1 A1]. destruct A2 as [E2 A2].
    replace e2 with (-52) in * by lia.
    replace e1 with (-52) in * by lia.
    replace (-52 - -52) with 0 in A1 by lia.
    rewrite Z.pow_0_r, Z.mul_1_r in A1.
    assert (Lo := Zdigits2_lower (Z.pos m) ltac:(lia)).
    assert (Hlt : Z.pos m1 < Z.pos m2).
    { rewrite A1, A2, Hc. destruct Hm as [Hm|[Hm Hm']].
      - assert (Zdigits2 (Z.pos m) = 53) by lia.
        replace (Zdigits2 (Z.pos m) - 1) with 52 in Lo by lia.
        assert (P : 2 ^ 1 <= 2 ^ (e - -52)) by (apply Z.pow_le_mono_r; lia).
        rewrite Z.pow_1_r in P.
        set (X := 2 ^ 52) in *. set (Y := 2 ^ (e - -52)) in *.
        assert (0 < X) by (unfold X; lia).
        assert (X * 2 <= Z.pos m * Y) by (apply Z.mul_le_mono_nonneg; lia).
        lia.
      - subst e. replace (-52 - -52) with 0 by lia. rewrite Z.pow_0_r. lia. }
    unfold binary_normalize.
    destruct (Z.pos m1 - Z.pos m2) as [|d|d] eqn:Ed; try lia.
    assert (N := binary_round_nonzero true d (-52) ltac:(lia)).
    destruct (binary_round prec emax true d (-52)) as [| | |s' ? ?]; try contradiction;
      subst; exact I.
Qed.

Lemma shift_match m s :
  0 <= s ->
  match s with Z.pos _ => Z.shiftl m s | 0 => m | Z.neg _ => 0 end = m * 2 ^ s.
Proof.
  intros H. destruct s as [|p|p]; try lia.
  apply Z.shiftl_mul_pow2. lia.
Qed.

(** Square root. *)
Lemma SFsqrt_bound x :
  valid_binary x = true -> sign_is false x ->
  match x with S754_infinity _ => True | _ =>
    mag_le 601 (SFsqrt prec emax x) end
  /\ sign_is false (SFsqrt prec emax x).
Proof.
  intros V S. destruct x as [s|s| |s m e]; cbn [sign_is] in S; subst;
    try contradiction; cbn [SFsqrt mag_le sign_is]; auto.
  apply valid_finite in V.
  unfold SFsqrt_core_binary.
  set (d := Zdigits2 (Z.pos m)) in *.
  assert (Hd : 1 <= d) by (unfold d; simpl; lia).
  rewrite fexp_eq. rewrite !Z.div2_div.
  set (e' := Z.min (Z.max ((d + e + 1) / 2 - 53) (-1074)) (e / 2)).
  assert (He' : 2 * e' <= e /\ e' <= 485 /\ -1074 <= e'
                /\ ((d + e + 1) / 2 - 53 <= e' \/ e / 2 <= e'))
    by (unfold e'; Z.to_euclidean_division_equations; lia).
  set (s := e - 2 * e') in *.
  assert (Hs : 0 <= s) by (unfold s; lia).
  set (m' := match s with Z.pos _ => Z.shiftl (Z.pos m) s | 0 => Z.pos m | Z.neg _ => 0 end).
  assert (Hm' : m' = Z.pos m * 2 ^ s) by (apply shift_match; assumption).
  assert (P : 0 < 2 ^ s) by (apply Z.pow_pos_nonneg; lia).
  assert (Pm' : 0 < m') by (rewrite Hm'; lia).
  assert (Q := Z.sqrtrem_sqrt m').
  destruct (Z.sqrtrem m') as [q r]. cbn [fst] in Q. subst q.
  assert (Q0 := Z.sqrt_nonneg m').
  assert (Q1 : Z.sqrt m' <= m') by (apply Z.sqrt_le_lin; lia).
  assert (D' : Zdigits2 m' = d + s).
  { rewrite Hm'. unfold d. apply Zdigits2_shift; lia. }
  assert (U := Zdigits2_upper m' ltac:(lia)). rewrite D' in U.
  assert (Dq : Zdigits2 (Z.sqrt m') <= d + s).
  { apply Zdigits2_le; try lia. }
  assert (Hb : d + s + e' <= 600)
    by (unfold s; clear - V He' Hd; Z.to_euclidean_division_equations; lia).
  destruct (binary_round_aux_bound false (Z.sqrt m') e'
              (if Z.eqb r 0 then loc_Exact
               else loc_Inexact (if r <=? Z.sqrt m' then Lt else Gt)) 600)
    as [Bm Bs]; try lia.
  split; assumption.
Qed.

(** Division: the sign, and no NaN. *)
Lemma SFdiv_finite_sign sx mx ex sy my ey :
  sign_is (xorb sx sy)
    (SFdiv prec emax (S754_finite sx mx ex) (S754_finite sy my ey)).
Proof.
  cbn [SFdiv]. unfold SFdiv_core_binary.
  set (s := _ - _ - _).
  set (m' := match s with Z.pos _ => Z.shiftl (Z.pos mx) s | 0 => Z.pos mx | Z.neg _ => 0 end).
  assert (Pm' : 0 <= m').
  { unfold m'. destruct s; try lia. apply Z.shiftl_nonneg. lia. }
  assert (Q : 0 <= fst (Z.div_eucl m' (Z.pos my))).
  { change (fst (Z.div_eucl m' (Z.pos my))) with (m' / Z.pos my).
    apply Z.div_pos; lia. }
  destruct (Z.div_eucl m' (Z.pos my)) as [q r]. cbn [fst] in Q.
  apply binary_round_aux_sign. assumption.
Qed.

(** Opposites. *)
Lemma binary_round_aux_opp s m e l :
  binary_round_aux prec emax (negb s) m e l
  = SFopp (binary_round_aux prec emax s m e l).
Proof.
  unfold binary_round_aux.
  destruct (shr_fexp prec emax m e l) as [mrs' e'].
  destruct (shr_fexp prec emax _ e' loc_Exact) as [mrs'' e''].
  destruct (shr_m mrs''); try reflexivity.
  destruct (e'' <=? emax - prec); reflexivity.
Qed.

Lemma binary_round_opp s m e :
  binary_round prec emax (negb s) m e = SFopp (binary_round prec emax s m e).
Proof.
  unfold binary_round. destruct (shl_align m e _) as [mz ez].
  apply binary_round_aux_opp.
Qed.

Lemma SFopp_involutive x : SFopp (SFopp x) = x.
Proof. destruct x as [s|s| |s m e]; cbn; try rewrite negb_involutive; reflexivity. Qed.

Lemma SFdiv_opp_l x y :
  SFdiv prec emax (SFopp x) y = SFopp (SFdiv prec emax x y).
Proof.
  destruct x as [sx|sx| |sx mx ex], y as [sy|sy| |sy my ey];
    cbn [SFopp SFdiv]; try reflexivity;
    try (now destruct sx, sy).
  destruct (SFdiv_core_binary prec emax (Z.pos mx) ex (Z.pos my) ey) as [[mz ez] lz].
  replace (xorb (negb sx) sy) with (negb (xorb sx sy)) by (now destruct sx, sy).
  apply binary_round_aux_opp.
Qed.

Lemma SFmul_comm x y : SFmul prec emax x y = SFmul prec emax y x.
Proof.
  destruct x as [sx|sx| |sx mx ex], y as [sy|sy| |sy my ey];
    cbn [SFmul]; try reflexivity; try (now destruct sx, sy).
  now rewrite xorb_comm, Pos.mul_comm, Z.add_comm.
Qed.

Lemma SFsub_swap x y :
  SFsub prec emax y x = SFopp (SFsub prec emax x y)
  \/ SFsub prec emax y x = SFsub prec emax x y.
Proof.
  destruct x as [sx|sx| |sx mx ex], y as [sy|sy| |sy my ey];
    cbn [SFsub SFopp];
    try (destruct sx, sy; cbn [SFopp negb]; auto; fail);
    try (destruct sx; cbn [SFopp negb]; auto; fail);
    try (destruct sy; cbn [SFopp negb]; auto; fail);
    try (left; reflexivity).
  rewrite (Z.min_comm ey ex).
  {
    set (A := cond_Zopp sx (Z.pos (fst (shl_align mx ex (Z.min ex ey))))).
    set (B := cond_Zopp sy (Z.pos (fst (shl_align my ey (Z.min ex ey))))).
    unfold binary_normalize.
    destruct (A - B) as [|d|d] eqn:E.
    + right. replace (B - A) with 0 by lia. reflexivity.
    + left. replace (B - A) with (Z.neg d) by lia.
      apply (binary_round_opp false).
    + left. replace (B - A) with (Z.pos d) by lia.
      apply (binary_round_opp true).
  }
Qed.

Lemma SFsub_diag x :
  match x with S754_zero _ | S754_finite _ _ _ => True | _ => False end ->
  SFsub prec emax x x = S754_zero false.
Proof.
  destruct x as [s|s| |s m e]; try contradiction; intros _; cbn [SFsub].
  - now destruct s.
  - now rewrite Z.sub_diag.
Qed.

(** ** The order *)

Ltac sf_cases :=
  repeat match goal with
  | s : bool |- _ => destruct s
  end; simpl.

Ltac cmp_cases :=
  repeat match goal with
  | |- context [(?a ?= ?b)%Z] => destruct (Z.compare_spec a b)
  | |- context [Pos.compare_cont Eq ?a ?b] =>
      change (Pos.compare_cont Eq a b) with (Pos.compare a b);
      destruct (Pos.compare_spec a b)
  | H : context [(?a ?= ?b)%Z] |- _ => destruct (Z.compare_spec a b)
  | H : context [Pos.compare_cont Eq ?a ?b] |- _ =>
      change (Pos.compare_cont Eq a b) with (Pos.compare a b) in H;
      destruct (Pos.compare_spec a b)
  end; simpl in *; try discriminate; try reflexivity; try lia.

Lemma SFcompare_antisym x y :
  SFcompare y x = option_map CompOpp (SFcompare x y).
Proof.
  destruct x as [sx|sx| |sx mx ex], y as [sy|sy| |sy my ey]; simpl;
    sf_cases; try reflexivity; cmp_cases.
Qed.

Lemma SFcompare_refl x : x <> S754_nan -> SFcompare x x = Some Eq.
Proof.
  destruct x as [s|s| |s m e]; simpl; intros H; try congruence;
    destruct s; try reflexivity;
    rewrite Z.compare_refl, Pos.compare_cont_refl; reflexivity.
Qed.

Lemma SFcompare_None x y :
  SFcompare x y = None <-> x = S754_nan \/ y = S754_nan.
Proof.
  destruct x as [sx|sx| |sx mx ex], y as [sy|sy| |sy my ey]; simpl;
    split; intros H; try discriminate; auto; try (destruct H; discriminate).
Qed.

Lemma SFleb_trans x y z :
  SFleb x y = true -> SFleb y z = true -> SFleb x z = true.
Proof.
  unfold SFleb.
  destruct x as [sx|sx| |sx mx ex], y as [sy|sy| |sy my ey], z as [sz|sz| |sz mz ez];
    simpl; sf_cases; try discriminate; try reflexivity; cmp_cases.
Qed.

Lemma SFeqb_ltb_compat a b k :
  SFeqb a k = true -> SFeqb b k = true -> SFltb b a = false.
Proof.
  unfold SFeqb, SFltb.
  destruct a as [sx|sx| |sx mx ex], b as [sy|sy| |sy my ey], k as [sz|sz| |sz mz ez];
    simpl; sf_cases; try discriminate; try reflexivity; cmp_cases.
Qed.

End SpecFloatFacts.

(** * Facts on Python floats *)

Module FloatFacts.
Import SpecFloatFacts.
Open Scope float_scope.

(** ** Constants *)

Lemma Prim2SF_zero : Prim2SF 0 = S754_zero false.
Proof. reflexivity. Qed.

Lemma Prim2SF_infinity : Prim2SF infinity = S754_infinity false.
Proof. reflexivity. Qed.

(** ** Classification *)

Lemma is_nan_spec x : is_nan x = true <-> Prim2SF x = S754_nan.
Proof.
  unfold is_nan. rewrite eqb_spec. unfold SFeqb.
  destruct (Prim2SF x) as [s|s| |s m e] eqn:E.
  - simpl. split; discriminate.
  - simpl. destruct s; split; discriminate.
  - simpl. split; reflexivity.
  - rewrite SFcompare_refl by discriminate. simpl. split; discriminate.
Qed.

Lemma is_nan_false x : is_nan x = false <-> Prim2SF x <> S754_nan.
Proof.
  rewrite <- is_nan_spec. destruct (is_nan x); split; congruence.
Qed.

Lemma is_infinity_spec x :
  is_infinity x = true <-> exists s, Prim2SF x = S754_infinity s.
Proof.
  unfold is_infinity. rewrite eqb_spec, abs_spec, Prim2SF_infinity.
  destruct (Prim2SF x) as [s|s| |s m e]; cbn; split;
    try discriminate; try (intros [s' H]; discriminate); eauto.
Qed.

Lemma is_infinity_false x :
  is_infinity x = false <-> forall s, Prim2SF x <> S754_infinity s.
Proof.
  destruct (is_infinity x) eqn:E.
  - apply is_infinity_spec in E. destruct E as [s E]. split; [discriminate|].
    intros H. now elim (H s).
  - split; [|reflexivity]. intros _ s H.
    assert (T : is_infinity x = true) by (apply is_infinity_spec; eauto).
    congruence.
Qed.

Lemma sign_is_not_nan s x : sign_is s (Prim2SF x) -> is_nan x = false.
Proof.
  intros H. apply is_nan_false. intros E. rewrite E in H. exact H.
Qed.

Lemma nonneg_not_nan x : nonneg (Prim2SF x) -> is_nan x = false.
Proof.
  intros [H|H]; [eapply sign_is_not_nan; eassumption|].
  apply is_nan_false. rewrite H. discriminate.
Qed.

Lemma mag_le_classify K x :
  mag_le K (Prim2SF x) ->
  is_nan x = false /\ is_infinity x = false /\ is_finite x = true.
Proof.
  intros H.
  assert (N : is_nan x = false).
  { apply is_nan_false. intros E. rewrite E in H. exact H. }
  assert (I : is_infinity x = false).
  { apply is_infinity_false. intros s E. rewrite E in H. exact H. }
  unfold is_finite. rewrite N, I. auto.
Qed.

(** ** The order *)

Lemma leb_refl x : is_nan x = false -> (x <=? x) = true.
Proof.
  rewrite is_nan_false, leb_spec. intros H. unfold SFleb.
  now rewrite SFcompare_refl.
Qed.

Lemma ltb_leb x y : (x <? y) = true -> (x <=? y) = true.
Proof.
  rewrite ltb_spec, leb_spec. unfold SFltb, SFleb.
  destruct (SFcompare (Prim2SF x) (Prim2SF y)) as [[]|]; congruence.
Qed.

Lemma eqb_leb x y : (x =? y) = true -> (x <=? y) = true.
Proof.
  rewrite eqb_spec, leb_spec. unfold SFeqb, SFleb.
  destruct (SFcompare (Prim2SF x) (Prim2SF y)) as [[]|]; congruence.
Qed.

Lemma leb_total x y :
  is_nan x = false -> is_nan y = false -> (y <? x) = false -> (x <=? y) = true.
Proof.
  rewrite !is_nan_false, ltb_spec, leb_spec. unfold SFltb, SFleb.
  intros Hx Hy. rewrite (SFcompare_antisym (Prim2SF x) (Prim2SF y)).
  destruct (SFcompare (Prim2SF x) (Prim2SF y)) as [[]|] eqn:E; simpl;
    try congruence.
  apply SFcompare_None in E. tauto.
Qed.

Lemma leb_not_nan_l x y : (x <=? y) = true -> is_nan x = false.
Proof.
  rewrite leb_spec, is_nan_false. unfold SFleb. intros H E. rewrite E in H.
  discriminate.
Qed.

Lemma leb_not_nan_r x y : (x <=? y) = true -> is_nan y = false.
Proof.
  rewrite leb_spec, is_nan_false. unfold SFleb. intros H E. rewrite E in H.
  destruct (Prim2SF x); discriminate.
Qed.

Lemma leb_trans x y z :
  (x <=? y) = true -> (y <=? z) = true -> (x <=? z) = true.
Proof. rewrite !leb_spec. apply SFleb_trans. Qed.

Lemma eqb_ltb_compat a b k :
  (a =? k) = true -> (b =? k) = true -> (b <? a) = false.
Proof. rewrite !eqb_spec, ltb_spec. apply SFeqb_ltb_compat. Qed.

Lemma leb_ltb_false x y : (x <=? y) = true -> (y <? x) = false.
Proof.
  rewrite ltb_spec, leb_spec. unfold SFltb, SFleb.
  rewrite (SFcompare_antisym (Prim2SF x) (Prim2SF y)).
  destruct (SFcompare (Prim2SF x) (Prim2SF y)) as [[]|]; simpl; congruence.
Qed.

Lemma ltb_leb_false x y : (x <? y) = true -> (y <=? x) = false.
Proof.
  rewrite ltb_spec, leb_spec. unfold SFltb, SFleb.
  rewrite (SFcompare_antisym (Prim2SF x) (Prim2SF y)).
  destruct (SFcompare (Prim2SF x) (Prim2SF y)) as [[]|]; simpl; congruence.
Qed.

(** A float between two finite floats is finite. *)
Lemma in_range_finite lo hi x :
  is_finite lo = true -> is_finite hi = true ->
  (lo <=? x) && (x <=? hi) = true -> is_finite x = true.
Proof.
  intros Flo Fhi H. apply andb_true_iff in H. destruct H as [H1 H2].
  assert (N : is_nan x = false) by (eapply leb_not_nan_l; eassumption).
  unfold is_finite in *. rewrite N. cbn [orb].
  destruct (is_infinity x) eqn:I; [|reflexivity].
  apply is_infinity_spec in I. destruct I as [s I].
  apply negb_true_iff, orb_false_iff in Flo, Fhi.
  destruct Flo as [Nlo Ilo], Fhi as [Nhi Ihi].
  rewrite is_nan_false in Nlo, Nhi. rewrite is_infinity_false in Ilo, Ihi.
  rewrite leb_spec, I in H1, H2. unfold SFleb in H1, H2.
  destruct s.
  - specialize (Ilo true).
    destruct (Prim2SF lo) as [sl|[]| |sl ml el]; cbn in H1;
      try discriminate; congruence.
  - specialize (Ihi false).
    destruct (Prim2SF hi) as [sh|[]| |sh mh eh]; cbn in H2;
      try discriminate; congruence.
Qed.

Lemma leb_zero_nonneg x : (0 <=? x) = true <-> nonneg (Prim2SF x).
Proof.
  rewrite leb_spec, Prim2SF_zero. unfold SFleb, nonneg.
  destruct (Prim2SF x) as [s|s| |s m e]; try destruct s; cbn; split;
    try discriminate; auto; intros [H|H]; try discriminate; try contradiction;
    reflexivity.
Qed.

End FloatFacts.

(** * Arithmetic of Python floats *)

Module FloatArith.
Import SpecFloatFacts FloatFacts.
Open Scope float_scope.

(** ** Bounds from comparisons *)

Lemma leb_abs_mag x c mc ec :
  Prim2SF c = S754_finite false mc ec ->
  (- c <=? x) = true -> (x <=? c) = true ->
  mag_le (53 + ec) (Prim2SF x).
Proof.
  intros Hc. rewrite !leb_spec, opp_spec, Hc. cbn [SFopp negb]. intros H1 H2.
  eapply SFleb_abs_mag; [apply Prim2SF_valid|].
  apply SFleb_range_abs; eassumption.
Qed.

Lemma leb_nonneg_mag x c mc ec :
  Prim2SF c = S754_finite false mc ec ->
  nonneg (Prim2SF x) -> (x <=? c) = true ->
  mag_le (53 + ec) (Prim2SF x).
Proof.
  intros Hc Hx. rewrite leb_spec, Hc. intros H.
  eapply SFleb_abs_mag; [apply Prim2SF_valid|].
  destruct Hx as [Hx|Hx].
  - destruct (Prim2SF x) as [s|s| |s m e]; cbn [sign_is] in Hx; subst;
      try contradiction; exact H.
  - rewrite Hx in *. exact H.
Qed.

Lemma abs_leb_mag x c mc ec :
  Prim2SF c = S754_finite false mc ec ->
  (abs x <=? c) = true -> mag_le (53 + ec) (Prim2SF x).
Proof.
  intros Hc. rewrite leb_spec, abs_spec, Hc. intros H.
  eapply SFleb_abs_mag; [apply Prim2SF_valid | exact H].
Qed.

(** ** Multiplication *)

Lemma mul_mag x y A B :
  mag_le A (Prim2SF x) -> mag_le B (Prim2SF y) -> (A + B <= 1023)%Z ->
  mag_le (Z.max (A + B) (-1074) + 1) (Prim2SF (x * y)).
Proof.
  intros Hx Hy H. rewrite mul_spec.
  apply SFmul_bound; auto using Prim2SF_valid.
Qed.

Lemma mul_sign x y sx sy K :
  sign_is sx (Prim2SF x) -> sign_is sy (Prim2SF y) ->
  mag_le K (Prim2SF (x * y)) ->
  sign_is (xorb sx sy) (Prim2SF (x * y)).
Proof.
  intros Hx Hy. rewrite mul_spec. intros Hm.
  destruct (SFmul_sign _ _ _ _ Hx Hy) as [E|E]; [|exact E].
  unfold SF64mul in Hm. rewrite E in Hm. contradiction.
Qed.

Lemma mul_comm x y : x * y = y * x.
Proof. apply Prim2SF_inj. rewrite !mul_spec. apply SFmul_comm. Qed.

Lemma mul_zero_r x s K :
  sign_is s (Prim2SF x) -> mag_le K (Prim2SF x) ->
  Prim2SF (x * 0) = S754_zero s.
Proof.
  intros Hs Hm. rewrite mul_spec, Prim2SF_zero. unfold SF64mul.
  destruct (Prim2SF x) as [s'|s'| |s' m e]; cbn in *; try contradiction; subst;
    now rewrite xorb_false_r.
Qed.

(** A zero, or a finite number of clear sign: [0 <= x < 2 ^ K]. *)
Lemma nonneg_mag_spec K x :
  nonneg (Prim2SF x) -> mag_le K (Prim2SF x) ->
  is_finite x = true /\ (0 <=? x) = true.
Proof.
  intros Hn Hm. split.
  - eapply mag_le_classify; eassumption.
  - now apply leb_zero_nonneg.
Qed.

Lemma mul_nonneg x y A B :
  nonneg (Prim2SF x) -> nonneg (Prim2SF y) ->
  mag_le A (Prim2SF x) -> mag_le B (Prim2SF y) -> (A + B <= 1023)%Z ->
  nonneg (Prim2SF (x * y))
  /\ mag_le (Z.max (A + B) (-1074) + 1) (Prim2SF (x * y)).
Proof.
  intros Nx Ny Hx Hy H.
  assert (M := mul_mag x y A B Hx Hy H). split; [|exact M].
  assert (S : forall z, nonneg (Prim2SF z) -> exists s, sign_is s (Prim2SF z)).
  { intros z [Hz|Hz]; [eauto|]. exists true. now rewrite Hz. }
  destruct Nx as [Nx|Nx], Ny as [Ny|Ny].
  - left. apply (mul_sign x y false false _ Nx Ny M).
  - right. rewrite mul_spec, Ny. unfold SF64mul.
    destruct (Prim2SF x) as [s'|s'| |s' m e]; cbn in *; try contradiction;
      subst; reflexivity.
  - right. rewrite mul_spec, Nx. unfold SF64mul.
    destruct (Prim2SF y) as [s'|s'| |s' m e]; cbn in *; try contradiction;
      subst; reflexivity.
  - left. rewrite mul_spec, Nx, Ny. reflexivity.
Qed.

(** ** Opposites *)

Lemma opp_involutive x : - - x = x.
Proof. apply Prim2SF_inj. rewrite !opp_spec. apply SFopp_involutive. Qed.

Lemma is_nan_opp x : is_nan (- x) = is_nan x.
Proof.
  destruct (is_nan x) eqn:E.
  - apply is_nan_spec. apply is_nan_spec in E. now rewrite opp_spec, E.
  - apply is_nan_false. apply is_nan_false in E. rewrite opp_spec.
    destruct (Prim2SF x); cbn; congruence.
Qed.

Lemma abs_opp x : abs (- x) = abs x.
Proof.
  apply Prim2SF_inj. rewrite !abs_spec, opp_spec.
  now destruct (Prim2SF x).
Qed.

Lemma is_infinity_opp x : is_infinity (- x) = is_infinity x.
Proof. unfold is_infinity. now rewrite abs_opp. Qed.

Lemma is_finite_opp x : is_finite (- x) = is_finite x.
Proof. unfold is_finite. now rewrite is_nan_opp, is_infinity_opp. Qed.

Lemma eqb_zero_opp x : (- x =? 0) = (x =? 0).
Proof.
  rewrite !eqb_spec, opp_spec, Prim2SF_zero. unfold SFeqb.
  destruct (Prim2SF x) as [s|s| |s m e]; try destruct s; reflexivity.
Qed.

(** The base that [float_pow] hands to [pow] is the absolute value. *)
Lemma pow_base_opp x :
  is_nan x = false -> (x =? 0) = false ->
  (if - x <? 0 then - - x else - x) = (if x <? 0 then - x else x).
Proof.
  intros Hn Hz. rewrite opp_involutive.
  apply is_nan_false in Hn.
  assert (C : (- x <? 0) = negb (x <? 0)).
  { rewrite eqb_spec, Prim2SF_zero in Hz.
    rewrite !ltb_spec, opp_spec, Prim2SF_zero. unfold SFltb, SFeqb in *.
    destruct (Prim2SF x) as [s|s| |s m e]; try destruct s; cbn in *;
      congruence. }
  rewrite C. now destruct (x <? 0).
Qed.

(** ** Subtraction and division *)

Lemma sub_swap x y : y - x = - (x - y) \/ y - x = x - y.
Proof.
  destruct (SFsub_swap (Prim2SF x) (Prim2SF y)) as [H|H]; [left|right];
    apply Prim2SF_inj; rewrite ?opp_spec, !sub_spec; exact H.
Qed.

Lemma div_opp_l x y : (- x) / y = - (x / y).
Proof.
  apply Prim2SF_inj. rewrite opp_spec, !div_spec, opp_spec.
  apply SFdiv_opp_l.
Qed.

Lemma sub_diag x K : mag_le K (Prim2SF x) -> x - x = 0.
Proof.
  intros H. apply Prim2SF_inj. rewrite sub_spec, Prim2SF_zero.
  apply SFsub_diag. destruct (Prim2SF x); cbn in H; auto.
Qed.

Lemma Prim2SF_one : Prim2SF 1 = S754_finite false 4503599627370496 (-52).
Proof. reflexivity. Qed.

Lemma one_minus a :
  nonneg (Prim2SF a) -> (a <=? 1) = true ->
  mag_le 2 (Prim2SF (1 - a)) /\ sign_is false (Prim2SF (1 - a)).
Proof.
  intros Hn Hle. apply leb_zero_nonneg in Hn.
  rewrite leb_spec, Prim2SF_zero in Hn. rewrite leb_spec, Prim2SF_one in Hle.
  rewrite sub_spec, Prim2SF_one.
  apply SFsub_one_bound_gen; auto using Prim2SF_valid.
Qed.

Lemma one_minus_neg a :
  (1 <? a) = true ->
  match Prim2SF (1 - a) with
  | S754_finite true _ _ | S754_infinity true => True
  | _ => False
  end.
Proof.
  rewrite ltb_spec, Prim2SF_one, sub_spec, Prim2SF_one.
  apply SFsub_one_neg_gen; auto using Prim2SF_valid.
Qed.

(** ** Square root *)

Lemma sqrt_nonneg a :
  nonneg (Prim2SF a) ->
  nonneg (Prim2SF (sqrt a))
  /\ (is_infinity a = false -> mag_le 601 (Prim2SF (sqrt a)))
  /\ (sign_is false (Prim2SF a) -> sign_is false (Prim2SF (sqrt a))).
Proof.
  intros Hn. rewrite sqrt_spec. unfold SF64sqrt.
  destruct Hn as [Hn|Hn].
  - destruct (SFsqrt_bound (Prim2SF a) (Prim2SF_valid a) Hn) as [B S].
    split; [left; exact S|]. split; [|intros _; exact S].
    intros I. destruct (Prim2SF a) as [s|s| |s m e] eqn:E; try exact B.
    assert (T : is_infinity a = true) by (apply is_infinity_spec; eauto).
    congruence.
  - rewrite Hn. cbn. split; [right; reflexivity|]. split; [auto|].
    intros H. discriminate.
Qed.

Lemma math_sqrt_nonneg a :
  nonneg (Prim2SF a) -> Math.sqrt a = Ok (sqrt a).
Proof.
  intros Hn. destruct (sqrt_nonneg a Hn) as (N & B & _).
  unfold Math.sqrt, Math.math_1.
  rewrite (nonneg_not_nan _ N). cbn [andb].
  destruct (is_infinity a) eqn:I.
  - unfold is_finite. rewrite I, orb_true_r. cbn [negb]. now rewrite andb_false_r.
  - destruct (mag_le_classify _ _ (B eq_refl)) as (_ & I' & _). now rewrite I'.
Qed.

Lemma math_sqrt_negative a :
  match Prim2SF a with
  | S754_finite true _ _ | S754_infinity true => True
  | _ => False
  end ->
  Math.sqrt a = Raise ValueError.
Proof.
  intros H. unfold Math.sqrt, Math.math_1.
  assert (N : is_nan (sqrt a) = true).
  { apply is_nan_spec. rewrite sqrt_spec. unfold SF64sqrt.
    destruct (Prim2SF a) as [s|s| |s m e]; try contradiction;
      destruct s; try contradiction; reflexivity. }
  assert (N' : is_nan a = false).
  { apply is_nan_false. intros E. now rewrite E in H. }
  now rewrite N, N'.
Qed.

(** ** [round] *)

Lemma binary_normalize_sign m e :
  (0 <= m)%Z -> sign_is false (binary_normalize prec emax m e false).
Proof.
  intros H. destruct m as [|p|p]; cbn [binary_normalize]; try lia.
  - reflexivity.
  - apply binary_round_sign.
Qed.

Lemma SF2Prim_not_nan x s : sign_is s x -> is_nan (SF2Prim x) = false.
Proof.
  intros H.
  destruct x as [s'|s'| |s' m e]; try contradiction.
  - now destruct s'.
  - now destruct s'.
  - cbn [SF2Prim].
    set (pm := of_uint63 _).
    assert (N : is_nan (Z.ldexp pm e) = false).
    { apply is_nan_false. rewrite FloatLemmas.Z_ldexp_spec. unfold pm.
      rewrite of_uint63_spec.
      set (n := Uint63Axioms.to_Z _).
      assert (S := binary_normalize_sign n 0 (proj1 (Uint63.to_Z_bounded _))).
      destruct (binary_normalize prec emax n 0 false)
        as [s1|s1| |s1 m1 e1]; cbn [SFldexp]; try discriminate;
        try contradiction.
      assert (S' := binary_round_sign s1 m1 (e1 + e)).
      destruct (binary_round prec emax s1 m1 (e1 + e)); try discriminate.
      contradiction. }
    destruct s'; [now rewrite is_nan_opp | exact N].
Qed.

Lemma round_not_nan x n : is_nan x = false -> is_nan (Builtins.round x n) = false.
Proof.
  intros H. unfold Builtins.round.
  destruct (Prim2SF x) as [s|s| |s m e] eqn:E; try exact H.
  set (k := match e with 0%Z => _ | Z.pos _ => _ | Z.neg _ => _ end).
  destruct k as [|k|k]; try (now destruct s).
  destruct (10 ^ Z.of_nat n)%Z as [|p|p]; try (now destruct s).
  eapply SF2Prim_not_nan. apply SFdiv_finite_sign.
Qed.

(** ** Rounding to two decimal places *)

Lemma div_half_even_nearest num den :
  (0 < den)%Z ->
  (2 * Z.abs (Builtins.div_half_even num den * den - num) <= den)%Z
  /\ ((2 * Z.abs (Builtins.div_half_even num den * den - num) = den)%Z ->
      Z.even (Builtins.div_half_even num den) = true).
Proof.
  intros D. unfold Builtins.div_half_even.
  pose proof (Z.div_mod num den ltac:(lia)) as E.
  pose proof (Z.mod_pos_bound num den D) as B.
  set (q := (num / den)%Z) in *. set (r := (num mod den)%Z) in *.
  assert (Q : (q * den - num = - r)%Z) by lia.
  assert (Q1 : ((q + 1) * den - num = den - r)%Z) by lia.
  destruct (Z.compare_spec (2 * r) den) as [C|C|C].
  - destruct (Z.even q) eqn:Ev.
    + rewrite Q. split; [lia | intros _; exact Ev].
    + rewrite Q1. split; [lia|]. intros _.
      rewrite Z.even_add, Ev. reflexivity.
  - rewrite Q. split; lia.
  - rewrite Q1. split; lia.
Qed.

(** [round(d, 2)] is [d] rounded to two decimal places. *)
Lemma round_two_places d : two_places d (Builtins.round d 2).
Proof.
  unfold two_places, Builtins.round.
  destruct (Prim2SF d) as [s|s| |s m e]; try reflexivity.
  change (10 ^ Z.of_nat 2)%Z with 100%Z.
  destruct e as [|k|k].
  - exists (Z.pos m * 100)%Z. cbn [Z.max Z.opp Z.pow].
    split; [lia|]. split; [lia|]. reflexivity.
  - exists (Z.pos m * 2 ^ Z.pos k * 100)%Z.
    assert (K : (0 < 2 ^ Z.pos k)%Z) by (apply Z.pow_pos_nonneg; lia).
    replace (Z.max 0 (Z.pos k)) with (Z.pos k) by lia.
    replace (Z.max 0 (- Z.pos k)) with 0%Z by lia.
    rewrite Z.pow_0_r.
    split; [lia|]. split; [lia|].
    destruct (Z.pos m * 2 ^ Z.pos k * 100)%Z; reflexivity.
  - exists (Builtins.div_half_even (Z.pos m * 100) (2 ^ Z.pos k)).
    assert (K : (0 < 2 ^ Z.pos k)%Z) by (apply Z.pow_pos_nonneg; lia).
    replace (Z.max 0 (Z.neg k)) with 0%Z by lia.
    replace (Z.max 0 (- Z.neg k)) with (Z.pos k) by lia.
    rewrite Z.pow_0_r, Z.mul_1_r.
    destruct (div_half_even_nearest (Z.pos m * 100) (2 ^ Z.pos k) K) as [N T].
    split; [exact N|]. split; [exact T|].
    destruct (Builtins.div_half_even (Z.pos m * 100) (2 ^ Z.pos k));
      reflexivity.
Qed.

End FloatArith.

(** * Loops and sorting *)

Module LoopFacts.
Import FloatFacts FloatArith.
Open Scope float_scope.

Lemma bind_Ok {A B} (r : result A) (k : A -> result B) b :
  bind r k = Ok b -> exists a, r = Ok a /\ k a = Ok b.
Proof. destruct r; simpl; intros H; [eauto | discriminate]. Qed.

Section Loops.
Variable L : libm.

Lemma radius_step_eq lat lon r acc a :
  radius_step L lat lon r acc a =
  match distance_to L lat lon a with
  | Ok d => Ok (if d <=? r then acc ++ [a] else acc)
  | Raise e => Raise e
  end.
Proof.
  unfold radius_step, distance_to.
  destruct (calculate_distance L lat lon (latitude a) (longitude a)) as [d|e];
    simpl; [|reflexivity].
  now destruct (d <=? r).
Qed.

Lemma radius_loop_returns lat lon r l acc :
  Forall (fun a => returns (distance_to L lat lon a) = true) l ->
  for_each l (radius_step L lat lon r) acc
  = Ok (acc ++ filter (within_radius L lat lon r) l).
Proof.
  intros H. revert acc. induction H as [|a l Ha _ IH]; intros acc; simpl.
  - now rewrite app_nil_r.
  - rewrite radius_step_eq. unfold within_radius at 1.
    destruct (distance_to L lat lon a) as [d|e]; [|discriminate]. simpl.
    rewrite IH. destruct (d <=? r); [|reflexivity].
    now rewrite <- app_assoc.
Qed.

Lemma radius_loop_inv lat lon r l acc out :
  for_each l (radius_step L lat lon r) acc = Ok out ->
  Forall (fun a => returns (distance_to L lat lon a) = true) l.
Proof.
  revert acc. induction l as [|a l IH]; intros acc H; constructor;
    simpl in H; apply bind_Ok in H; destruct H as (acc' & H & H').
  - rewrite radius_step_eq in H.
    now destruct (distance_to L lat lon a).
  - eauto.
Qed.

Lemma radius_loop_raises lat lon r l acc :
  Exists (fun a => returns (distance_to L lat lon a) = false) l ->
  returns (for_each l (radius_step L lat lon r) acc) = false.
Proof.
  intros H.
  destruct (for_each l (radius_step L lat lon r) acc) as [out|] eqn:E;
    [|reflexivity].
  apply radius_loop_inv in E. apply Exists_exists in H.
  destruct H as (x & Ha & Hr). rewrite Forall_forall in E.
  rewrite (E x Ha) in Hr. discriminate.
Qed.

Lemma within_radius_spec lat lon r a :
  within_radius L lat lon r a = true <->
  exists d, distance_to L lat lon a = Ok d /\ (d <=? r) = true.
Proof.
  unfold within_radius. destruct (distance_to L lat lon a) as [d|e]; split.
  - eauto.
  - intros (d' & E & H). now inversion E; subst.
  - discriminate.
  - intros (d' & E & _). discriminate.
Qed.

(** What the filter returns, when it returns. *)
Lemma radius_filter_inv db lat lon r out :
  get_addresses_within_radius L db lat lon r = Ok out ->
  out = filter (within_radius L lat lon r) (rows db)
  /\ Forall (fun a => returns (distance_to L lat lon a) = true) (rows db).
Proof.
  unfold get_addresses_within_radius, query_all. intros H.
  pose proof (radius_loop_inv lat lon r (rows db) [] out H) as F. split; [|exact F].
  rewrite (radius_loop_returns lat lon r (rows db) [] F) in H. simpl in H. congruence.
Qed.

Lemma annotate_step_eq location acc a d :
  distance_to L (q_latitude location) (q_longitude location) a = Ok d ->
  annotate_step L location acc a
  = Ok (acc ++ [{| address := a; distance_km := Builtins.round d 2 |}]).
Proof. unfold annotate_step, distance_to. now intros ->. Qed.

Lemma annotate_loop location l acc :
  Forall (fun a => returns (distance_to L (q_latitude location)
                              (q_longitude location) a) = true) l ->
  exists l', for_each l (annotate_step L location) acc = Ok (acc ++ l')
             /\ Forall2 (annotates L location) l l'.
Proof.
  intros H. revert acc. induction H as [|a l Ha _ IH]; intros acc; simpl.
  - exists []. now rewrite app_nil_r.
  - destruct (distance_to L (q_latitude location) (q_longitude location) a)
      as [d|e] eqn:E; [|discriminate].
    rewrite (annotate_step_eq location acc a d E). simpl.
    destruct (IH (acc ++ [{| address := a;
                             distance_km := Builtins.round d 2 |}]))
      as (l' & E' & F).
    exists ({| address := a; distance_km := Builtins.round d 2 |} :: l').
    rewrite E', <- app_assoc. split; [reflexivity|].
    constructor; [|assumption]. now constructor.
Qed.

Lemma annotates_filter location k l l' :
  Forall2 (annotates L location) l l' ->
  map address (filter (fun e => distance_km e =? k) l')
  = filter (rounds_to L location k) l.
Proof.
  induction 1 as [|a e l l' Ha _ IH]; [reflexivity|].
  destruct Ha as [a d Hd]. cbn [filter distance_km]. unfold rounds_to at 1.
  rewrite Hd. destruct (Builtins.round d 2 =? k); cbn [map address];
    now rewrite IH.
Qed.

Lemma annotates_length location l l' :
  Forall2 (annotates L location) l l' -> List.length l' = List.length l.
Proof. induction 1; simpl; congruence. Qed.

Lemma annotates_map location l l' :
  Forall2 (annotates L location) l l' -> map address l' = l.
Proof.
  induction 1 as [|a e l l' Ha _ IH]; [reflexivity|].
  destruct Ha. simpl. now rewrite IH.
Qed.

End Loops.

(** ** [list.sort] *)

Section SortFacts.
Variable A : Type.
Variable key : A -> float.

Lemma insert_perm x l : Permutation (Builtins.insert key x l) (x :: l).
Proof.
  induction l as [|y l IH]; simpl; [reflexivity|].
  destruct (key y <? key x); [|reflexivity].
  rewrite IH. apply perm_swap.
Qed.

Lemma sort_perm l : Permutation (Builtins.sort key l) l.
Proof.
  induction l as [|x l IH]; simpl; [reflexivity|].
  rewrite insert_perm. now constructor.
Qed.

Lemma insert_sorted x l :
  is_nan (key x) = false -> Forall (fun y => is_nan (key y) = false) l ->
  StronglySorted (fun x y => (key x <=? key y) = true) l -> StronglySorted (fun x y => (key x <=? key y) = true) (Builtins.insert key x l).
Proof.
  intros Hx Hl Hs. induction Hs as [|y l Hs IH Hy]; simpl.
  - repeat constructor.
  - inversion Hl as [|? ? Hny Hl']; subst.
    destruct (key y <? key x) eqn:E.
    + constructor; [auto|].
      apply (Permutation_Forall (Permutation_sym (insert_perm x l))).
      constructor; [now apply ltb_leb | assumption].
    + assert (Hxy : (key x <=? key y) = true) by now apply leb_total.
      constructor; [now constructor|].
      constructor; [assumption|].
      eapply Forall_impl; [|exact Hy]. intros z Hz.
      cbv beta in *. eapply leb_trans; eassumption.
Qed.

Lemma sort_sorted l :
  Forall (fun y => is_nan (key y) = false) l ->
  StronglySorted (fun x y => (key x <=? key y) = true) (Builtins.sort key l).
Proof.
  induction 1 as [|x l Hx Hl IH]; simpl; [constructor|].
  apply insert_sorted; [assumption| |assumption].
  apply (Permutation_Forall (Permutation_sym (sort_perm l))). assumption.
Qed.

(** Stability: the elements of key [k] keep their order. *)
Lemma insert_stable k x l :
  filter (fun e => key e =? k) (Builtins.insert key x l)
  = filter (fun e => key e =? k) (x :: l).
Proof.
  induction l as [|y l IH]; [reflexivity|].
  cbn [Builtins.insert]. destruct (key y <? key x) eqn:E; [|reflexivity].
  cbn [filter] in *. rewrite IH.
  destruct (key x =? k) eqn:Ex, (key y =? k) eqn:Ey; try reflexivity.
  rewrite (eqb_ltb_compat _ _ _ Ex Ey) in E. discriminate.
Qed.

Lemma sort_stable k l :
  filter (fun e => key e =? k) (Builtins.sort key l)
  = filter (fun e => key e =? k) l.
Proof.
  induction l as [|x l IH]; [reflexivity|].
  cbn [Builtins.sort fold_right]. rewrite insert_stable.
  cbn [filter]. fold (Builtins.sort key l). now rewrite IH.
Qed.
End SortFacts.

Lemma filter_filter {A} (p q : A -> bool) l :
  filter q (filter p l) = filter (fun x => p x && q x) l.
Proof.
  induction l as [|x l IH]; [reflexivity|]. simpl.
  destruct (p x); simpl; [destruct (q x)|]; now rewrite IH.
Qed.

End LoopFacts.

(** * The radius filter, the ranking and the endpoint *)

Module ProximityProofs.
Import FloatFacts FloatArith LoopFacts.
Open Scope float_scope.

Section WithLibm.
Variable L : libm.

(** X23: when the distance calculator returns for every stored address, the
    radius filter returns exactly the addresses whose distance to the
    reference point is at most [radius_km], in the order of the store; an
    address whose distance equals [radius_km] is among them. *)
Theorem radius_filter_exact (db : Session) (lat lon radius_km : float) :
  Forall (fun a => returns (distance_to L lat lon a) = true) (rows db) ->
  exists out,
    get_addresses_within_radius L db lat lon radius_km = Ok out
    /\ out = filter (within_radius L lat lon radius_km) (rows db)
    /\ (forall a, In a out <->
          In a (rows db) /\
          exists d, distance_to L lat lon a = Ok d /\ (d <=? radius_km) = true)
    /\ (forall a d, In a (rows db) -> distance_to L lat lon a = Ok d ->
          (d =? radius_km) = true -> In a out).
Proof.
  intros F. exists (filter (within_radius L lat lon radius_km) (rows db)).
  split; [|split; [reflexivity|split]].
  - unfold get_addresses_within_radius, query_all.
    now rewrite (radius_loop_returns L lat lon radius_km (rows db) [] F).
  - intros a. rewrite filter_In, within_radius_spec. reflexivity.
  - intros a d Ha Hd He. apply filter_In. split; [assumption|].
    apply within_radius_spec. exists d. split; [assumption|].
    now apply eqb_leb.
Qed.

(** The filter has no handler of its own: an exception of the calculator on
    one stored address is an exception of the filter. *)
Lemma radius_filter_raises db lat lon radius_km :
  Exists (fun a => returns (distance_to L lat lon a) = false) (rows db) ->
  returns (get_addresses_within_radius L db lat lon radius_km) = false.
Proof.
  intros E. unfold get_addresses_within_radius, query_all.
  now apply radius_loop_raises.
Qed.

(** Every address that the filter returns is within the radius. *)
Lemma filtered_within db location filtered :
  get_addresses_within_radius L db (q_latitude location)
    (q_longitude location) (q_radius_km location) = Ok filtered ->
  filtered = filter (within_radius L (q_latitude location)
                       (q_longitude location) (q_radius_km location)) (rows db)
  /\ Forall (fun a => within_radius L (q_latitude location)
                        (q_longitude location) (q_radius_km location) a = true)
       filtered.
Proof.
  intros H. destruct (radius_filter_inv L _ _ _ _ _ H) as [E _].
  split; [exact E|]. subst filtered. apply Forall_forall. intros a Ha.
  now apply filter_In in Ha.
Qed.

Lemma annotated_not_nan location filtered annotated :
  Forall (fun a => within_radius L (q_latitude location)
                     (q_longitude location) (q_radius_km location) a = true)
    filtered ->
  Forall2 (annotates L location) filtered annotated ->
  Forall (fun e => is_nan (distance_km e) = false) annotated.
Proof.
  intros W F. induction F as [|a e l l' Ha _ IH]; constructor.
  - inversion W as [|? ? Wa _]; subst. destruct Ha as [a d Hd].
    apply within_radius_spec in Wa. destruct Wa as (d' & Hd' & Hle).
    rewrite Hd in Hd'. inversion Hd'; subst d'.
    cbn [distance_km]. apply round_not_nan. eapply leb_not_nan_l; eassumption.
  - inversion W; subst. auto.
Qed.

(** The ranking of what the filter returned. *)
Lemma ranking db location filtered :
  get_addresses_within_radius L db (q_latitude location)
    (q_longitude location) (q_radius_km location) = Ok filtered ->
  exists annotated,
    annotate L location filtered = Ok annotated
    /\ Forall2 (annotates L location) filtered annotated
    /\ Forall (fun e => is_nan (distance_km e) = false) annotated
    /\ nearby_body L location db
       = Ok (Builtins.sort distance_km annotated).
Proof.
  intros H. destruct (filtered_within _ _ _ H) as [E W].
  assert (R : Forall (fun a => returns (distance_to L (q_latitude location)
                                (q_longitude location) a) = true) filtered).
  { eapply Forall_impl; [|exact W]. intros a Ha.
    apply within_radius_spec in Ha. destruct Ha as (d & -> & _). reflexivity. }
  destruct (annotate_loop L location filtered [] R) as (annotated & A & F).
  exists annotated. split; [exact A|]. split; [exact F|].
  split; [eapply annotated_not_nan; eassumption|].
  unfold nearby_body. rewrite H. cbn [bind].
  unfold annotate in A. unfold annotate. rewrite A. reflexivity.
Qed.

(** C3: the ranking step, run on what the radius filter returned, pairs each
    record with its distance to the reference point rounded to two decimal
    places: [distance_km] is the float nearest to [n / 100], for an integer
    [n] at most one half away from 100 times the distance.  It returns these
    pairs sorted by non-decreasing [distance_km], and keeps their number. *)
Theorem ranking_sorted (db : Session) (location : LocationQuery)
  (filtered : list Address) :
  get_addresses_within_radius L db (q_latitude location)
    (q_longitude location) (q_radius_km location) = Ok filtered ->
  exists annotated ranked,
    annotate L location filtered = Ok annotated
    /\ Forall2 (annotates L location) filtered annotated
    /\ Forall2 (fun a e =>
                  address e = a
                  /\ exists d,
                       distance_to L (q_latitude location)
                         (q_longitude location) a = Ok d
                       /\ two_places d (distance_km e))
         filtered annotated
    /\ ranked = Builtins.sort distance_km annotated
    /\ nearby_body L location db = Ok ranked
    /\ Permutation ranked annotated
    /\ StronglySorted distance_le ranked
    /\ List.length ranked = List.length filtered.
Proof.
  intros H. destruct (ranking _ _ _ H) as (annotated & A & F & N & B).
  exists annotated, (Builtins.sort distance_km annotated).
  repeat split; try assumption.
  - eapply Forall2_impl; [|exact F]. intros a e [a' d Hd].
    split; [reflexivity|]. exists d. split; [exact Hd|].
    apply round_two_places.
  - apply sort_perm.
  - apply (sort_sorted _ distance_km annotated N).
  - rewrite (Permutation_length (sort_perm _ distance_km annotated)).
    eapply annotates_length; eassumption.
Qed.

(** C4: the answer of the nearby query depends on the query and on the rows
    of the store only, so two runs over an unchanged store give the same
    ordered answer; and the records reported at one rounded distance are
    listed in the order of the store. *)
Theorem nearby_deterministic_stable (db : Session) (location : LocationQuery) :
  (forall db', rows db' = rows db ->
     get_nearby_addresses L location db' = get_nearby_addresses L location db)
  /\ (forall out, get_nearby_addresses L location db = Response out ->
      forall k,
        map address (filter (fun e => distance_km e =? k) out)
        = filter (reported_at L location k) (rows db)).
Proof.
  split.
  - intros db' E. unfold get_nearby_addresses, nearby_body,
      get_addresses_within_radius, query_all. now rewrite E.
  - intros out H k. unfold get_nearby_addresses in H.
    destruct (nearby_body L location db) as [out'|e] eqn:B; [|discriminate].
    inversion H; subst out'. clear H.
    unfold nearby_body in B. apply bind_Ok in B.
    destruct B as (filtered & Hf & B).
    destruct (ranking _ _ _ Hf) as (annotated & A & F & _ & B').
    unfold nearby_body in B'. rewrite Hf in B'. cbn [bind] in B'.
    rewrite B' in B. inversion B; subst out. clear B B'.
    rewrite sort_stable, (annotates_filter L location k filtered annotated F).
    destruct (filtered_within _ _ _ Hf) as [-> _].
    rewrite filter_filter. apply filter_ext. intros a.
    unfold within_radius, rounds_to, reported_at.
    destruct (distance_to L (q_latitude location) (q_longitude location) a);
      reflexivity.
Qed.

(** C7: over a store without records, the nearby endpoint answers a valid
    query with the empty sequence. *)
Theorem nearby_of_empty_store (lat lon radius_km : float) (now : Z) :
  valid_coordinate lat lon = true -> (0 <? radius_km) = true ->
  post_addresses_nearby L lat lon radius_km {| rows := []; utcnow := now |}
  = Response [].
Proof.
  intros V R. unfold post_addresses_nearby, LocationQuery_validate,
    Field_ge, Field_le, Field_gt.
  unfold valid_coordinate in V. rewrite V, R. reflexivity.
Qed.

(** X22: [POST /addresses/nearby] runs the handler on a query that
    [LocationQuery] accepts, and on no other.  A query that it refuses is
    answered 422 when the refused values are finite numbers, so for a radius
    that is zero or negative, a latitude outside [-90, 90] and a longitude
    outside [-180, 180]; it is answered 500 when a refused value is NaN or
    an infinity. *)
Theorem refused_query_status (lat lon radius_km : float) (db : Session) :
  (valid_coordinate lat lon && (0 <? radius_km) = true ->
   post_addresses_nearby L lat lon radius_km db
   = get_nearby_addresses L
       {| q_latitude := lat; q_longitude := lon; q_radius_km := radius_km |}
       db)
  /\ (valid_coordinate lat lon && (0 <? radius_km) = false ->
      LocationQuery_validate lat lon radius_km = None
      /\ post_addresses_nearby L lat lon radius_km db
         = HTTPException
             (if negb (is_finite lat) || negb (is_finite lon)
                 || negb (is_finite radius_km) && negb (0 <? radius_km)
              then 500%Z else 422%Z))
  /\ ((radius_km <=? 0) = true \/ (lat <? -90) = true \/ (90 <? lat) = true
      \/ (lon <? -180) = true \/ (180 <? lon) = true ->
      is_finite lat = true -> is_finite lon = true ->
      is_finite radius_km = true ->
      post_addresses_nearby L lat lon radius_km db = HTTPException 422%Z).
Proof.
  assert (V : valid_coordinate lat lon && (0 <? radius_km) = false ->
              LocationQuery_validate lat lon radius_km = None
              /\ post_addresses_nearby L lat lon radius_km db
                 = HTTPException
                     (if negb (is_finite lat) || negb (is_finite lon)
                         || negb (is_finite radius_km) && negb (0 <? radius_km)
                      then 500%Z else 422%Z)).
  { intros H.
    assert (E : LocationQuery_validate lat lon radius_km = None).
    { unfold LocationQuery_validate, Field_ge, Field_le, Field_gt.
      unfold valid_coordinate in H. now rewrite H. }
    split; [exact E|].
    unfold post_addresses_nearby. rewrite E.
    unfold validation_error, LocationQuery_refused, refused, Field_ge,
      Field_le, Field_gt.
    pose proof (in_range_finite (-90) 90 lat eq_refl eq_refl) as Flat.
    pose proof (in_range_finite (-180) 180 lon eq_refl eq_refl) as Flon.
    destruct ((-90 <=? lat) && (lat <=? 90)) eqn:A;
      destruct ((-180 <=? lon) && (lon <=? 180)) eqn:B;
      destruct (0 <? radius_km) eqn:R;
      destruct (is_finite lat) eqn:F1; destruct (is_finite lon) eqn:F2;
      destruct (is_finite radius_km) eqn:F3;
      cbn [app forallb negb orb andb]; rewrite ?F1, ?F2, ?F3;
      try reflexivity;
      try (specialize (Flat eq_refl); discriminate Flat);
      try (specialize (Flon eq_refl); discriminate Flon). }
  split; [|split; [exact V|]].
  - intros H. unfold post_addresses_nearby, LocationQuery_validate, Field_ge,
      Field_le, Field_gt. unfold valid_coordinate in H. now rewrite H.
  - intros H F1 F2 F3.
    assert (E : valid_coordinate lat lon && (0 <? radius_km) = false).
    { unfold valid_coordinate. destruct H as [H|[H|[H|[H|H]]]].
      - rewrite (leb_ltb_false _ _ H). now rewrite andb_false_r.
      - now rewrite (ltb_leb_false _ _ H).
      - rewrite (ltb_leb_false _ _ H). now rewrite andb_false_r.
      - rewrite (ltb_leb_false _ _ H). now rewrite andb_false_r.
      - rewrite (ltb_leb_false _ _ H). now rewrite !andb_false_r. }
    destruct (V E) as [_ ->]. now rewrite F1, F2, F3.
Qed.

End WithLibm.

End ProximityProofs.

Module ProximityExamples.
Import ProximityProofs.
Open Scope float_scope.

(** C2: the radius filter at the reference point (8, -180) and the radius
    of 1 km, over a store of two valid addresses.  The address at (8, -180)
    is at distance 0, within the radius; on the address at the antipode,
    (-8, 0), the distance calculator raises [ValueError], the filter has no
    handler, and no list is returned. *)
Lemma antipode_aborts_filter :
  In Sample.here (rows Sample.antipodal_db)
  /\ distance_to Fdlibm.lib 8 (-180) Sample.here = Ok 0
  /\ (0 <=? 1) = true
  /\ get_addresses_within_radius Fdlibm.lib Sample.antipodal_db 8 (-180) 1
     = Raise ValueError.
Proof.
  split; [left; reflexivity|].
  split; [vm_compute; reflexivity|].
  split; [reflexivity|].
  vm_compute. reflexivity.
Qed.

Lemma radius_filter_exact_witness :
  exists out,
    get_addresses_within_radius Fdlibm.lib Sample.equator_db 0 0 5 = Ok out
    /\ out = filter (within_radius Fdlibm.lib 0 0 5) (rows Sample.equator_db)
    /\ (forall a, In a out <->
          In a (rows Sample.equator_db) /\
          exists d, distance_to Fdlibm.lib 0 0 a = Ok d /\ (d <=? 5) = true)
    /\ (forall a d, In a (rows Sample.equator_db) ->
          distance_to Fdlibm.lib 0 0 a = Ok d -> (d =? 5) = true -> In a out).
Proof.
  apply (radius_filter_exact Fdlibm.lib Sample.equator_db 0 0 5).
  repeat (apply Forall_cons; [vm_compute; reflexivity|]). apply Forall_nil.
Defined.

(** The ranking of [Sample.equator_db]: the distances 2.2238985..., 1.1119492...
    and 1.1119492... km are reported as 2.22, 1.11 and 1.11, and listed in
    the order 1.11, 1.11, 2.22. *)
Lemma ranking_sorted_witness :
  (exists annotated ranked,
     annotate Fdlibm.lib Sample.equator_query
       [Sample.east2; Sample.east1; Sample.north1] = Ok annotated
     /\ Forall2 (annotates Fdlibm.lib Sample.equator_query)
          [Sample.east2; Sample.east1; Sample.north1] annotated
     /\ Forall2 (fun a e =>
                   address e = a
                   /\ exists d,
                        distance_to Fdlibm.lib (q_latitude Sample.equator_query)
                          (q_longitude Sample.equator_query) a = Ok d
                        /\ two_places d (distance_km e))
          [Sample.east2; Sample.east1; Sample.north1] annotated
     /\ ranked = Builtins.sort distance_km annotated
     /\ nearby_body Fdlibm.lib Sample.equator_query Sample.equator_db
        = Ok ranked
     /\ Permutation ranked annotated
     /\ StronglySorted distance_le ranked
     /\ List.length ranked = 3%nat)
  /\ map (distance_to Fdlibm.lib 0 0)
       [Sample.east2; Sample.east1; Sample.north1]
     = [Ok 0x1.1ca8b50631eacp+1; Ok 0x1.1ca8b50631eacp+0;
        Ok 0x1.1ca8b50631eacp+0]
  /\ annotate Fdlibm.lib Sample.equator_query
       [Sample.east2; Sample.east1; Sample.north1]
     = Ok [ {| address := Sample.east2; distance_km := 222 / 100 |};
            {| address := Sample.east1; distance_km := 111 / 100 |};
            {| address := Sample.north1; distance_km := 111 / 100 |} ]
  /\ nearby_body Fdlibm.lib Sample.equator_query Sample.equator_db
     = Ok [ {| address := Sample.east1; distance_km := 111 / 100 |};
            {| address := Sample.north1; distance_km := 111 / 100 |};
            {| address := Sample.east2; distance_km := 222 / 100 |} ].
Proof.
  split.
  - apply (ranking_sorted Fdlibm.lib Sample.equator_db Sample.equator_query
             [Sample.east2; Sample.east1; Sample.north1]).
    vm_compute. reflexivity.
  - vm_compute. repeat split.
Defined.

Lemma nearby_deterministic_stable_witness :
  get_nearby_addresses Fdlibm.lib Sample.equator_query Sample.equator_db
  = Response Sample.equator_answer
  /\ map address
       (filter (fun e => distance_km e =? 0x1.1c28f5c28f5c3p+0)
          Sample.equator_answer)
     = filter (reported_at Fdlibm.lib Sample.equator_query 0x1.1c28f5c28f5c3p+0)
         (rows Sample.equator_db).
Proof.
  assert (H : get_nearby_addresses Fdlibm.lib Sample.equator_query
                Sample.equator_db = Response Sample.equator_answer)
    by (vm_compute; reflexivity).
  split; [exact H|].
  exact (proj2 (nearby_deterministic_stable Fdlibm.lib Sample.equator_db
                  Sample.equator_query) Sample.equator_answer H
           0x1.1c28f5c28f5c3p+0).
Defined.

Lemma nearby_of_empty_store_witness :
  post_addresses_nearby Fdlibm.lib 0 0 5 {| rows := []; utcnow := 0 |}
  = Response [].
Proof.
  apply (nearby_of_empty_store Fdlibm.lib 0 0 5 0); reflexivity.
Defined.

Lemma refused_query_status_witness :
  post_addresses_nearby Fdlibm.lib 0 0 0 Sample.equator_db
  = HTTPException 422%Z
  /\ post_addresses_nearby Fdlibm.lib 91 0 infinity Sample.equator_db
     = HTTPException 422%Z
  /\ post_addresses_nearby Fdlibm.lib 0 0 5 Sample.equator_db
     = get_nearby_addresses Fdlibm.lib Sample.equator_query Sample.equator_db.
Proof.
  split; [|split].
  - apply (proj2 (proj2 (refused_query_status Fdlibm.lib 0 0 0
                           Sample.equator_db))); try reflexivity.
    left. reflexivity.
  - exact (proj2 (proj1 (proj2 (refused_query_status Fdlibm.lib 91 0 infinity
                                  Sample.equator_db)) eq_refl)).
  - exact (proj1 (refused_query_status Fdlibm.lib 0 0 5 Sample.equator_db)
             eq_refl).
Defined.

(** C8: two bodies that [LocationQuery] refuses and that are answered 500,
    not 422: the one with the latitude [1e999], which Python reads as an
    infinity and which is above 90, and the one with the radius [-1e999],
    which is negative. *)
Lemma refused_infinity_answers_500 :
  (90 <? infinity) = true
  /\ LocationQuery_validate infinity 0 5 = None
  /\ post_addresses_nearby Fdlibm.lib infinity 0 5 Sample.equator_db
     = HTTPException 500%Z
  /\ (neg_infinity <=? 0) = true
  /\ LocationQuery_validate 0 0 neg_infinity = None
  /\ post_addresses_nearby Fdlibm.lib 0 0 neg_infinity Sample.equator_db
     = HTTPException 500%Z.
Proof. vm_compute. repeat split. Qed.

(** C10: the [address_id] [2 ^ 63], which no row of [Sample.equator_db]
    carries: [update_address] and [delete_address] raise [OverflowError]
    where they are to return [None] and [False]; the store is left as it
    was. *)
Lemma absent_id_raises :
  ~ In (2 ^ 63)%Z (map id (rows Sample.equator_db))
  /\ update_address Sample.equator_db (2 ^ 63) Sample.move_north
     = (Sample.equator_db, Raise OverflowError)
  /\ delete_address Sample.equator_db (2 ^ 63)
     = (Sample.equator_db, Raise OverflowError).
Proof.
  split; [|split; vm_compute; reflexivity].
  cbn. intros [H|[H|[H|[H|[]]]]]; discriminate H.
Qed.

End ProximityExamples.

(** * The distance calculator *)

Module DistanceProofs.
Import SpecFloatFacts FloatFacts FloatArith.
Open Scope float_scope.

(** ** The wrappers of CPython *)

Lemma math_1_ok f x :
  is_nan (f x) = false -> is_infinity (f x) = false ->
  Math.math_1 f x = Ok (f x).
Proof. unfold Math.math_1. now intros -> ->. Qed.

Lemma math_1_cases f x :
  Math.math_1 f x = Ok (f x) \/ Math.math_1 f x = Raise ValueError.
Proof.
  unfold Math.math_1.
  destruct (is_nan (f x) && negb (is_nan x)); auto.
  destruct (is_infinity (f x) && is_finite x); auto.
Qed.

Lemma math_1_opp f h :
  f (- h) = - f h ->
  Math.math_1 f (- h) = match Math.math_1 f h with
                        | Ok r => Ok (- r)
                        | Raise e => Raise e
                        end.
Proof.
  intros E. unfold Math.math_1.
  rewrite E, !is_nan_opp, is_infinity_opp, is_finite_opp.
  destruct (is_nan (f h) && negb (is_nan h)); [reflexivity|].
  destruct (is_infinity (f h) && is_finite h); reflexivity.
Qed.

Section WithLibm.
Variable L : libm.

(** [(-s) ** 2 = s ** 2]: [float_pow] takes the absolute value of its base
    before it calls the C library. *)
Lemma pow2_opp s : Math.pow2 L (- s) = Math.pow2 L s.
Proof.
  unfold Math.pow2. rewrite is_nan_opp, is_infinity_opp, abs_opp, eqb_zero_opp.
  destruct (is_nan s) eqn:N.
  - f_equal. apply Prim2SF_inj. rewrite opp_spec.
    apply is_nan_spec in N. now rewrite N.
  - destruct (is_infinity s); [reflexivity|].
    destruct (s =? 0) eqn:Z; [reflexivity|].
    now rewrite (pow_base_opp s N Z).
Qed.

Lemma sin_pow_opp h :
  sin_odd_at L h ->
  bind (Math.sin L (- h)) (Math.pow2 L) = bind (Math.sin L h) (Math.pow2 L).
Proof.
  intros O. unfold Math.sin. rewrite (math_1_opp (c_sin L) h O).
  destruct (Math.math_1 (c_sin L) h); [|reflexivity].
  cbn [bind]. apply pow2_opp.
Qed.

Lemma half_difference_swap deg1 deg2 :
  half_difference deg2 deg1 = - half_difference deg1 deg2
  \/ half_difference deg2 deg1 = half_difference deg1 deg2.
Proof.
  unfold half_difference.
  destruct (sub_swap (Math.radians deg2) (Math.radians deg1)) as [E|E];
    rewrite E; [left|right; reflexivity].
  apply div_opp_l.
Qed.

Lemma sin_pow_swap deg1 deg2 :
  sin_odd_at L (half_difference deg1 deg2) ->
  bind (Math.sin L (half_difference deg2 deg1)) (Math.pow2 L)
  = bind (Math.sin L (half_difference deg1 deg2)) (Math.pow2 L).
Proof.
  intros O. destruct (half_difference_swap deg1 deg2) as [E|E]; rewrite E;
    [now apply sin_pow_opp | reflexivity].
Qed.

(** [haversine_a], call by call. *)
Lemma haversine_a_unfold lat1 lon1 lat2 lon2 :
  haversine_a L lat1 lon1 lat2 lon2 =
  match bind (Math.sin L (half_difference lat1 lat2)) (Math.pow2 L) with
  | Raise e => Raise e
  | Ok p1 =>
    match Math.cos L (Math.radians lat1) with
    | Raise e => Raise e
    | Ok c1 =>
      match Math.cos L (Math.radians lat2) with
      | Raise e => Raise e
      | Ok c2 =>
        match bind (Math.sin L (half_difference lon1 lon2)) (Math.pow2 L) with
        | Raise e => Raise e
        | Ok p2 => Ok (p1 + c1 * c2 * p2)
        end
      end
    end
  end.
Proof.
  unfold haversine_a, half_difference.
  destruct (Math.sin L ((Math.radians lat2 - Math.radians lat1) / 2));
    cbn [bind]; [|reflexivity].
  destruct (Math.pow2 L a); cbn [bind]; [|reflexivity].
  destruct (Math.cos L (Math.radians lat1)); cbn [bind]; [|reflexivity].
  destruct (Math.cos L (Math.radians lat2)); cbn [bind]; [|reflexivity].
  destruct (Math.sin L ((Math.radians lon2 - Math.radians lon1) / 2));
    cbn [bind]; reflexivity.
Qed.

Lemma haversine_a_symmetric lat1 lon1 lat2 lon2 :
  sin_odd_at L (half_difference lat1 lat2) ->
  sin_odd_at L (half_difference lon1 lon2) ->
  haversine_a L lat1 lon1 lat2 lon2 = haversine_a L lat2 lon2 lat1 lon1.
Proof.
  intros O1 O2. rewrite !haversine_a_unfold.
  rewrite (sin_pow_swap lat1 lat2 O1), (sin_pow_swap lon1 lon2 O2).
  destruct (bind (Math.sin L (half_difference lat1 lat2)) (Math.pow2 L));
    [|reflexivity].
  unfold Math.cos.
  destruct (math_1_cases (c_cos L) (Math.radians lat1)) as [-> | ->],
           (math_1_cases (c_cos L) (Math.radians lat2)) as [-> | ->];
    try reflexivity.
  now rewrite (mul_comm (c_cos L (Math.radians lat1))).
Qed.

(** C5: the distance calculator is symmetric.  Where the C library's sine is
    odd at the two half-differences, [calculate_distance] has the same
    outcome on [(a, b)] and on [(b, a)], and a distance that it returns
    compares equal ([==]) to the distance of the swapped call. *)
Theorem calculate_distance_symmetric (lat1 lon1 lat2 lon2 : float) :
  sin_odd_at L (half_difference lat1 lat2) ->
  sin_odd_at L (half_difference lon1 lon2) ->
  calculate_distance L lat1 lon1 lat2 lon2
  = calculate_distance L lat2 lon2 lat1 lon1
  /\ (forall d, calculate_distance L lat1 lon1 lat2 lon2 = Ok d ->
        is_nan d = false ->
        exists d', calculate_distance L lat2 lon2 lat1 lon1 = Ok d'
                   /\ (d =? d') = true).
Proof.
  intros O1 O2.
  assert (E : calculate_distance L lat1 lon1 lat2 lon2
              = calculate_distance L lat2 lon2 lat1 lon1).
  { unfold calculate_distance.
    now rewrite (haversine_a_symmetric lat1 lon1 lat2 lon2 O1 O2). }
  split; [exact E|]. intros d Hd N. exists d. rewrite <- E. split; [exact Hd|].
  unfold is_nan in N. now destruct (d =? d).
Qed.

(** ** Identity *)

Lemma Prim2SF_90 : Prim2SF 90 = S754_finite false 6333186975989760 (-46).
Proof. reflexivity. Qed.

Lemma Prim2SF_180 : Prim2SF 180 = S754_finite false 6333186975989760 (-45).
Proof. reflexivity. Qed.

Lemma Prim2SF_two : Prim2SF 2 = S754_finite false 4503599627370496 (-51).
Proof. reflexivity. Qed.

Lemma mag_degToRad : mag_le (-5) (Prim2SF Math.degToRad).
Proof. apply Z.leb_le. vm_compute. reflexivity. Qed.

Lemma mag_two : mag_le 2 (Prim2SF 2).
Proof. apply Z.leb_le. vm_compute. reflexivity. Qed.

Lemma mag_earth_radius : mag_le 13 (Prim2SF EARTH_RADIUS_KM).
Proof. apply Z.leb_le. vm_compute. reflexivity. Qed.

Lemma valid_latitude_mag lat lon :
  valid_coordinate lat lon = true ->
  mag_le 7 (Prim2SF lat) /\ mag_le 8 (Prim2SF lon).
Proof.
  unfold valid_coordinate. rewrite !andb_true_iff.
  intros [[[H1 H2] H3] H4]. split.
  - apply (leb_abs_mag lat 90 _ _ Prim2SF_90); assumption.
  - apply (leb_abs_mag lon 180 _ _ Prim2SF_180); assumption.
Qed.

Lemma radians_mag x K :
  mag_le K (Prim2SF x) -> (K <= 1000)%Z ->
  mag_le (Z.max (K + -5) (-1074) + 1) (Prim2SF (Math.radians x)).
Proof.
  intros H HK. unfold Math.radians.
  apply mul_mag; [assumption | apply mag_degToRad | lia].
Qed.

Lemma half_difference_diag x K :
  mag_le K (Prim2SF x) -> (K <= 1000)%Z -> half_difference x x = 0.
Proof.
  intros H HK. unfold half_difference.
  rewrite (sub_diag _ _ (radians_mag x K H HK)). reflexivity.
Qed.

Lemma sin_pow_zero :
  c_sin L 0 = 0 -> bind (Math.sin L 0) (Math.pow2 L) = Ok 0.
Proof.
  intros E. unfold Math.sin, Math.math_1. rewrite E. reflexivity.
Qed.

Lemma central_distance_zero : central_distance L 0 = Ok 0.
Proof. vm_compute. reflexivity. Qed.

(** C6: for a valid coordinate, the distance of a point to itself is 0,
    exactly, where the C library's sine is exact at 0 and its cosine of the
    latitude is of magnitude 1 at most. *)
Theorem calculate_distance_identity (lat lon : float) :
  valid_coordinate lat lon = true ->
  c_sin L 0 = 0 ->
  (abs (c_cos L (Math.radians lat)) <=? 1) = true ->
  exists d, calculate_distance L lat lon lat lon = Ok d
            /\ d = 0 /\ (abs (d - 0) <=? 0x1.12e0be826d695p-30) = true.
Proof.
  intros V S C. exists 0. split; [|split; reflexivity].
  destruct (valid_latitude_mag lat lon V) as [Mlat Mlon].
  unfold calculate_distance. rewrite haversine_a_unfold.
  rewrite (half_difference_diag lat 7 Mlat ltac:(lia)).
  rewrite (half_difference_diag lon 8 Mlon ltac:(lia)).
  rewrite (sin_pow_zero S).
  set (c := c_cos L (Math.radians lat)) in *.
  assert (Mc : mag_le 1 (Prim2SF c)).
  { apply (abs_leb_mag c 1 _ _ Prim2SF_one C). }
  destruct (mag_le_classify _ _ Mc) as (Nc & Ic & _).
  unfold Math.cos. fold c. rewrite (math_1_ok (c_cos L) _ Nc Ic). fold c.
  assert (Mcc : mag_le 3 (Prim2SF (c * c))).
  { apply (mul_mag c c 1 1 Mc Mc). lia. }
  assert (Scc : sign_is false (Prim2SF (c * c))).
  { assert (Sc : exists s, sign_is s (Prim2SF c)).
    { apply is_nan_false in Nc. destruct (Prim2SF c) as [s|s| |s m e]; cbn;
        try congruence; eauto. }
    destruct Sc as [s Sc].
    replace false with (xorb s s) by (now destruct s).
    eapply mul_sign; eassumption. }
  assert (Z : c * c * 0 = 0).
  { apply Prim2SF_inj. rewrite (mul_zero_r (c * c) false 3 Scc Mcc). reflexivity. }
  rewrite Z. change (0 + 0) with 0. cbn [bind].
  apply central_distance_zero.
Qed.

End WithLibm.
End DistanceProofs.

Module RangeProofs.
Import SpecFloatFacts FloatFacts FloatArith DistanceProofs.
Open Scope float_scope.

Section WithLibm.
Variable L : libm.

(** [math.atan2] on two square roots. *)
Lemma atan2_of_roots sa sb K K' :
  nonneg (Prim2SF sa) -> mag_le K (Prim2SF sa) ->
  sign_is false (Prim2SF sb) -> mag_le K' (Prim2SF sb) ->
  atan2_in_range L sa sb = true ->
  exists t, Math.atan2 L sa sb = Ok t
            /\ nonneg (Prim2SF t) /\ mag_le 2 (Prim2SF t).
Proof.
  intros Na Ma Sb Mb R.
  destruct (mag_le_classify _ _ Ma) as (Nna & Ia & _).
  destruct (mag_le_classify _ _ Mb) as (Nnb & Ib & _).
  assert (Sg : signbit sb = false).
  { unfold signbit. destruct (Prim2SF sb); cbn in Sb; auto; contradiction. }
  set (t := Math.m_atan2 (c_atan2 L) sa sb).
  assert (T : nonneg (Prim2SF t) /\ mag_le 2 (Prim2SF t)).
  { unfold t, Math.m_atan2. rewrite Nna, Nnb, Ia, Ib, Sg. cbn [orb].
    destruct (sa =? 0) eqn:Z.
    - unfold copysign. destruct (signbit sa).
      + split; [right; reflexivity | exact I].
      + split; [left; reflexivity | exact I].
    - unfold atan2_in_range in R. apply andb_true_iff in R.
      destruct R as [R0 R2]. apply leb_zero_nonneg in R0. split; [exact R0|].
      apply (leb_nonneg_mag _ 2 _ _ Prim2SF_two R0 R2). }
  destruct T as [Nt Mt]. exists t. split; [|split; assumption].
  destruct (mag_le_classify _ _ Mt) as (Nnt & It & _).
  unfold Math.atan2, Math.math_2. fold t. now rewrite Nnt, It.
Qed.

(** [EARTH_RADIUS_KM * (2 * t)] for an angle [t] of [[0, 2]]. *)
Lemma scale_angle t :
  nonneg (Prim2SF t) -> mag_le 2 (Prim2SF t) ->
  is_finite (EARTH_RADIUS_KM * (2 * t)) = true
  /\ (0 <=? EARTH_RADIUS_KM * (2 * t)) = true.
Proof.
  intros Nt Mt.
  assert (N2 : nonneg (Prim2SF 2)) by (left; reflexivity).
  assert (NR : nonneg (Prim2SF EARTH_RADIUS_KM)) by (left; reflexivity).
  destruct (mul_nonneg 2 t 2 2 N2 Nt mag_two Mt ltac:(lia)) as [N M].
  change (Z.max (2 + 2) (-1074) + 1)%Z with 5%Z in M.
  destruct (mul_nonneg EARTH_RADIUS_KM (2 * t) 13 5 NR N mag_earth_radius M
              ltac:(lia)) as [N' M'].
  eapply nonneg_mag_spec; eassumption.
Qed.

Lemma central_distance_in_range a :
  (0 <=? a) = true -> (a <=? 1) = true ->
  atan2_in_range L (sqrt a) (sqrt (1 - a)) = true ->
  exists d, central_distance L a = Ok d
            /\ is_finite d = true /\ (0 <=? d) = true.
Proof.
  intros H0 H1 R. apply leb_zero_nonneg in H0.
  assert (Ia : is_infinity a = false).
  { apply (mag_le_classify (53 + -52)).
    apply (leb_nonneg_mag a 1 _ _ Prim2SF_one H0 H1). }
  destruct (sqrt_nonneg a H0) as (Nsa & Msa & _). specialize (Msa Ia).
  destruct (one_minus a H0 H1) as [Mb Sb].
  assert (Nb : nonneg (Prim2SF (1 - a))) by (left; exact Sb).
  destruct (sqrt_nonneg (1 - a) Nb) as (_ & Msb & Ssb).
  specialize (Ssb Sb).
  assert (Ib : is_infinity (1 - a) = false) by (apply (mag_le_classify 2), Mb).
  specialize (Msb Ib).
  destruct (atan2_of_roots _ _ _ _ Nsa Msa Ssb Msb R) as (t & Et & Nt & Mt).
  exists (EARTH_RADIUS_KM * (2 * t)). split; [|apply scale_angle; assumption].
  unfold central_distance.
  rewrite (math_sqrt_nonneg a H0), (math_sqrt_nonneg (1 - a) Nb).
  cbn [bind]. rewrite Et. reflexivity.
Qed.

(** [calculate_distance] takes the square roots of [a] and of [1 - a] as
    they were computed.  Where the computed [a] lies in [[0, 1]] (and the C
    library's [atan2] answers the two square roots by an angle of
    [[0, 2]]), it returns a finite and non-negative distance. *)
Lemma distance_finite_when_a_in_range (lat1 lon1 lat2 lon2 a : float) :
  haversine_a L lat1 lon1 lat2 lon2 = Ok a ->
  (0 <=? a) = true -> (a <=? 1) = true ->
  atan2_in_range L (sqrt a) (sqrt (1 - a)) = true ->
  exists d, calculate_distance L lat1 lon1 lat2 lon2 = Ok d
            /\ is_finite d = true /\ (0 <=? d) = true.
Proof.
  intros Ha H0 H1 R. unfold calculate_distance. rewrite Ha. cbn [bind].
  now apply central_distance_in_range.
Qed.

(** Above 1, the square root of [1 - a] is that of a negative number. *)
Lemma central_distance_overshoot a :
  (1 <? a) = true -> central_distance L a = Raise ValueError.
Proof.
  intros H.
  assert (Na : nonneg (Prim2SF a)).
  { rewrite ltb_spec, Prim2SF_one in H. unfold SFltb in H. left.
    destruct (Prim2SF a) as [s|s| |s m e]; try destruct s; cbn in *;
      try discriminate; reflexivity. }
  unfold central_distance. rewrite (math_sqrt_nonneg a Na). cbn [bind].
  now rewrite (math_sqrt_negative (1 - a) (one_minus_neg a H)).
Qed.

(** [haversine_a] returns where the C library returned finite numbers. *)
Lemma haversine_a_returns lat1 lon1 lat2 lon2 :
  returns (bind (Math.sin L (half_difference lat1 lat2)) (Math.pow2 L)) = true ->
  returns (Math.cos L (Math.radians lat1)) = true ->
  returns (Math.cos L (Math.radians lat2)) = true ->
  returns (bind (Math.sin L (half_difference lon1 lon2)) (Math.pow2 L)) = true ->
  returns (haversine_a L lat1 lon1 lat2 lon2) = true.
Proof.
  rewrite haversine_a_unfold.
  destruct (bind (Math.sin L (half_difference lat1 lat2)) (Math.pow2 L));
    [|discriminate].
  destruct (Math.cos L (Math.radians lat1)); [|discriminate].
  destruct (Math.cos L (Math.radians lat2)); [|discriminate].
  destruct (bind (Math.sin L (half_difference lon1 lon2)) (Math.pow2 L));
    [|discriminate].
  reflexivity.
Qed.

End WithLibm.

(** ** On the concrete library *)

(** C1: the distance calculator at the valid coordinates (8, -180) and
    (-8, 0), two antipodal points.  The computed [a] is [1 + 2^-52]; it is
    not brought into [[0, 1]], the square root receives the negative
    [1 - a], and [calculate_distance] raises [ValueError] where it is to
    return a distance. *)
Lemma antipodal_distance_raises :
  valid_coordinate 8 (-180) = true /\ valid_coordinate (-8) 0 = true
  /\ haversine_a Fdlibm.lib 8 (-180) (-8) 0 = Ok 0x1.0000000000001p+0
  /\ (1 - 0x1.0000000000001p+0 <? 0) = true
  /\ calculate_distance Fdlibm.lib 8 (-180) (-8) 0 = Raise ValueError.
Proof. repeat split; vm_compute; reflexivity. Qed.

(** The values of the C library in that computation. *)
Lemma antipodal_distance_trace :
  half_difference 8 (-8) = -0x1.1df46a2529d39p-3
  /\ c_sin Fdlibm.lib (-0x1.1df46a2529d39p-3) = -0x1.1d06c968d9e19p-3
  /\ Math.pow2 Fdlibm.lib (-0x1.1d06c968d9e19p-3) = Ok 0x1.3d581ca184804p-6
  /\ Math.radians 8 = 0x1.1df46a2529d39p-3
  /\ c_cos Fdlibm.lib 0x1.1df46a2529d39p-3 = 0x1.fb046a930947ap-1
  /\ c_cos Fdlibm.lib (-0x1.1df46a2529d39p-3) = 0x1.fb046a930947ap-1
  /\ half_difference (-180) 0 = 0x1.921fb54442d18p+0
  /\ c_sin Fdlibm.lib 0x1.921fb54442d18p+0 = 1
  /\ 0x1.3d581ca184804p-6 + 0x1.fb046a930947ap-1 * 0x1.fb046a930947ap-1 * 1
     = 0x1.0000000000001p+0.
Proof. repeat split; vm_compute; reflexivity. Qed.

(** The fixtures of the specification. *)
Lemma distance_fixtures :
  calculate_distance Fdlibm.lib 0 0 0 90 = Ok 0x1.38bc58e10e572p+13
  /\ calculate_distance Fdlibm.lib (fst Sample.new_york) (snd Sample.new_york)
       (fst Sample.london) (snd Sample.london) = Ok 0x1.5c238e0c5745dp+12.
Proof. split; vm_compute; reflexivity. Qed.

Lemma calculate_distance_symmetric_witness :
  calculate_distance Fdlibm.lib (fst Sample.new_york) (snd Sample.new_york)
    (fst Sample.london) (snd Sample.london)
  = calculate_distance Fdlibm.lib (fst Sample.london) (snd Sample.london)
      (fst Sample.new_york) (snd Sample.new_york)
  /\ (forall d,
        calculate_distance Fdlibm.lib (fst Sample.new_york)
          (snd Sample.new_york) (fst Sample.london) (snd Sample.london) = Ok d ->
        is_nan d = false ->
        exists d',
          calculate_distance Fdlibm.lib (fst Sample.london) (snd Sample.london)
            (fst Sample.new_york) (snd Sample.new_york) = Ok d'
          /\ (d =? d') = true).
Proof.
  apply (calculate_distance_symmetric Fdlibm.lib
           (fst Sample.new_york) (snd Sample.new_york)
           (fst Sample.london) (snd Sample.london));
    unfold sin_odd_at; vm_compute; reflexivity.
Defined.

Lemma calculate_distance_identity_witness :
  exists d,
    calculate_distance Fdlibm.lib (fst Sample.london) (snd Sample.london)
      (fst Sample.london) (snd Sample.london) = Ok d
    /\ d = 0 /\ (abs (d - 0) <=? 0x1.12e0be826d695p-30) = true.
Proof.
  apply (calculate_distance_identity Fdlibm.lib
           (fst Sample.london) (snd Sample.london));
    vm_compute; reflexivity.
Defined.


End RangeProofs.

(** * [str.strip] *)

Module StrFacts.
Import Str.

Lemma lstrip_first s : space_at (first_char (lstrip s)) = false.
Proof.
  induction s as [|c s IH]; [reflexivity|]. cbn [lstrip].
  destruct (isspace c) eqn:E; [exact IH | exact E].
Qed.

Lemma rstrip_last s : space_at (last_char (rstrip s)) = false.
Proof.
  induction s as [|c s IH]; [reflexivity|]. cbn [rstrip].
  destruct (rstrip s) as [|d r] eqn:R.
  - destruct (isspace c) eqn:E; [reflexivity | exact E].
  - cbn [last_char] in *. destruct (last_char r); exact IH.
Qed.

Lemma rstrip_first s :
  space_at (first_char s) = false -> space_at (first_char (rstrip s)) = false.
Proof.
  destruct s as [|c s]; [reflexivity|]. cbn [first_char space_at rstrip].
  intros E. rewrite E. now destruct (rstrip s).
Qed.

Lemma strip_stripped s : stripped (strip s) = true.
Proof.
  unfold stripped, strip.
  now rewrite (rstrip_first _ (lstrip_first s)), rstrip_last.
Qed.

Lemma lstrip_fix s : space_at (first_char s) = false -> lstrip s = s.
Proof.
  destruct s as [|c s]; [reflexivity|]. cbn [first_char space_at lstrip].
  now intros ->.
Qed.

Lemma last_char_None s : last_char s = None -> s = EmptyString.
Proof.
  destruct s as [|c s]; [reflexivity|]. cbn [last_char].
  destruct (last_char s); discriminate.
Qed.

Lemma rstrip_fix s : space_at (last_char s) = false -> rstrip s = s.
Proof.
  induction s as [|c s IH]; [reflexivity|]. cbn [last_char rstrip].
  destruct (last_char s) as [d|] eqn:L.
  - intros E. rewrite (IH E). destruct s; [discriminate L | reflexivity].
  - cbn [space_at]. intros E. rewrite (last_char_None _ L). cbn [rstrip].
    now rewrite E.
Qed.

Lemma strip_fix s : stripped s = true -> strip s = s.
Proof.
  unfold stripped, strip. rewrite andb_true_iff, !negb_true_iff.
  intros [F L]. rewrite (lstrip_fix _ F). now apply rstrip_fix.
Qed.

Lemma strip_idem s : strip (strip s) = strip s.
Proof. apply strip_fix, strip_stripped. Qed.

Lemma lstrip_length s : (String.length (lstrip s) <= String.length s)%nat.
Proof.
  induction s as [|c s IH]; [reflexivity|]. cbn [lstrip].
  destruct (isspace c); cbn [String.length]; lia.
Qed.

Lemma rstrip_length s : (String.length (rstrip s) <= String.length s)%nat.
Proof.
  induction s as [|c s IH]; [reflexivity|]. cbn [rstrip].
  destruct (rstrip s); [destruct (isspace c)|]; cbn [String.length] in *; lia.
Qed.

Lemma strip_length s : (String.length (strip s) <= String.length s)%nat.
Proof.
  unfold strip. etransitivity; [apply rstrip_length | apply lstrip_length].
Qed.

Lemma eqb_empty s : (s =? EmptyString)%string = false <-> s <> EmptyString.
Proof. apply String.eqb_neq. Qed.

Lemma nonempty_length s : s <> EmptyString -> (1 <= String.length s)%nat.
Proof. destruct s; [congruence | cbn; lia]. Qed.

End StrFacts.

(** * The request models *)

Module ModelProofs.
Import StrFacts FloatFacts.
Open Scope float_scope.

Lemma and_then_Some {A B} (o : option A) (k : A -> option B) b :
  and_then o k = Some b -> exists a, o = Some a /\ k a = Some b.
Proof. destruct o; cbn; [eauto | discriminate]. Qed.

Lemma Field_length_spec lo hi s :
  Field_length lo hi s = true <->
  (lo <= String.length s)%nat /\ (String.length s <= hi)%nat.
Proof.
  unfold Field_length. now rewrite andb_true_iff, !Nat.leb_le.
Qed.

(** What [validate_not_empty] returns is the stripped value, and it is not
    empty. *)
Lemma validate_not_empty_Ok v s :
  AddressBase_validate_not_empty v = Ok s ->
  s = Str.strip v /\ s <> EmptyString.
Proof.
  unfold AddressBase_validate_not_empty.
  destruct (v =? EmptyString)%string; [discriminate|]. cbn [orb].
  destruct (Str.strip v =? EmptyString)%string eqn:E; [discriminate|].
  intros H. inversion H. split; [reflexivity|]. now apply eqb_empty.
Qed.

Lemma validate_not_empty_fix s :
  s <> EmptyString -> stripped s = true ->
  AddressBase_validate_not_empty s = Ok s.
Proof.
  intros N S. unfold AddressBase_validate_not_empty.
  rewrite (strip_fix s S). apply eqb_empty in N. now rewrite N.
Qed.

Lemma nonblank_spec hi s :
  nonblank hi s = true <->
  s <> EmptyString /\ stripped s = true /\ (String.length s <= hi)%nat.
Proof.
  unfold nonblank.
  rewrite !andb_true_iff, negb_true_iff, eqb_empty, Nat.leb_le. tauto.
Qed.

Lemma required_str_Some lo hi v s :
  required_str lo hi v = Some s ->
  exists raw, v = Some raw /\ s = Str.strip raw /\ nonblank hi s = true.
Proof.
  unfold required_str. intros H. apply and_then_Some in H.
  destruct H as (raw & -> & H). exists raw. split; [reflexivity|].
  destruct (Field_length lo hi raw) eqn:F; [|discriminate].
  destruct (AddressBase_validate_not_empty raw) as [s'|] eqn:V; [|discriminate].
  inversion H; subst s'. destruct (validate_not_empty_Ok _ _ V) as [-> N].
  split; [reflexivity|]. apply nonblank_spec.
  repeat split; [exact N | apply strip_stripped |].
  apply Field_length_spec in F. pose proof (strip_length raw). lia.
Qed.

Lemma required_str_fix lo hi s :
  (lo <= 1)%nat -> nonblank hi s = true ->
  required_str lo hi (Some s) = Some s.
Proof.
  intros Hlo B. apply nonblank_spec in B. destruct B as (N & S & L).
  unfold required_str. cbn [and_then].
  assert (F : Field_length lo hi s = true).
  { apply Field_length_spec. pose proof (nonempty_length s N). lia. }
  now rewrite F, (validate_not_empty_fix s N S).
Qed.

Lemma optional_str_Some hi v w :
  optional_str hi v = Some w ->
  fits hi w = true /\ optional_str hi w = Some w.
Proof.
  unfold optional_str, AddressBase_validate_optional_fields.
  destruct v as [raw|].
  - destruct (Field_length 0 hi raw) eqn:F; [|discriminate].
    assert (F0 := F). apply Field_length_spec in F. destruct F as [_ F].
    destruct (raw =? EmptyString)%string eqn:E; intros H; inversion H; subst w;
      cbn [fits].
    + split; [now apply Nat.leb_le|]. now rewrite F0, E.
    + pose proof (strip_length raw) as L.
      split; [apply Nat.leb_le; lia|].
      assert (F' : Field_length 0 hi (Str.strip raw) = true)
        by (apply Field_length_spec; lia).
      rewrite F'.
      destruct (Str.strip raw =? EmptyString)%string; [reflexivity|].
      now rewrite strip_idem.
  - intros H. inversion H; subst w. split; reflexivity.
Qed.

Lemma required_float_Some lo hi v x :
  required_float lo hi v = Some x ->
  v = Some x /\ (lo <=? x) = true /\ (x <=? hi) = true.
Proof.
  unfold required_float, Field_ge, Field_le. destruct v as [y|]; cbn;
    [|discriminate].
  destruct (lo <=? y) eqn:A, (y <=? hi) eqn:B; cbn; try discriminate.
  intros H. inversion H; subst. auto.
Qed.

Lemma required_float_fix lo hi x :
  (lo <=? x) = true -> (x <=? hi) = true ->
  required_float lo hi (Some x) = Some x.
Proof.
  intros A B. unfold required_float, Field_ge, Field_le. cbn.
  now rewrite A, B.
Qed.

(** The fields of a validated body, one by one. *)
Lemma AddressCreate_validate_inv body a :
  AddressCreate_validate body = Some a ->
  required_str 1 255 (b_street body) = Some (c_street a)
  /\ required_str 1 100 (b_city body) = Some (c_city a)
  /\ optional_str 100 (b_state body) = Some (c_state a)
  /\ required_str 1 100 (b_country body) = Some (c_country a)
  /\ optional_str 20 (b_postal_code body) = Some (c_postal_code a)
  /\ required_float (-90) 90 (b_latitude body) = Some (c_latitude a)
  /\ required_float (-180) 180 (b_longitude body) = Some (c_longitude a).
Proof.
  unfold AddressCreate_validate. intros H.
  apply and_then_Some in H. destruct H as (st & Hst & H).
  apply and_then_Some in H. destruct H as (ci & Hci & H).
  apply and_then_Some in H. destruct H as (sa & Hsa & H).
  apply and_then_Some in H. destruct H as (co & Hco & H).
  apply and_then_Some in H. destruct H as (po & Hpo & H).
  apply and_then_Some in H. destruct H as (la & Hla & H).
  apply and_then_Some in H. destruct H as (lo & Hlo & H).
  inversion H; subst a; clear H. cbn [c_street c_city c_state c_country
    c_postal_code c_latitude c_longitude].
  auto 10.
Qed.

(** What a validated body promises of its fields. *)
Lemma AddressCreate_validate_fields body a :
  AddressCreate_validate body = Some a ->
  nonblank 255 (c_street a) = true
  /\ nonblank 100 (c_city a) = true
  /\ nonblank 100 (c_country a) = true
  /\ fits 100 (c_state a) = true
  /\ fits 20 (c_postal_code a) = true
  /\ valid_coordinate (c_latitude a) (c_longitude a) = true.
Proof.
  intros H. apply AddressCreate_validate_inv in H.
  destruct H as (Hst & Hci & Hsa & Hco & Hpo & Hla & Hlo).
  apply required_str_Some in Hst. destruct Hst as (r1 & _ & _ & B1).
  apply required_str_Some in Hci. destruct Hci as (r2 & _ & _ & B2).
  apply required_str_Some in Hco. destruct Hco as (r3 & _ & _ & B3).
  apply optional_str_Some in Hsa. destruct Hsa as [L4 _].
  apply optional_str_Some in Hpo. destruct Hpo as [L5 _].
  apply required_float_Some in Hla. destruct Hla as (_ & A1 & B1').
  apply required_float_Some in Hlo. destruct Hlo as (_ & A2 & B2').
  repeat split; try assumption.
  unfold valid_coordinate. now rewrite A1, B1', A2, B2'.
Qed.

End ModelProofs.

(** * The store *)

Module StoreFacts.
Open Scope Z_scope.

Lemma session_eta db : {| rows := rows db; utcnow := utcnow db |} = db.
Proof. now destruct db. Qed.

(** ** Lookup *)

Lemma find_id_None i l :
  find (fun a => id a =? i) l = None <-> ~ In i (map id l).
Proof.
  split.
  - intros H Hi. apply in_map_iff in Hi. destruct Hi as (a & E & Ha).
    apply (find_none _ _ H) in Ha. rewrite E, Z.eqb_refl in Ha. discriminate.
  - intros H. destruct (find _ l) as [a|] eqn:F; [|reflexivity].
    apply find_some in F. destruct F as [Ha E]. apply Z.eqb_eq in E.
    elim H. rewrite <- E. now apply in_map.
Qed.

Lemma get_address_found db i a :
  get_address db i = Ok (Some a)
  <-> find (fun b => id b =? i) (rows db) = Some a.
Proof.
  unfold get_address. destruct (find _ (rows db)) as [b|].
  - split; intros H; inversion H; reflexivity.
  - destruct (sqlite_int64 i); split; discriminate.
Qed.

Lemma get_address_Some db i a :
  get_address db i = Ok (Some a) -> In a (rows db) /\ id a = i.
Proof.
  rewrite get_address_found. intros H. apply find_some in H.
  now rewrite Z.eqb_eq in H.
Qed.

Lemma get_address_None db i :
  get_address db i = Ok None
  <-> ~ In i (map id (rows db)) /\ sqlite_int64 i = true.
Proof.
  rewrite <- find_id_None. unfold get_address.
  destruct (find _ (rows db)) as [b|].
  - split; [discriminate | intros [H _]; discriminate].
  - destruct (sqlite_int64 i); split; try discriminate; auto.
    intros [_ H]. discriminate.
Qed.

Lemma get_address_Raise db i e :
  get_address db i = Raise e
  <-> ~ In i (map id (rows db)) /\ sqlite_int64 i = false
      /\ e = OverflowError.
Proof.
  rewrite <- find_id_None. unfold get_address.
  destruct (find _ (rows db)) as [b|].
  - split; [discriminate | intros [H _]; discriminate].
  - destruct (sqlite_int64 i); split; try discriminate.
    + intros (_ & H & _). discriminate.
    + intros H. inversion H. auto.
    + intros (_ & _ & ->). reflexivity.
Qed.

(** The lookup of an [id] depends on the row that carries it only. *)
Lemma get_address_ext db db' i :
  find (fun b => id b =? i) (rows db') = find (fun b => id b =? i) (rows db) ->
  get_address db' i = get_address db i.
Proof. unfold get_address. now intros ->. Qed.

Lemma find_id_app i l a :
  find (fun b => id b =? i) (l ++ [a]) =
  match find (fun b => id b =? i) l with
  | Some b => Some b
  | None => if id a =? i then Some a else None
  end.
Proof.
  induction l as [|b l IH]; [reflexivity|]. cbn [app find].
  now destruct (id b =? i).
Qed.

Lemma find_id_absent i l :
  Forall (fun b => id b <> i) l -> find (fun b => id b =? i) l = None.
Proof.
  induction 1 as [|b l Hb _ IH]; [reflexivity|]. cbn [find].
  apply Z.eqb_neq in Hb. now rewrite Hb.
Qed.

(** ** The rowid of a new row *)

Lemma fold_max_spec l x :
  x <= fold_left Z.max l x
  /\ Forall (fun y => y <= fold_left Z.max l x) l
  /\ In (fold_left Z.max l x) (x :: l).
Proof.
  revert x. induction l as [|y l IH]; intros x; cbn [fold_left].
  - repeat split; [lia | constructor | now left].
  - destruct (IH (Z.max x y)) as (H1 & H2 & H3). repeat split.
    + lia.
    + constructor; [lia | exact H2].
    + destruct H3 as [H3|H3]; [|now right; right].
      rewrite <- H3. destruct (Z.max_spec x y) as [[_ ->]|[_ ->]];
        [right; left | left]; reflexivity.
Qed.

Lemma largest_rowid_spec l v :
  largest_rowid l = Some v ->
  Forall (fun a => id a <= v) l /\ In v (map id l).
Proof.
  destruct l as [|a l]; [discriminate|]. cbn [largest_rowid].
  intros H. inversion H; subst v. clear H.
  destruct (fold_max_spec (map id l) (id a)) as (H1 & H2 & H3).
  split; [|exact H3].
  constructor; [exact H1|]. now rewrite Forall_map in H2.
Qed.

Lemma new_rowid_room l random :
  Forall (fun a => id a < MAX_ROWID) l ->
  exists i, new_rowid l random = Some i
            /\ Forall (fun a => id a < i) l
            /\ (l = [] -> i = 1)
            /\ (forall v, largest_rowid l = Some v -> i = v + 1).
Proof.
  intros R. unfold new_rowid.
  destruct (largest_rowid l) as [v|] eqn:E.
  - destruct (largest_rowid_spec _ _ E) as [B I].
    apply in_map_iff in I. destruct I as (a & Ea & Ha).
    rewrite Forall_forall in R. specialize (R a Ha).
    assert (V : (v <? MAX_ROWID) = true) by (apply Z.ltb_lt; lia).
    rewrite V. exists (v + 1). split; [reflexivity|]. split; [|split].
    + eapply Forall_impl; [|exact B]. cbv beta. intros; lia.
    + intros ->. discriminate.
    + intros v' H. inversion H. reflexivity.
  - destruct l; [|discriminate]. exists 1. repeat split; auto.
    discriminate.
Qed.

Lemma insert_row_last a l :
  Forall (fun b => id b < id a) l -> insert_row a l = l ++ [a].
Proof.
  induction 1 as [|b l Hb _ IH]; [reflexivity|]. cbn [insert_row app].
  assert (E : (id a <? id b) = false) by (apply Z.ltb_ge; lia).
  now rewrite E, IH.
Qed.

Lemma insert_row_perm a l : Permutation (insert_row a l) (a :: l).
Proof.
  induction l as [|b l IH]; [reflexivity|]. cbn [insert_row].
  destruct (id a <? id b); [reflexivity|].
  rewrite IH. apply perm_swap.
Qed.

(** [create_address], where the table has room. *)
Lemma create_address_room db address0 engine :
  has_room db ->
  exists a,
    create_address db address0 engine
    = ({| rows := rows db ++ [a]; utcnow := utcnow db |}, Some a)
    /\ a = {| id := id a; street := c_street address0;
              city := c_city address0; state := c_state address0;
              country := c_country address0;
              postal_code := c_postal_code address0;
              latitude := sqlite_real (c_latitude address0);
              longitude := sqlite_real (c_longitude address0);
              created_at := created_default engine;
              updated_at := updated_default engine |}
    /\ Forall (fun b => id b < id a) (rows db)
    /\ (rows db = [] -> id a = 1)
    /\ (forall v, largest_rowid (rows db) = Some v -> id a = v + 1).
Proof.
  intros R. unfold create_address.
  destruct (new_rowid_room (rows db) (random_rowid engine) R)
    as (i & -> & B & E & V).
  exists {| id := i; street := c_street address0; city := c_city address0;
            state := c_state address0; country := c_country address0;
            postal_code := c_postal_code address0;
            latitude := sqlite_real (c_latitude address0);
            longitude := sqlite_real (c_longitude address0);
            created_at := created_default engine;
            updated_at := updated_default engine |}.
  split; [|split; [reflexivity|split; [exact B|split; assumption]]].
  rewrite insert_row_last; [reflexivity | exact B].
Qed.

(** ** Replacing and removing a row *)

Lemma find_replace_row i a' l :
  id a' = i ->
  find (fun b => id b =? i) (replace_row i a' l) =
  match find (fun b => id b =? i) l with
  | Some _ => Some a'
  | None => None
  end.
Proof.
  intros E. induction l as [|b l IH]; [reflexivity|].
  cbn [replace_row map find]. fold (replace_row i a' l).
  destruct (id b =? i) eqn:B.
  - now rewrite E, Z.eqb_refl.
  - now rewrite B.
Qed.

Lemma find_replace_row_other i j a' l :
  id a' = i -> j <> i ->
  find (fun b => id b =? j) (replace_row i a' l)
  = find (fun b => id b =? j) l.
Proof.
  intros E N. induction l as [|b l IH]; [reflexivity|].
  cbn [replace_row map find]. fold (replace_row i a' l).
  destruct (id b =? i) eqn:B.
  - apply Z.eqb_eq in B.
    assert (E1 : (id a' =? j) = false) by (apply Z.eqb_neq; lia).
    assert (E2 : (id b =? j) = false) by (apply Z.eqb_neq; lia).
    now rewrite E1, E2.
  - now rewrite IH.
Qed.

Lemma map_id_replace_row i a' l :
  id a' = i -> map id (replace_row i a' l) = map id l.
Proof.
  intros E. unfold replace_row. rewrite map_map. apply map_ext_in.
  intros b _. destruct (id b =? i) eqn:B; [|reflexivity].
  apply Z.eqb_eq in B. lia.
Qed.

Lemma replace_row_idem i a' l :
  id a' = i -> replace_row i a' (replace_row i a' l) = replace_row i a' l.
Proof.
  intros E. unfold replace_row. rewrite map_map. apply map_ext.
  intros b. destruct (id b =? i) eqn:B; [|now rewrite B].
  now rewrite E, Z.eqb_refl.
Qed.

Lemma sorted_lt_NoDup l : StronglySorted Z.lt l -> NoDup l.
Proof.
  induction 1 as [|x l _ IH H]; constructor; [|exact IH].
  intros Hx. rewrite Forall_forall in H. specialize (H x Hx). lia.
Qed.

(** Under the primary key, the row of an [id] is the only one. *)
Lemma primary_key_unique db i a b :
  primary_key db -> get_address db i = Ok (Some a) -> In b (rows db) ->
  id b = i -> b = a.
Proof.
  rewrite get_address_found. unfold primary_key. intros K F Hb Eb.
  induction (rows db) as [|c l IH]; [contradiction|].
  cbn [map] in K. inversion K as [|? ? K' Hc]; subst.
  cbn [find] in F. destruct (id c =? id b) eqn:C.
  - inversion F; subst c. destruct Hb as [Hb|Hb]; [now symmetry|].
    apply Z.eqb_eq in C. rewrite Forall_forall in Hc.
    specialize (Hc (id b) (in_map id _ _ Hb)). lia.
  - destruct Hb as [Hb|Hb]; [subst c; rewrite Z.eqb_refl in C; discriminate|].
    now apply IH.
Qed.

Lemma replace_row_same db i a :
  primary_key db -> get_address db i = Ok (Some a) ->
  replace_row i a (rows db) = rows db.
Proof.
  intros K F. unfold replace_row. rewrite <- (map_id (rows db)) at 2.
  apply map_ext_in. intros b Hb. destruct (id b =? i) eqn:B; [|reflexivity].
  apply Z.eqb_eq in B. symmetry. eapply primary_key_unique; eassumption.
Qed.

Lemma find_filter_removed i l :
  find (fun b => id b =? i) (filter (fun b => negb (id b =? i)) l) = None.
Proof.
  induction l as [|b l IH]; [reflexivity|]. cbn [filter].
  destruct (id b =? i) eqn:B; cbn [negb]; [exact IH|].
  cbn [find]. now rewrite B.
Qed.

Lemma find_filter_other i j l :
  j <> i ->
  find (fun b => id b =? j) (filter (fun b => negb (id b =? i)) l)
  = find (fun b => id b =? j) l.
Proof.
  intros N. induction l as [|b l IH]; [reflexivity|]. cbn [filter find].
  destruct (id b =? i) eqn:B; cbn [negb].
  - apply Z.eqb_eq in B.
    assert (E : (id b =? j) = false) by (apply Z.eqb_neq; lia).
    now rewrite E.
  - cbn [find]. now rewrite IH.
Qed.

Lemma filter_absent i l :
  Forall (fun b => id b <> i) l ->
  filter (fun b => negb (id b =? i)) l = l.
Proof.
  induction 1 as [|b l Hb _ IH]; [reflexivity|]. cbn [filter].
  apply Z.eqb_neq in Hb. now rewrite Hb, IH.
Qed.

(** Under the primary key, removing the rows of an [id] removes one row. *)
Lemma filter_one db i a :
  primary_key db -> get_address db i = Ok (Some a) ->
  exists before after,
    rows db = before ++ a :: after
    /\ filter (fun b => negb (id b =? i)) (rows db) = before ++ after.
Proof.
  rewrite get_address_found. unfold primary_key. intros K F.
  induction (rows db) as [|c l IH]; [discriminate|].
  cbn [map] in K. inversion K as [|? ? K' Hc]; subst.
  cbn [find] in F. destruct (id c =? i) eqn:C.
  - inversion F; subst c. exists [], l. split; [reflexivity|].
    cbn [filter app]. rewrite C. cbn [negb]. apply filter_absent.
    apply Z.eqb_eq in C. rewrite Forall_map in Hc.
    eapply Forall_impl; [|exact Hc]. cbv beta. intros; lia.
  - destruct (IH K' F) as (before & after & E1 & E2).
    exists (c :: before), after. cbn [app filter]. rewrite C. cbn [negb].
    now rewrite E1 at 1; rewrite E2.
Qed.

Lemma sorted_map_filter (p : Address -> bool) l :
  StronglySorted Z.lt (map id l) ->
  StronglySorted Z.lt (map id (filter p l)).
Proof.
  induction l as [|b l IH]; [auto|]. cbn [map filter]. intros K.
  inversion K as [|? ? K' Hb]; subst.
  destruct (p b); [|auto]. cbn [map]. constructor; [auto|].
  rewrite Forall_map in *. rewrite Forall_forall in *.
  intros c Hc. apply Hb. now apply filter_In in Hc.
Qed.

Lemma sorted_app_last l x :
  StronglySorted Z.lt l -> Forall (fun y => y < x) l ->
  StronglySorted Z.lt (l ++ [x]).
Proof.
  induction 1 as [|y l _ IH Hy]; intros B; cbn [app].
  - repeat constructor.
  - inversion B; subst. constructor; [auto|].
    apply Forall_app. split; [exact Hy | now repeat constructor].
Qed.

(** ** [apply_update], column by column *)

Lemma set_required_cases {T} (old : T) v :
  set_required old v = Ok (requested old v) /\ sets_null v = false
  \/ set_required old v = Raise IntegrityError /\ sets_null v = true.
Proof. destruct v as [[y|]|]; cbn; auto. Qed.

Lemma set_nullable_idem {T} (old : option T) v :
  set_nullable (set_nullable old v) v = set_nullable old v.
Proof. now destruct v. Qed.

Lemma eq_option_eq x y : eq_option String.eqb x y = true -> x = y.
Proof.
  destruct x, y; cbn; try discriminate; auto.
  intros H. apply String.eqb_eq in H. now subst.
Qed.

Lemma eq_option_refl x : eq_option String.eqb x x = true.
Proof. destruct x; cbn; [apply String.eqb_refl | reflexivity]. Qed.

Lemma float_eqb_refl (x : float) : is_nan x = false -> (x =? x)%float = true.
Proof. unfold is_nan. now destruct (x =? x)%float. Qed.

Lemma same_columns_refl a :
  is_nan (latitude a) = false -> is_nan (longitude a) = false ->
  same_columns a a = true.
Proof.
  intros H1 H2. unfold same_columns.
  now rewrite !String.eqb_refl, !eq_option_refl, !float_eqb_refl.
Qed.

(** ** What a [FLOAT] column hands back *)

Lemma eqb_zero_spec (x : float) :
  (x =? 0)%float = true <-> exists s, Prim2SF x = S754_zero s.
Proof.
  rewrite eqb_spec. change (Prim2SF 0) with (S754_zero false).
  unfold SFeqb. destruct (Prim2SF x) as [s|s| |s m e]; cbn; split;
    try discriminate; try (intros [s' H]; discriminate); eauto;
    destruct s; discriminate.
Qed.

Lemma SFcompare_zero_l s y :
  SFcompare (S754_zero s) y = SFcompare (S754_zero false) y.
Proof. reflexivity. Qed.

Lemma SFcompare_zero_r s y :
  SFcompare y (S754_zero s) = SFcompare y (S754_zero false).
Proof. now destruct y. Qed.

(** The float that is read back compares as the one that was written. *)
Lemma sqlite_real_compare (x y : float) :
  ((sqlite_real x <=? y) = (x <=? y))%float
  /\ ((y <=? sqlite_real x) = (y <=? x))%float
  /\ ((sqlite_real x =? y) = (x =? y))%float
  /\ ((y =? sqlite_real x) = (y =? x))%float.
Proof.
  unfold sqlite_real. destruct (x =? 0)%float eqn:E; [|auto].
  apply eqb_zero_spec in E. destruct E as [s E].
  rewrite !leb_spec, !eqb_spec, E. change (Prim2SF 0) with (S754_zero false).
  unfold SFleb, SFeqb.
  now rewrite (SFcompare_zero_l s), (SFcompare_zero_r s).
Qed.

Lemma sqlite_real_eqb (x : float) :
  is_nan x = false -> (sqlite_real x =? x)%float = true.
Proof.
  intros N. destruct (sqlite_real_compare x x) as (_ & _ & -> & _).
  now apply float_eqb_refl.
Qed.

Lemma sqlite_real_is_nan (x : float) : is_nan (sqlite_real x) = is_nan x.
Proof.
  unfold is_nan. destruct (sqlite_real_compare x (sqlite_real x))
    as (_ & _ & -> & _).
  destruct (sqlite_real_compare x x) as (_ & _ & _ & ->). reflexivity.
Qed.

Lemma sqlite_real_idem (x : float) : sqlite_real (sqlite_real x) = sqlite_real x.
Proof.
  unfold sqlite_real at 1.
  destruct (sqlite_real_compare x 0) as (_ & _ & -> & _).
  unfold sqlite_real. now destruct (x =? 0)%float.
Qed.

Lemma valid_coordinate_sqlite_real (lat lon : float) :
  valid_coordinate (sqlite_real lat) (sqlite_real lon)
  = valid_coordinate lat lon.
Proof.
  unfold valid_coordinate.
  destruct (sqlite_real_compare lat (-90)) as (_ & -> & _).
  destruct (sqlite_real_compare lat 90) as (-> & _).
  destruct (sqlite_real_compare lon (-180)) as (_ & -> & _).
  destruct (sqlite_real_compare lon 180) as (-> & _).
  reflexivity.
Qed.

End StoreFacts.

Module StoreProofs.
Import StoreFacts.
Open Scope Z_scope.

(** ** [create_address] *)

(** X1: where the table has room, [create_address] appends one row under an
    [id] that no row had.  The row carries the strings of the request and
    the two readings of the clock; its coordinate compares equal to the one
    of the request, and is the same float unless that is a zero, which is
    read back as [0.0].  The lookup of the new [id] returns the row, and the
    lookup of any other [id] answers as before. *)
Theorem create_then_get (db : Session) (address0 : AddressCreate)
  (engine : Insert) :
  has_room db ->
  exists db' a,
    create_address db address0 engine = (db', Some a)
    /\ rows db' = rows db ++ [a]
    /\ ~ In (id a) (map id (rows db))
    /\ (street a, city a, state a, country a, postal_code a)
       = (c_street address0, c_city address0, c_state address0,
          c_country address0, c_postal_code address0)
    /\ (created_at a, updated_at a)
       = (created_default engine, updated_default engine)
    /\ ((c_latitude address0 =? 0)%float = false ->
        latitude a = c_latitude address0)
    /\ ((c_latitude address0 =? 0)%float = true -> latitude a = 0%float)
    /\ ((c_longitude address0 =? 0)%float = false ->
        longitude a = c_longitude address0)
    /\ ((c_longitude address0 =? 0)%float = true -> longitude a = 0%float)
    /\ (is_nan (c_latitude address0) = false ->
        (latitude a =? c_latitude address0)%float = true)
    /\ (is_nan (c_longitude address0) = false ->
        (longitude a =? c_longitude address0)%float = true)
    /\ get_address db' (id a) = Ok (Some a)
    /\ (forall i, i <> id a -> get_address db' i = get_address db i).
Proof.
  intros R.
  destruct (create_address_room db address0 engine R) as (a & C & E & B & _).
  exists {| rows := rows db ++ [a]; utcnow := utcnow db |}, a.
  assert (N : Forall (fun b => id b <> id a) (rows db)).
  { eapply Forall_impl; [|exact B]. cbv beta. intros; lia. }
  assert (Elat : latitude a = sqlite_real (c_latitude address0))
    by (rewrite E; reflexivity).
  assert (Elon : longitude a = sqlite_real (c_longitude address0))
    by (rewrite E; reflexivity).
  split; [exact C|]. split; [reflexivity|].
  split; [|split; [|split; [|split; [|split; [|split; [|split; [|split;
    [|split; [|split]]]]]]]]].
  - intros Hi. apply in_map_iff in Hi. destruct Hi as (b & Eb & Hb).
    rewrite Forall_forall in N. now apply (N b Hb).
  - rewrite E. reflexivity.
  - rewrite E. reflexivity.
  - intros Z. rewrite Elat. unfold sqlite_real. now rewrite Z.
  - intros Z. rewrite Elat. unfold sqlite_real. now rewrite Z.
  - intros Z. rewrite Elon. unfold sqlite_real. now rewrite Z.
  - intros Z. rewrite Elon. unfold sqlite_real. now rewrite Z.
  - intros Z. rewrite Elat. now apply sqlite_real_eqb.
  - intros Z. rewrite Elon. now apply sqlite_real_eqb.
  - apply get_address_found. cbn [rows].
    now rewrite find_id_app, (find_id_absent _ _ N), Z.eqb_refl.
  - intros i Hi. apply get_address_ext. cbn [rows]. rewrite find_id_app.
    destruct (find (fun b => id b =? i) (rows db)); [reflexivity|].
    assert (F : (id a =? i) = false) by (apply Z.eqb_neq; lia).
    now rewrite F.
Qed.

(** X2: deleting the address that was just created gives the rows of the
    table back as they were, and the next address created gets the same [id]
    again. *)
Theorem create_then_delete (db : Session) (address0 : AddressCreate)
  (engine : Insert) :
  has_room db ->
  exists db1 a db2,
    create_address db address0 engine = (db1, Some a)
    /\ delete_address db1 (id a) = (db2, Ok true)
    /\ rows db2 = rows db
    /\ forall address1 engine1,
         exists db3 a',
           create_address db2 address1 engine1 = (db3, Some a')
           /\ id a' = id a.
Proof.
  intros R.
  destruct (create_address_room db address0 engine R) as (a & C & E & B & _).
  exists {| rows := rows db ++ [a]; utcnow := utcnow db |}, a, db.
  assert (N : Forall (fun b => id b <> id a) (rows db)).
  { eapply Forall_impl; [|exact B]. cbv beta. intros; lia. }
  assert (D : delete_address {| rows := rows db ++ [a]; utcnow := utcnow db |}
                (id a) = (db, Ok true)).
  { unfold delete_address, get_address. cbn [rows utcnow].
    rewrite find_id_app, (find_id_absent _ _ N), Z.eqb_refl.
    rewrite filter_app, (filter_absent _ _ N). cbn [filter].
    rewrite Z.eqb_refl. cbn [negb]. now rewrite app_nil_r, session_eta. }
  split; [exact C|]. split; [exact D|]. split; [reflexivity|].
  intros address1 engine1.
  destruct (create_address_room db address1 engine1 R)
    as (a' & C' & _ & B' & E0 & EV).
  exists {| rows := rows db ++ [a']; utcnow := utcnow db |}, a'.
  split; [exact C'|].
  destruct (create_address_room db address0 engine R)
    as (a0 & C0 & _ & _ & F0 & FV).
  rewrite C in C0. inversion C0; subst a0.
  destruct (largest_rowid (rows db)) as [v|] eqn:L.
  - now rewrite (EV v eq_refl), (FV v eq_refl).
  - destruct (rows db); [|discriminate]. now rewrite E0, F0.
Qed.

(** ** [delete_address] *)

(** X3: deleting a stored address answers with an empty body; afterwards no
    row carries its [id], so the lookup and a second deletion of it answer
    404; the lookup of any other [id] answers as before, and under the
    primary key the table is the old one without that row. *)
Theorem delete_then_gone (db : Session) (address_id : Z) (a : Address) :
  get_address db address_id = Ok (Some a) ->
  exists db',
    Routes.delete_address address_id db = (db', Ok (Response tt))
    /\ ~ In address_id (map id (rows db'))
    /\ (sqlite_int64 address_id = true ->
        Routes.get_address address_id db' = Ok (HTTPException 404)
        /\ Routes.delete_address address_id db'
           = (db', Ok (HTTPException 404)))
    /\ (forall i, i <> address_id -> get_address db' i = get_address db i)
    /\ (primary_key db ->
        exists before after,
          rows db = before ++ a :: after /\ rows db' = before ++ after).
Proof.
  intros F. destruct (get_address_Some _ _ _ F) as [_ Ei].
  set (db' := {| rows := filter (fun b => negb (id b =? address_id)) (rows db);
                 utcnow := utcnow db |}).
  exists db'.
  assert (A : ~ In address_id (map id (rows db'))).
  { apply find_id_None. cbn [db' rows]. apply find_filter_removed. }
  split; [|split; [exact A|split; [|split]]].
  - unfold Routes.delete_address, delete_address. rewrite F, Ei. reflexivity.
  - intros S.
    assert (G : get_address db' address_id = Ok None)
      by (apply get_address_None; now split).
    split.
    + unfold Routes.get_address. now rewrite G.
    + unfold Routes.delete_address, delete_address. now rewrite G.
  - intros i Hi. apply get_address_ext. cbn [db' rows].
    now apply find_filter_other.
  - intros K. cbn [db' rows]. now apply filter_one.
Qed.

(** ** [update_address] *)

Lemma requested_idem {T} (old : T) v :
  requested (requested old v) v = requested old v.
Proof. now destruct v as [[x|]|]. Qed.

(** [apply_update], in one equation. *)
Lemma apply_update_eq now a u :
  apply_update now a u =
  if nulls_required_column u then Raise IntegrityError
  else if same_columns a (requested_row a u) then Ok a
       else Ok (read_back (stamped now (requested_row a u))).
Proof.
  unfold apply_update, nulls_required_column.
  destruct (set_required_cases (street a) (u_street u)) as [[-> ->]|[-> ->]];
    cbn [bind orb]; [|reflexivity].
  destruct (set_required_cases (city a) (u_city u)) as [[-> ->]|[-> ->]];
    cbn [bind orb]; [|reflexivity].
  destruct (set_required_cases (country a) (u_country u)) as [[-> ->]|[-> ->]];
    cbn [bind orb]; [|reflexivity].
  destruct (set_required_cases (latitude a) (u_latitude u))
    as [[-> ->]|[-> ->]]; cbn [bind orb]; [|reflexivity].
  destruct (set_required_cases (longitude a) (u_longitude u))
    as [[-> ->]|[-> ->]]; cbn [bind orb]; [|reflexivity].
  reflexivity.
Qed.

(** The coordinate that was read back compares equal to the one that the
    update asks for once more. *)
Lemma requested_again_eqb (old : float) v :
  is_nan (sqlite_real (requested old v)) = false ->
  (sqlite_real (requested old v)
   =? requested (sqlite_real (requested old v)) v)%float = true.
Proof.
  intros N. destruct v as [[x|]|]; cbn [requested] in *.
  - apply sqlite_real_eqb. now rewrite sqlite_real_is_nan in N.
  - now apply float_eqb_refl.
  - now apply float_eqb_refl.
Qed.

Lemma same_columns_again now a u :
  let a' := read_back (stamped now (requested_row a u)) in
  is_nan (latitude a') = false -> is_nan (longitude a') = false ->
  same_columns a' (requested_row a' u) = true.
Proof.
  cbv zeta. unfold same_columns, read_back, stamped, requested_row.
  cbn [id street city state country postal_code latitude longitude
       created_at updated_at].
  intros N1 N2.
  rewrite !requested_idem, !set_nullable_idem, !String.eqb_refl,
    !eq_option_refl.
  now rewrite (requested_again_eqb _ _ N1), (requested_again_eqb _ _ N2).
Qed.

(** A second run of the same update, at any time, finds nothing to change. *)
Lemma apply_update_again now later a u a' :
  apply_update now a u = Ok a' ->
  is_nan (latitude a') = false -> is_nan (longitude a') = false ->
  apply_update later a' u = Ok a'.
Proof.
  rewrite !apply_update_eq.
  destruct (nulls_required_column u); [discriminate|].
  destruct (same_columns a (requested_row a u)) eqn:S; intros H N1 N2;
    inversion H; subst a'; clear H.
  - now rewrite S.
  - now rewrite (same_columns_again now a u N1 N2).
Qed.

Lemma same_columns_true a b :
  same_columns a b = true ->
  street a = street b /\ city a = city b /\ state a = state b
  /\ country a = country b /\ postal_code a = postal_code b
  /\ (latitude a =? latitude b)%float = true
  /\ (longitude a =? longitude b)%float = true.
Proof.
  unfold same_columns. rewrite !andb_true_iff.
  intros [[[[[[H1 H2] H3] H4] H5] H6] H7].
  apply String.eqb_eq in H1, H2, H4. apply eq_option_eq in H3, H5.
  auto 10.
Qed.

Lemma update_address_found db i u a :
  get_address db i = Ok (Some a) ->
  update_address db i u =
  match apply_update (utcnow db) a u with
  | Ok a' => ({| rows := replace_row i a' (rows db); utcnow := utcnow db |},
              Ok (Some a'))
  | Raise e => (db, Raise e)
  end.
Proof. unfold update_address. now intros ->. Qed.

Lemma apply_update_id now a u a' : apply_update now a u = Ok a' -> id a' = id a.
Proof.
  rewrite apply_update_eq. destruct (nulls_required_column u); [discriminate|].
  destruct (same_columns a (requested_row a u)); intros H; inversion H;
    reflexivity.
Qed.

(** X4: an update of a stored address that sets no required column to
    [null] returns the row with the columns it asks for (a coordinate
    compares equal to the one asked for), under the same [id] and creation
    time; the lookup of the [id] returns that row afterwards, and the other
    rows and the [id]s of the table are as before. *)
Theorem update_then_get (db : Session) (address_id : Z)
  (address_update : AddressUpdate) (a : Address) :
  get_address db address_id = Ok (Some a) ->
  nulls_required_column address_update = false ->
  exists db' a',
    update_address db address_id address_update = (db', Ok (Some a'))
    /\ get_address db' address_id = Ok (Some a')
    /\ (forall i, i <> address_id -> get_address db' i = get_address db i)
    /\ map id (rows db') = map id (rows db)
    /\ id a' = address_id /\ created_at a' = created_at a
    /\ street a' = requested (street a) (u_street address_update)
    /\ city a' = requested (city a) (u_city address_update)
    /\ country a' = requested (country a) (u_country address_update)
    /\ state a' = set_nullable (state a) (u_state address_update)
    /\ postal_code a'
       = set_nullable (postal_code a) (u_postal_code address_update)
    /\ (is_nan (requested (latitude a) (u_latitude address_update)) = false ->
        (latitude a'
         =? requested (latitude a) (u_latitude address_update))%float = true)
    /\ (is_nan (requested (longitude a) (u_longitude address_update)) = false ->
        (longitude a'
         =? requested (longitude a) (u_longitude address_update))%float = true)
    /\ (a' = a \/ updated_at a' = utcnow db).
Proof.
  intros F N. destruct (get_address_Some _ _ _ F) as [_ Ei].
  rewrite (update_address_found _ _ address_update _ F).
  pose proof (apply_update_eq (utcnow db) a address_update) as E.
  rewrite N in E.
  set (u := address_update) in *.
  assert (S : exists a', apply_update (utcnow db) a u = Ok a'
    /\ id a' = address_id /\ created_at a' = created_at a
    /\ street a' = requested (street a) (u_street u)
    /\ city a' = requested (city a) (u_city u)
    /\ country a' = requested (country a) (u_country u)
    /\ state a' = set_nullable (state a) (u_state u)
    /\ postal_code a' = set_nullable (postal_code a) (u_postal_code u)
    /\ (is_nan (requested (latitude a) (u_latitude u)) = false ->
        (latitude a' =? requested (latitude a) (u_latitude u))%float = true)
    /\ (is_nan (requested (longitude a) (u_longitude u)) = false ->
        (longitude a' =? requested (longitude a) (u_longitude u))%float = true)
    /\ (a' = a \/ updated_at a' = utcnow db)).
  { destruct (same_columns a (requested_row a u)) eqn:C.
    - exists a. apply same_columns_true in C.
      destruct C as (C1 & C2 & C3 & C4 & C5 & C6 & C7).
      cbn [requested_row street city state country postal_code latitude
             longitude] in *.
      repeat (split; [assumption || reflexivity || auto|]). now left.
    - exists (read_back (stamped (utcnow db) (requested_row a u))).
      cbn [read_back stamped requested_row id street city state country
             postal_code latitude longitude created_at updated_at].
      repeat (split; [assumption || reflexivity
                      || (intros; now apply sqlite_real_eqb)|]).
      now right. }
  destruct S as (a' & Ea & Hid & Hrest). rewrite Ea.
  eexists _, a'. split; [reflexivity|].
  split; [|split; [|split; [|split; [exact Hid | exact Hrest]]]].
  - apply get_address_found. apply get_address_found in F. cbn [rows].
    now rewrite (find_replace_row _ _ _ Hid), F.
  - intros i Hi. apply get_address_ext. cbn [rows].
    now apply find_replace_row_other.
  - cbn [rows]. now apply map_id_replace_row.
Qed.

(** X5: sending the update that a stored address has just received once
    more, at any later time, changes nothing: the table and the row, its
    [updated_at] included, stay as the first update left them. *)
Theorem update_again (db db' : Session) (address_id later : Z)
  (address_update : AddressUpdate) (a' : Address) :
  update_address db address_id address_update = (db', Ok (Some a')) ->
  is_nan (latitude a') = false -> is_nan (longitude a') = false ->
  update_address (at_time later db') address_id address_update
  = (at_time later db', Ok (Some a')).
Proof.
  intros U N1 N2. unfold update_address in U.
  destruct (get_address db address_id) as [[a|]|e] eqn:F; try discriminate.
  destruct (get_address_Some _ _ _ F) as [_ Ei].
  destruct (apply_update (utcnow db) a address_update) as [a1|] eqn:A;
    [|discriminate].
  inversion U; subst a1 db'; clear U.
  assert (Hid : id a' = address_id)
    by (rewrite (apply_update_id _ _ _ _ A); exact Ei).
  assert (G : get_address
                (at_time later
                   {| rows := replace_row address_id a' (rows db);
                      utcnow := utcnow db |}) address_id = Ok (Some a')).
  { apply get_address_found. apply get_address_found in F.
    cbn [at_time rows]. now rewrite (find_replace_row _ _ _ Hid), F. }
  rewrite (update_address_found _ _ address_update _ G). cbn [at_time utcnow].
  rewrite (apply_update_again _ later _ _ _ A N1 N2).
  unfold at_time. cbn [rows utcnow].
  now rewrite (replace_row_idem _ _ _ Hid).
Qed.

Lemma requested_row_empty a : requested_row a empty_update = a.
Proof. now destruct a. Qed.

(** X6: the update that sets no field returns the stored address and
    leaves the table, [updated_at] included, as it was. *)
Theorem empty_update_changes_nothing (db : Session) (address_id : Z)
  (a : Address) :
  primary_key db -> get_address db address_id = Ok (Some a) ->
  is_nan (latitude a) = false -> is_nan (longitude a) = false ->
  update_address db address_id empty_update = (db, Ok (Some a)).
Proof.
  intros K F N1 N2. rewrite (update_address_found _ _ empty_update _ F).
  rewrite apply_update_eq. cbn [nulls_required_column empty_update sets_null
    u_street u_city u_country u_latitude u_longitude orb].
  fold empty_update. rewrite requested_row_empty, (same_columns_refl a N1 N2).
  now rewrite (replace_row_same db address_id a K F), session_eta.
Qed.

(** ** The primary key *)

(** X7: the three operations that write keep the primary key: after
    [create_address] (where the table has room), [update_address] and
    [delete_address] the [id]s of the table increase strictly, so no two rows
    share one. *)
Theorem primary_key_kept (db : Session) :
  primary_key db ->
  (forall address0 engine, has_room db ->
     primary_key (fst (create_address db address0 engine)))
  /\ (forall address_id address_update,
        primary_key (fst (update_address db address_id address_update)))
  /\ (forall address_id, primary_key (fst (delete_address db address_id)))
  /\ NoDup (map id (rows db)).
Proof.
  intros K. split; [|split; [|split; [|now apply sorted_lt_NoDup]]].
  - intros address0 engine R.
    destruct (create_address_room db address0 engine R) as (a & -> & _ & B & _).
    unfold primary_key. cbn [fst rows]. rewrite map_app. cbn [map].
    apply sorted_app_last; [exact K|]. now rewrite Forall_map.
  - intros i u. unfold update_address.
    destruct (get_address db i) as [[a|]|e] eqn:F; try exact K.
    destruct (apply_update (utcnow db) a u) as [a'|] eqn:A; [|exact K].
    unfold primary_key. cbn [fst rows]. rewrite map_id_replace_row; [exact K|].
    rewrite (apply_update_id _ _ _ _ A). now apply get_address_Some in F.
  - intros i. unfold delete_address.
    destruct (get_address db i) as [[a|]|e]; try exact K.
    unfold primary_key. cbn [fst rows]. now apply sorted_map_filter.
Qed.

(** ** Identifiers that no row carries *)

Lemma get_address_cases db i :
  (exists a, get_address db i = Ok (Some a) /\ In i (map id (rows db)))
  \/ (get_address db i = Ok None
      /\ ~ In i (map id (rows db)) /\ sqlite_int64 i = true)
  \/ (get_address db i = Raise OverflowError
      /\ ~ In i (map id (rows db)) /\ sqlite_int64 i = false).
Proof.
  destruct (get_address db i) as [[a|]|e] eqn:F.
  - left. exists a. split; [reflexivity|].
    apply get_address_Some in F. destruct F as [Ha <-]. now apply in_map.
  - right. left. apply get_address_None in F. tauto.
  - right. right. apply get_address_Raise in F. destruct F as (A & S & ->).
    auto.
Qed.

(** X8: for an [address_id] that no row of the table carries, the table is
    left as it was: when the [address_id] is an integer that SQLite stores,
    [update_address] returns [None], [delete_address] returns [False] and
    the three endpoints that take an [address_id] answer 404; when it is
    not, the lookup raises [OverflowError], which no handler catches.  The
    endpoints answer 404, and raise [OverflowError], in these cases only. *)
Theorem not_found_iff_absent (db : Session) (address_id : Z)
  (address_update : AddressUpdate) :
  (~ In address_id (map id (rows db)) ->
   (sqlite_int64 address_id = true ->
    update_address db address_id address_update = (db, Ok None)
    /\ delete_address db address_id = (db, Ok false))
   /\ (sqlite_int64 address_id = false ->
       update_address db address_id address_update
       = (db, Raise OverflowError)
       /\ delete_address db address_id = (db, Raise OverflowError))
   /\ fst (Routes.update_address address_id address_update db) = db
   /\ fst (Routes.delete_address address_id db) = db)
  /\ (Routes.get_address address_id db = Ok (HTTPException 404)
      <-> ~ In address_id (map id (rows db))
          /\ sqlite_int64 address_id = true)
  /\ (snd (Routes.update_address address_id address_update db)
      = Ok (HTTPException 404)
      <-> ~ In address_id (map id (rows db))
          /\ sqlite_int64 address_id = true)
  /\ (snd (Routes.delete_address address_id db) = Ok (HTTPException 404)
      <-> ~ In address_id (map id (rows db))
          /\ sqlite_int64 address_id = true)
  /\ (Routes.get_address address_id db = Raise OverflowError
      <-> ~ In address_id (map id (rows db))
          /\ sqlite_int64 address_id = false)
  /\ (snd (Routes.update_address address_id address_update db)
      = Raise OverflowError
      <-> ~ In address_id (map id (rows db))
          /\ sqlite_int64 address_id = false)
  /\ (snd (Routes.delete_address address_id db) = Raise OverflowError
      <-> ~ In address_id (map id (rows db))
          /\ sqlite_int64 address_id = false).
Proof.
  unfold Routes.get_address, Routes.update_address, Routes.delete_address,
    update_address, delete_address.
  destruct (get_address_cases db address_id)
    as [(a & -> & P)|[(-> & A & S)|(-> & A & S)]]; cbn [fst snd bind].
  - split; [intros N; contradiction|].
    rewrite apply_update_eq.
    destruct (nulls_required_column address_update);
      [|destruct (same_columns a (requested_row a address_update))];
      cbn [fst snd];
      repeat match goal with
             | |- _ /\ _ => split
             | |- _ <-> _ =>
                 split; [intros H; discriminate H | intros [N _]; contradiction]
             end.
  - split.
    + intros _. rewrite S. repeat split; try reflexivity; discriminate.
    + repeat match goal with
             | |- _ /\ _ => split
             | |- _ = Ok _ <-> _ =>
                 split; [intros _; split; assumption | intros _; reflexivity]
             | |- _ = Raise _ <-> _ =>
                 split; [intros H; discriminate H
                        | intros [_ H]; rewrite S in H; discriminate H]
             end.
  - split.
    + intros _. rewrite S. repeat split; try reflexivity; discriminate.
    + repeat match goal with
             | |- _ /\ _ => split
             | |- _ = Raise _ <-> _ =>
                 split; [intros _; split; assumption | intros _; reflexivity]
             | |- _ = Ok _ <-> _ =>
                 split; [intros H; discriminate H
                        | intros [_ H]; rewrite S in H; discriminate H]
             end.
Qed.

End StoreProofs.

(** * The endpoints of the store *)

Module EndpointProofs.
Import StrFacts ModelProofs StoreFacts StoreProofs.

(** ** Validation of a new address *)

(** X9: a body that [AddressCreate] accepts comes out normalised: street,
    city and country are the stripped members of the body, not empty, without
    white space at their ends and within their maximal lengths, state and
    postal code are within theirs, the coordinate is in range; and the
    validation of what came out returns it unchanged. *)
Theorem validated_address_normalised (body : AddressBody) (a : AddressCreate) :
  AddressCreate_validate body = Some a ->
  (exists raw, b_street body = Some raw /\ c_street a = Str.strip raw)
  /\ (exists raw, b_city body = Some raw /\ c_city a = Str.strip raw)
  /\ (exists raw, b_country body = Some raw /\ c_country a = Str.strip raw)
  /\ nonblank 255 (c_street a) = true
  /\ nonblank 100 (c_city a) = true
  /\ nonblank 100 (c_country a) = true
  /\ fits 100 (c_state a) = true
  /\ fits 20 (c_postal_code a) = true
  /\ valid_coordinate (c_latitude a) (c_longitude a) = true
  /\ AddressCreate_validate (body_of a) = Some a.
Proof.
  intros H. destruct (AddressCreate_validate_fields body a H)
    as (B1 & B2 & B3 & L4 & L5 & V).
  destruct (AddressCreate_validate_inv body a H)
    as (Hst & Hci & Hsa & Hco & Hpo & Hla & Hlo).
  destruct (required_str_Some _ _ _ _ Hst) as (r1 & E1 & S1 & _).
  destruct (required_str_Some _ _ _ _ Hci) as (r2 & E2 & S2 & _).
  destruct (required_str_Some _ _ _ _ Hco) as (r3 & E3 & S3 & _).
  split; [eauto|]. split; [eauto|]. split; [eauto|].
  repeat (split; [assumption|]).
  destruct (optional_str_Some _ _ _ Hsa) as [_ F4].
  destruct (optional_str_Some _ _ _ Hpo) as [_ F5].
  destruct (required_float_Some _ _ _ _ Hla) as (_ & A1 & A2).
  destruct (required_float_Some _ _ _ _ Hlo) as (_ & A3 & A4).
  unfold AddressCreate_validate, body_of. cbn [b_street b_city b_state
    b_country b_postal_code b_latitude b_longitude].
  rewrite (required_str_fix 1 255 (c_street a)),
    (required_str_fix 1 100 (c_city a)), F4,
    (required_str_fix 1 100 (c_country a)), F5,
    (required_float_fix _ _ _ A1 A2), (required_float_fix _ _ _ A3 A4)
    by (assumption || lia).
  cbn [and_then]. now destruct a.
Qed.

Lemma valid_coordinate_split lat lon :
  valid_coordinate lat lon = true <->
  ((-90 <=? lat)%float = true /\ (lat <=? 90)%float = true)
  /\ ((-180 <=? lon)%float = true /\ (lon <=? 180)%float = true).
Proof.
  unfold valid_coordinate. rewrite !andb_true_iff. tauto.
Qed.

Lemma optional_str_blank hi s :
  Str.strip s = EmptyString -> (String.length s <= hi)%nat ->
  optional_str hi (Some s) = Some (Some EmptyString).
Proof.
  intros B L. unfold optional_str, AddressBase_validate_optional_fields.
  assert (F : Field_length 0 hi s = true)
    by (apply Field_length_spec; lia).
  rewrite F. destruct (s =? EmptyString)%string eqn:E.
  - apply String.eqb_eq in E. now subst.
  - now rewrite B.
Qed.

Lemma optional_str_long hi s :
  (hi < String.length s)%nat -> optional_str hi (Some s) = None.
Proof.
  intros L. unfold optional_str.
  destruct (Field_length 0 hi s) eqn:F; [|reflexivity].
  apply Field_length_spec in F. lia.
Qed.

Lemma required_str_accepts lo hi raw :
  (lo <= String.length raw <= hi)%nat -> Str.strip raw <> EmptyString ->
  required_str lo hi (Some raw) = Some (Str.strip raw).
Proof.
  intros L N. unfold required_str. cbn [and_then].
  assert (F : Field_length lo hi raw = true) by now apply Field_length_spec.
  rewrite F. unfold AddressBase_validate_not_empty.
  assert (E1 : (raw =? EmptyString)%string = false).
  { apply String.eqb_neq. intros ->. now apply N. }
  assert (E2 : (Str.strip raw =? EmptyString)%string = false)
    by now apply String.eqb_neq.
  now rewrite E1, E2.
Qed.

Lemma optional_str_accepts hi v :
  fits hi v = true ->
  optional_str hi v = Some (AddressBase_validate_optional_fields v).
Proof.
  unfold optional_str, fits. destruct v as [s|]; [|reflexivity].
  intros L. apply Nat.leb_le in L.
  assert (F : Field_length 0 hi s = true)
    by (apply Field_length_spec; lia).
  now rewrite F.
Qed.

(** X10: a required string that is blank is refused, although it has the
    minimal length.  An optional string that is blank is accepted, when it
    has the maximal length at most, and becomes the empty string, not
    [None]: a body whose other members pass is accepted with a blank
    [state], and with a blank [postal_code]; and a body that is accepted is
    accepted with a blank [state] or [postal_code] in the place of its own,
    the address that comes out differing in that field only.  A [state] or
    [postal_code] above the maximal length is refused. *)
Theorem blank_strings (body : AddressBody) :
  (forall s, Str.strip s = EmptyString ->
     b_street body = Some s \/ b_city body = Some s
     \/ b_country body = Some s ->
     AddressCreate_validate body = None)
  /\ (forall a s, AddressCreate_validate body = Some a ->
        Str.strip s = EmptyString ->
        ((String.length s <= 100)%nat ->
         AddressCreate_validate (with_state body (Some s))
         = Some {| c_street := c_street a; c_city := c_city a;
                   c_state := Some EmptyString; c_country := c_country a;
                   c_postal_code := c_postal_code a;
                   c_latitude := c_latitude a;
                   c_longitude := c_longitude a |})
        /\ ((String.length s <= 20)%nat ->
            AddressCreate_validate (with_postal_code body (Some s))
            = Some {| c_street := c_street a; c_city := c_city a;
                      c_state := c_state a; c_country := c_country a;
                      c_postal_code := Some EmptyString;
                      c_latitude := c_latitude a;
                      c_longitude := c_longitude a |})
        /\ (b_state body = Some s -> c_state a = Some EmptyString)
        /\ (b_postal_code body = Some s -> c_postal_code a = Some EmptyString))
  /\ (forall s,
        ((100 < String.length s)%nat ->
         AddressCreate_validate (with_state body (Some s)) = None)
        /\ ((20 < String.length s)%nat ->
            AddressCreate_validate (with_postal_code body (Some s)) = None))
  /\ (forall street0 city0 country0 other lat lon s,
        (1 <= String.length street0 <= 255)%nat ->
        Str.strip street0 <> EmptyString ->
        (1 <= String.length city0 <= 100)%nat ->
        Str.strip city0 <> EmptyString ->
        (1 <= String.length country0 <= 100)%nat ->
        Str.strip country0 <> EmptyString ->
        valid_coordinate lat lon = true ->
        Str.strip s = EmptyString ->
        ((String.length s <= 100)%nat -> fits 20 other = true ->
         AddressCreate_validate
           {| b_street := Some street0; b_city := Some city0;
              b_state := Some s; b_country := Some country0;
              b_postal_code := other;
              b_latitude := Some lat; b_longitude := Some lon |}
         = Some {| c_street := Str.strip street0; c_city := Str.strip city0;
                   c_state := Some EmptyString;
                   c_country := Str.strip country0;
                   c_postal_code := AddressBase_validate_optional_fields other;
                   c_latitude := lat; c_longitude := lon |})
        /\ ((String.length s <= 20)%nat -> fits 100 other = true ->
            AddressCreate_validate
              {| b_street := Some street0; b_city := Some city0;
                 b_state := other; b_country := Some country0;
                 b_postal_code := Some s;
                 b_latitude := Some lat; b_longitude := Some lon |}
            = Some {| c_street := Str.strip street0;
                      c_city := Str.strip city0;
                      c_state := AddressBase_validate_optional_fields other;
                      c_country := Str.strip country0;
                      c_postal_code := Some EmptyString;
                      c_latitude := lat; c_longitude := lon |})).
Proof.
  split; [|split; [|split]]; cycle 3.
  { intros street0 city0 country0 other lat lon s L1 N1 L2 N2 L3 N3 V B.
    apply valid_coordinate_split in V. destruct V as [[A1 A2] [A3 A4]].
    split; intros L F; unfold AddressCreate_validate;
      cbn [b_street b_city b_state b_country b_postal_code b_latitude
           b_longitude];
      rewrite (required_str_accepts 1 255 street0 L1 N1),
        (required_str_accepts 1 100 city0 L2 N2),
        (required_str_accepts 1 100 country0 L3 N3),
        (optional_str_blank _ s B L), (optional_str_accepts _ other F),
        (required_float_fix _ _ _ A1 A2), (required_float_fix _ _ _ A3 A4);
      reflexivity. }
  - intros s B H.
    destruct (AddressCreate_validate body) as [a|] eqn:V; [|reflexivity].
    destruct (AddressCreate_validate_inv body a V)
      as (Hst & Hci & _ & Hco & _).
    destruct (required_str_Some _ _ _ _ Hst) as (r1 & E1 & S1 & N1).
    destruct (required_str_Some _ _ _ _ Hci) as (r2 & E2 & S2 & N2).
    destruct (required_str_Some _ _ _ _ Hco) as (r3 & E3 & S3 & N3).
    apply nonblank_spec in N1, N2, N3.
    destruct N1 as [N1 _], N2 as [N2 _], N3 as [N3 _].
    destruct H as [H|[H|H]]; rewrite H in *.
    + inversion E1; subst r1. congruence.
    + inversion E2; subst r2. congruence.
    + inversion E3; subst r3. congruence.
  - intros a s V B.
    destruct (AddressCreate_validate_inv body a V)
      as (Hst & Hci & Hsa & Hco & Hpo & Hla & Hlo).
    assert (O : forall hi w, optional_str hi (Some s) = Some w ->
                             w = Some EmptyString).
    { intros hi w. unfold optional_str, AddressBase_validate_optional_fields.
      destruct (Field_length 0 hi s); [|discriminate].
      destruct (s =? EmptyString)%string eqn:E; intros W; inversion W.
      - apply String.eqb_eq in E. now subst.
      - now rewrite B. }
    split; [|split; [|split]].
    + intros L. unfold AddressCreate_validate, with_state.
      cbn [b_street b_city b_state b_country b_postal_code b_latitude
           b_longitude].
      rewrite Hst, Hci, (optional_str_blank 100 s B L), Hco, Hpo, Hla, Hlo.
      reflexivity.
    + intros L. unfold AddressCreate_validate, with_postal_code.
      cbn [b_street b_city b_state b_country b_postal_code b_latitude
           b_longitude].
      rewrite Hst, Hci, Hsa, Hco, (optional_str_blank 20 s B L), Hla, Hlo.
      reflexivity.
    + intros E. rewrite E in Hsa. eapply O; eassumption.
    + intros E. rewrite E in Hpo. eapply O; eassumption.
  - intros s. split; intros L.
    + unfold AddressCreate_validate, with_state.
      cbn [b_street b_city b_state b_country b_postal_code b_latitude
           b_longitude].
      rewrite (optional_str_long 100 s L).
      destruct (required_str 1 255 (b_street body)); [|reflexivity].
      destruct (required_str 1 100 (b_city body)); reflexivity.
    + unfold AddressCreate_validate, with_postal_code.
      cbn [b_street b_city b_state b_country b_postal_code b_latitude
           b_longitude].
      rewrite (optional_str_long 20 s L).
      destruct (required_str 1 255 (b_street body)); [|reflexivity].
      destruct (required_str 1 100 (b_city body)); [|reflexivity].
      destruct (optional_str 100 (b_state body)); [|reflexivity].
      destruct (required_str 1 100 (b_country body)); reflexivity.
Qed.

(** ** Validation of an update *)

Lemma updated_str_not_empty lo hi v w :
  updated_str lo hi AddressUpdate_validate_not_empty v = Some w ->
  sets_null w = sets_null v
  /\ (forall raw, v = Some (Some raw) -> w = Some (Some (Str.strip raw)))
  /\ (forall s, w = Some (Some s) -> nonblank hi s = true)
  /\ ((lo <= 1)%nat ->
      updated_str lo hi AddressUpdate_validate_not_empty w = Some w).
Proof.
  unfold updated_str. destruct v as [[raw|]|].
  - destruct (Field_length lo hi raw) eqn:F; [|discriminate].
    unfold AddressUpdate_validate_not_empty.
    destruct (raw =? EmptyString)%string; [discriminate|]. cbn [orb].
    destruct (Str.strip raw =? EmptyString)%string eqn:E; [discriminate|].
    intros H. inversion H; subst w. split; [reflexivity|].
    apply Field_length_spec in F. pose proof (strip_length raw) as L.
    assert (B : nonblank hi (Str.strip raw) = true).
    { apply nonblank_spec. apply eqb_empty in E.
      split; [exact E|]. split; [apply strip_stripped | lia]. }
    split; [intros r Hr; now inversion Hr|].
    split; [intros s Hs; inversion Hs; subst s; exact B|].
    intros Hlo. rewrite strip_idem, E. cbn [orb].
    assert (F' : Field_length lo hi (Str.strip raw) = true).
    { apply Field_length_spec. split; [|lia].
      apply eqb_empty in E. pose proof (nonempty_length _ E). lia. }
    now rewrite F'.
  - cbn. intros H. inversion H; subst w.
    repeat split; try discriminate; reflexivity.
  - intros H. inversion H; subst w.
    repeat split; try discriminate; reflexivity.
Qed.

Lemma updated_str_verbatim lo hi v w :
  updated_str lo hi (fun w => Ok w) v = Some w ->
  w = v /\ (forall o, w = Some o -> fits hi o = true)
  /\ updated_str lo hi (fun w => Ok w) w = Some w.
Proof.
  unfold updated_str. destruct v as [[raw|]|].
  - destruct (Field_length lo hi raw) eqn:F; [|discriminate].
    intros H. inversion H; subst w. split; [reflexivity|].
    split; [|now rewrite F].
    intros o Ho. inversion Ho; subst o. cbn [fits].
    apply Field_length_spec in F. now apply Nat.leb_le.
  - intros H. inversion H; subst w. split; [reflexivity|].
    split; [|reflexivity]. intros o Ho. now inversion Ho.
  - intros H. inversion H; subst w. split; [reflexivity|].
    split; [discriminate | reflexivity].
Qed.

Lemma updated_float_Some lo hi v w :
  updated_float lo hi v = Some w ->
  w = v /\ (forall x, w = Some (Some x) ->
              (lo <=? x)%float = true /\ (x <=? hi)%float = true)
  /\ updated_float lo hi w = Some w.
Proof.
  unfold updated_float, Field_ge, Field_le. destruct v as [[y|]|].
  - destruct (lo <=? y)%float eqn:A, (y <=? hi)%float eqn:B; cbn;
      try discriminate.
    intros H. inversion H; subst w. split; [reflexivity|].
    split; [|now rewrite A, B].
    intros x Hx. inversion Hx; subst x. auto.
  - intros H. inversion H; subst w. split; [reflexivity|].
    split; [discriminate | reflexivity].
  - intros H. inversion H; subst w. split; [reflexivity|].
    split; [discriminate | reflexivity].
Qed.

(** The fields of a validated update, one by one. *)
Lemma AddressUpdate_validate_inv body u :
  AddressUpdate_validate body = Some u ->
  updated_str 1 255 AddressUpdate_validate_not_empty (u_street body)
  = Some (u_street u)
  /\ updated_str 1 100 AddressUpdate_validate_not_empty (u_city body)
     = Some (u_city u)
  /\ updated_str 0 100 (fun w => Ok w) (u_state body) = Some (u_state u)
  /\ updated_str 1 100 AddressUpdate_validate_not_empty (u_country body)
     = Some (u_country u)
  /\ updated_str 0 20 (fun w => Ok w) (u_postal_code body)
     = Some (u_postal_code u)
  /\ updated_float (-90) 90 (u_latitude body) = Some (u_latitude u)
  /\ updated_float (-180) 180 (u_longitude body) = Some (u_longitude u).
Proof.
  unfold AddressUpdate_validate. intros H.
  apply and_then_Some in H. destruct H as (st & Hst & H).
  apply and_then_Some in H. destruct H as (ci & Hci & H).
  apply and_then_Some in H. destruct H as (sa & Hsa & H).
  apply and_then_Some in H. destruct H as (co & Hco & H).
  apply and_then_Some in H. destruct H as (po & Hpo & H).
  apply and_then_Some in H. destruct H as (la & Hla & H).
  apply and_then_Some in H. destruct H as (lo & Hlo & H).
  inversion H; subst u; clear H.
  cbn [u_street u_city u_state u_country u_postal_code u_latitude u_longitude].
  auto 10.
Qed.

(** What a validated update promises of the fields it sets. *)
Lemma AddressUpdate_validate_fields body u :
  AddressUpdate_validate body = Some u ->
  nulls_required_column u = nulls_required_column body
  /\ (forall s, u_street u = Some (Some s) -> nonblank 255 s = true)
  /\ (forall s, u_city u = Some (Some s) -> nonblank 100 s = true)
  /\ (forall s, u_country u = Some (Some s) -> nonblank 100 s = true)
  /\ (forall o, u_state u = Some o -> fits 100 o = true)
  /\ (forall o, u_postal_code u = Some o -> fits 20 o = true)
  /\ (forall x, u_latitude u = Some (Some x) ->
        (-90 <=? x)%float = true /\ (x <=? 90)%float = true)
  /\ (forall x, u_longitude u = Some (Some x) ->
        (-180 <=? x)%float = true /\ (x <=? 180)%float = true).
Proof.
  intros H. apply AddressUpdate_validate_inv in H.
  destruct H as (Hst & Hci & Hsa & Hco & Hpo & Hla & Hlo).
  apply updated_str_not_empty in Hst, Hci, Hco.
  apply updated_str_verbatim in Hsa, Hpo.
  apply updated_float_Some in Hla, Hlo.
  destruct Hst as (N1 & _ & P1 & _), Hci as (N2 & _ & P2 & _),
    Hco as (N3 & _ & P3 & _), Hsa as (_ & P4 & _), Hpo as (_ & P5 & _),
    Hla as (E6 & P6 & _), Hlo as (E7 & P7 & _).
  split; [|auto 10].
  unfold nulls_required_column. now rewrite N1, N2, N3, E6, E7.
Qed.

(** X11: a body that [AddressUpdate] accepts comes out normalised: a
    street, city or country that it sets to a string is the stripped string,
    not empty and within its length; state and postal code are kept as they
    came, not stripped; a coordinate it sets is in range; [null] passes for
    every field; and the validation of what came out returns it
    unchanged. *)
Theorem validated_update_normalised (body u : AddressUpdate) :
  AddressUpdate_validate body = Some u ->
  nulls_required_column u = nulls_required_column body
  /\ (forall raw, u_street body = Some (Some raw) ->
        u_street u = Some (Some (Str.strip raw)))
  /\ (forall raw, u_city body = Some (Some raw) ->
        u_city u = Some (Some (Str.strip raw)))
  /\ (forall raw, u_country body = Some (Some raw) ->
        u_country u = Some (Some (Str.strip raw)))
  /\ (forall s, u_street u = Some (Some s) -> nonblank 255 s = true)
  /\ (forall s, u_city u = Some (Some s) -> nonblank 100 s = true)
  /\ (forall s, u_country u = Some (Some s) -> nonblank 100 s = true)
  /\ (u_state u = u_state body
      /\ forall o, u_state u = Some o -> fits 100 o = true)
  /\ (u_postal_code u = u_postal_code body
      /\ forall o, u_postal_code u = Some o -> fits 20 o = true)
  /\ (u_latitude u = u_latitude body
      /\ forall x, u_latitude u = Some (Some x) ->
           (-90 <=? x)%float = true /\ (x <=? 90)%float = true)
  /\ (u_longitude u = u_longitude body
      /\ forall x, u_longitude u = Some (Some x) ->
           (-180 <=? x)%float = true /\ (x <=? 180)%float = true)
  /\ AddressUpdate_validate u = Some u.
Proof.
  intros H. destruct (AddressUpdate_validate_fields body u H)
    as (N & B1 & B2 & B3 & _ & _ & _ & _).
  destruct (AddressUpdate_validate_inv body u H)
    as (Hst & Hci & Hsa & Hco & Hpo & Hla & Hlo).
  apply updated_str_not_empty in Hst, Hci, Hco.
  apply updated_str_verbatim in Hsa, Hpo.
  apply updated_float_Some in Hla, Hlo.
  destruct Hst as (_ & R1 & _ & F1), Hci as (_ & R2 & _ & F2),
    Hco as (_ & R3 & _ & F3), Hsa as (E4 & P4 & F4), Hpo as (E5 & P5 & F5),
    Hla as (E6 & P6 & F6), Hlo as (E7 & P7 & F7).
  split; [exact N|].
  split; [exact R1|]. split; [exact R2|]. split; [exact R3|].
  split; [exact B1|]. split; [exact B2|]. split; [exact B3|].
  split; [split; [exact E4 | exact P4]|].
  split; [split; [exact E5 | exact P5]|].
  split; [split; [exact E6 | exact P6]|].
  split; [split; [exact E7 | exact P7]|].
  unfold AddressUpdate_validate.
  rewrite (F1 ltac:(lia)), (F2 ltac:(lia)), F4, (F3 ltac:(lia)), F5, F6, F7.
  cbn [and_then]. now destruct u.
Qed.

(** X12: a body that sets a required column to [null] passes the validation
    of [AddressUpdate]; on a stored address the commit then fails, the
    [IntegrityError] leaves the handler, which has no [try], and the table
    stays as it was. *)
Theorem null_of_required_column_escapes (db : Session) (address_id : Z)
  (body u : AddressUpdate) (a : Address) :
  AddressUpdate_validate body = Some u ->
  nulls_required_column body = true ->
  get_address db address_id = Ok (Some a) ->
  put_address address_id body db = (db, Raise IntegrityError).
Proof.
  intros E N F. unfold put_address. rewrite E.
  destruct (AddressUpdate_validate_fields body u E) as [Nu _].
  unfold Routes.update_address.
  rewrite (update_address_found _ _ u _ F), apply_update_eq, Nu, N.
  reflexivity.
Qed.

End EndpointProofs.

(** * What every stored row satisfies *)

Module InvariantProofs.
Import StrFacts ModelProofs StoreFacts StoreProofs EndpointProofs.

Lemma validation_error_not_Response {A : Type} l (x : A) :
  validation_error l <> Response x.
Proof. unfold validation_error. destruct (forallb is_finite l); discriminate. Qed.

Lemma well_formed_read_back a : well_formed (read_back a) = well_formed a.
Proof.
  unfold well_formed, read_back. cbn [street city state country postal_code
    latitude longitude]. now rewrite valid_coordinate_sqlite_real.
Qed.

Lemma well_formed_created i body address0 engine :
  AddressCreate_validate body = Some address0 ->
  well_formed {| id := i; street := c_street address0;
                 city := c_city address0; state := c_state address0;
                 country := c_country address0;
                 postal_code := c_postal_code address0;
                 latitude := sqlite_real (c_latitude address0);
                 longitude := sqlite_real (c_longitude address0);
                 created_at := created_default engine;
                 updated_at := updated_default engine |} = true.
Proof.
  intros V. destruct (AddressCreate_validate_fields _ _ V)
    as (W1 & W2 & W3 & W4 & W5 & W6).
  unfold well_formed. cbn [street city state country postal_code latitude
    longitude]. rewrite valid_coordinate_sqlite_real.
  now rewrite W1, W2, W3, W4, W5, W6.
Qed.

Lemma requested_cases {T} (P : T -> Prop) (old : T) v :
  P old -> (forall x, v = Some (Some x) -> P x) -> P (requested old v).
Proof. destruct v as [[x|]|]; cbn; auto. Qed.

Lemma set_nullable_cases {T} (P : option T -> Prop) (old : option T) v :
  P old -> (forall w, v = Some w -> P w) -> P (set_nullable old v).
Proof. destruct v as [w|]; cbn; auto. Qed.

Lemma well_formed_updated now a body u :
  AddressUpdate_validate body = Some u -> well_formed a = true ->
  well_formed (read_back (stamped now (requested_row a u))) = true.
Proof.
  intros V W. rewrite well_formed_read_back.
  unfold well_formed in W. rewrite !andb_true_iff in W.
  destruct W as [[[[[W1 W2] W3] W4] W5] W6].
  destruct (AddressUpdate_validate_fields _ _ V)
    as (_ & U1 & U2 & U3 & U4 & U5 & U6 & U7).
  apply valid_coordinate_split in W6. destruct W6 as [Wlat Wlon].
  unfold well_formed. cbn [stamped requested_row street city state country
    postal_code latitude longitude]. rewrite !andb_true_iff.
  repeat split.
  - now apply (requested_cases (fun s => nonblank 255 s = true)).
  - now apply (requested_cases (fun s => nonblank 100 s = true)).
  - now apply (requested_cases (fun s => nonblank 100 s = true)).
  - now apply (set_nullable_cases (fun o => fits 100 o = true)).
  - now apply (set_nullable_cases (fun o => fits 20 o = true)).
  - apply valid_coordinate_split. split.
    + now apply (requested_cases
                   (fun x => (-90 <=? x)%float = true
                             /\ (x <=? 90)%float = true)).
    + now apply (requested_cases
                   (fun x => (-180 <=? x)%float = true
                             /\ (x <=? 180)%float = true)).
Qed.

Lemma Forall_replace_row (P : Address -> Prop) i a' l :
  P a' -> Forall P l -> Forall P (replace_row i a' l).
Proof.
  intros Ha H. unfold replace_row. apply Forall_map.
  eapply Forall_impl; [|exact H]. intros b Hb. now destruct (id b =? i)%Z.
Qed.

Lemma Forall_filter_keep {A} (P : A -> Prop) (p : A -> bool) l :
  Forall P l -> Forall P (filter p l).
Proof.
  rewrite !Forall_forall. intros H x Hx. apply filter_In in Hx. now apply H.
Qed.

(** X13: the endpoints that write keep every row of the table well formed:
    not empty, stripped street, city and country within their lengths, state
    and postal code within theirs, and a coordinate in range.  What [POST
    /addresses] and [PUT /addresses/{address_id}] return is well formed
    too. *)
Theorem well_formed_kept (db : Session) :
  forallb well_formed (rows db) = true ->
  (forall body engine,
     forallb well_formed (rows (fst (post_addresses body db engine))) = true
     /\ forall a, snd (post_addresses body db engine) = Response a ->
                  well_formed a = true)
  /\ (forall address_id body,
        forallb well_formed (rows (fst (put_address address_id body db)))
        = true
        /\ forall a, snd (put_address address_id body db) = Ok (Response a) ->
                     well_formed a = true)
  /\ (forall address_id,
        forallb well_formed (rows (fst (Routes.delete_address address_id db)))
        = true).
Proof.
  setoid_rewrite forallb_forall. setoid_rewrite <- Forall_forall.
  intros W. split; [|split].
  - intros body engine. unfold post_addresses.
    destruct (AddressCreate_validate body) as [address0|] eqn:V;
      [|split; [exact W | intros a E; cbn [snd] in E;
                          now apply validation_error_not_Response in E]].
    unfold Routes.create_address, create_address.
    destruct (new_rowid (rows db) (random_rowid engine)) as [i|];
      [|split; [exact W | discriminate]].
    cbn [fst snd rows].
    pose proof (well_formed_created i body address0 engine V) as Wa. split.
    + apply (Permutation_Forall (Permutation_sym (insert_row_perm _ _))).
      now constructor.
    + intros a E. inversion E; subst a. exact Wa.
  - intros i body. unfold put_address.
    destruct (AddressUpdate_validate body) as [u|] eqn:V;
      [|split; [exact W | intros a E; cbn [snd] in E; inversion E as [E'];
                          now apply validation_error_not_Response in E']].
    unfold Routes.update_address, update_address.
    destruct (get_address db i) as [[a|]|e] eqn:F;
      [|split; [exact W | discriminate]..].
    assert (Wa : well_formed a = true).
    { rewrite Forall_forall in W. apply W. now apply get_address_Some in F. }
    rewrite apply_update_eq.
    destruct (nulls_required_column u); [split; [exact W | discriminate]|].
    destruct (same_columns a (requested_row a u)); cbn [fst snd rows].
    + split; [now apply Forall_replace_row|].
      intros a' E. inversion E; subst a'. exact Wa.
    + pose proof (well_formed_updated (utcnow db) a body u V Wa) as Wa'.
      split; [now apply Forall_replace_row|].
      intros a' E. inversion E; subst a'. exact Wa'.
  - intros i. unfold Routes.delete_address, delete_address.
    destruct (get_address db i) as [[a|]|e]; cbn [fst rows]; try exact W.
    now apply Forall_filter_keep.
Qed.

End InvariantProofs.

(** * Pages of the table *)

Module PageProofs.
Open Scope Z_scope.

Lemma firstn_add {A} n m (l : list A) :
  firstn (n + m) l = firstn n l ++ firstn m (skipn n l).
Proof.
  revert l. induction n as [|n IH]; intros l; [reflexivity|].
  destruct l as [|x l]; cbn [Nat.add firstn skipn app].
  - now rewrite firstn_nil.
  - now rewrite IH.
Qed.

Lemma sqlite_int64_range n : 0 <= n < 2 ^ 63 -> sqlite_int64 n = true.
Proof.
  intros H. unfold sqlite_int64. apply andb_true_iff.
  split; [apply Z.leb_le | apply Z.ltb_lt]; lia.
Qed.

Lemma get_addresses_range db skip limit :
  0 <= skip < 2 ^ 63 -> 0 <= limit < 2 ^ 63 ->
  get_addresses db skip limit
  = Ok (firstn (Z.to_nat limit) (skipn (Z.to_nat skip) (rows db))).
Proof.
  intros Hs Hl. unfold get_addresses.
  rewrite (sqlite_int64_range _ Hs), (sqlite_int64_range _ Hl). cbn [andb].
  assert (E : (limit <? 0) = false) by (apply Z.ltb_ge; lia).
  now rewrite E.
Qed.

(** X14: two consecutive pages make the page of their joint size: the page
    of [n] rows after [skip] rows, followed by the page of [m] rows after
    [skip + n] rows, is the page of [n + m] rows after [skip] rows; and the
    page of all the rows from the start is the table. *)
Theorem pages_concatenate (db : Session) (skip n m : Z) :
  0 <= skip -> 0 <= n -> 0 <= m -> skip + n + m < 2 ^ 63 ->
  exists p1 p2,
    get_addresses db skip n = Ok p1
    /\ get_addresses db (skip + n) m = Ok p2
    /\ get_addresses db skip (n + m) = Ok (p1 ++ p2)
    /\ (Z.of_nat (List.length (rows db)) <= n -> skip = 0 -> p1 = rows db).
Proof.
  intros Hs Hn Hm H.
  rewrite !get_addresses_range by lia.
  eexists _, _. split; [reflexivity|]. split; [reflexivity|]. split.
  - rewrite !Z2Nat.inj_add by lia. rewrite firstn_add.
    now rewrite skipn_skipn, (Nat.add_comm (Z.to_nat n)).
  - intros L ->. cbn [Z.to_nat skipn]. apply firstn_all2. lia.
Qed.

(** X15: [GET /addresses] answers 422 when [skip] is negative or [limit] is
    outside [1, 1000], and 500 when [skip] is an integer that SQLite does
    not store; otherwise it answers the rows that follow the first [skip]
    ones, in the order of the table, [limit] of them at most, and none when
    [skip] is the number of rows or more.  Without parameters it answers
    the first 100 rows. *)
Theorem page_of_addresses (skip limit : Z) (db : Session) :
  ((skip < 0 \/ limit < 1 \/ 1000 < limit) ->
   get_addresses_page (Some skip) (Some limit) db = HTTPException 422)
  /\ (2 ^ 63 <= skip -> 1 <= limit <= 1000 ->
      get_addresses_page (Some skip) (Some limit) db = HTTPException 500)
  /\ (0 <= skip < 2 ^ 63 -> 1 <= limit <= 1000 ->
      exists page before after,
        get_addresses_page (Some skip) (Some limit) db = Response page
        /\ rows db = before ++ page ++ after
        /\ List.length before = Nat.min (Z.to_nat skip) (List.length (rows db))
        /\ (List.length page <= Z.to_nat limit)%nat
        /\ (Z.of_nat (List.length (rows db)) <= skip -> page = [])
        /\ (after <> [] -> List.length page = Z.to_nat limit))
  /\ get_addresses_page None None db = Response (firstn 100 (rows db)).
Proof.
  unfold get_addresses_page, Routes.get_addresses.
  split; [|split; [|split]].
  - intros H.
    assert (E : (0 <=? skip) && (1 <=? limit) && (limit <=? 1000) = false).
    { rewrite !andb_false_iff, !Z.leb_gt. lia. }
    now rewrite E.
  - intros Hs Hl.
    assert (E : (0 <=? skip) && (1 <=? limit) && (limit <=? 1000) = true).
    { rewrite !andb_true_iff, !Z.leb_le. lia. }
    rewrite E. unfold get_addresses.
    assert (S : sqlite_int64 skip = false).
    { unfold sqlite_int64. apply andb_false_iff. right. apply Z.ltb_ge. lia. }
    now rewrite S.
  - intros Hs Hl.
    assert (E : (0 <=? skip) && (1 <=? limit) && (limit <=? 1000) = true).
    { rewrite !andb_true_iff, !Z.leb_le. lia. }
    rewrite E, get_addresses_range by lia.
    set (s := Z.to_nat skip). set (n := Z.to_nat limit).
    exists (firstn n (skipn s (rows db))), (firstn s (rows db)),
      (skipn n (skipn s (rows db))).
    split; [reflexivity|]. split; [|split; [|split; [|split]]].
    + now rewrite !firstn_skipn.
    + apply length_firstn.
    + rewrite length_firstn. lia.
    + intros L. rewrite skipn_all2 by (unfold s; lia). apply firstn_nil.
    + intros N. rewrite length_firstn.
      destruct (Nat.le_gt_cases n (List.length (skipn s (rows db))))
        as [G|G]; [lia|].
      elim N. apply skipn_all2. lia.
  - cbn. unfold get_addresses. cbn. reflexivity.
Qed.

End PageProofs.

(** * The nearby endpoint over the store *)

Module NearbyProofs.
Import FloatFacts FloatArith LoopFacts ProximityProofs DistanceProofs
  RangeProofs StoreFacts StoreProofs InvariantProofs.
Open Scope float_scope.

Section WithLibm.
Variable L : libm.

Lemma returns_dec {A} (l : list A) (f : A -> result float) :
  Forall (fun a => returns (f a) = true) l
  \/ Exists (fun a => returns (f a) = false) l.
Proof.
  induction l as [|a l [IH|IH]].
  - left. constructor.
  - destruct (returns (f a)) eqn:E.
    + left. now constructor.
    + right. now constructor.
  - right. now constructor 2.
Qed.

Lemma nearby_body_returns location db :
  Forall (fun a => returns (distance_to L (q_latitude location)
                              (q_longitude location) a) = true) (rows db) ->
  returns (nearby_body L location db) = true.
Proof.
  intros F.
  assert (H : get_addresses_within_radius L db (q_latitude location)
                (q_longitude location) (q_radius_km location)
              = Ok (filter (within_radius L (q_latitude location)
                              (q_longitude location) (q_radius_km location))
                      (rows db))).
  { unfold get_addresses_within_radius, query_all.
    now rewrite (radius_loop_returns L _ _ _ (rows db) [] F). }
  destruct (ranking L _ _ _ H) as (annotated & _ & _ & _ & ->). reflexivity.
Qed.

(** X16: the nearby handler answers 500 exactly when the distance
    calculator raises on some row of the table, whatever the radius and
    however far that row is; it answers with no other error. *)
Theorem nearby_fails_iff (location : LocationQuery) (db : Session) :
  (get_nearby_addresses L location db = HTTPException 500%Z
   <-> Exists (fun a => returns (distance_to L (q_latitude location)
                                   (q_longitude location) a) = false)
         (rows db))
  /\ (forall status_code,
        get_nearby_addresses L location db = HTTPException status_code ->
        status_code = 500%Z).
Proof.
  split.
  - split.
    + intros H.
      destruct (returns_dec (rows db)
                  (distance_to L (q_latitude location) (q_longitude location)))
        as [F|E]; [|exact E].
      apply (nearby_body_returns location db) in F.
      unfold get_nearby_addresses in H.
      destruct (nearby_body L location db); discriminate.
    + intros E. unfold get_nearby_addresses, nearby_body.
      pose proof (radius_filter_raises L db (q_latitude location)
                    (q_longitude location) (q_radius_km location) E) as R.
      now destruct (get_addresses_within_radius L db (q_latitude location)
                      (q_longitude location) (q_radius_km location)).
  - intros c. unfold get_nearby_addresses.
    destruct (nearby_body L location db); intros H; inversion H. reflexivity.
Qed.

Lemma nearby_response location db out :
  get_nearby_addresses L location db = Response out ->
  exists annotated,
    out = Builtins.sort distance_km annotated
    /\ Forall2 (annotates L location)
         (filter (within_radius L (q_latitude location)
                    (q_longitude location) (q_radius_km location)) (rows db))
         annotated
    /\ Forall (fun e => is_nan (distance_km e) = false) annotated.
Proof.
  unfold get_nearby_addresses. intros H.
  destruct (nearby_body L location db) as [out'|] eqn:B; [|discriminate].
  inversion H; subst out'. clear H.
  unfold nearby_body in B. apply bind_Ok in B.
  destruct B as (filtered & Hf & B).
  destruct (ranking L _ _ _ Hf) as (annotated & _ & F & N & B').
  unfold nearby_body in B'. rewrite Hf in B'. cbn [bind] in B'.
  rewrite B' in B. inversion B; subst out.
  destruct (filtered_within L _ _ _ Hf) as [E _]. rewrite <- E.
  exists annotated. auto.
Qed.

Lemma annotates_within location l l' :
  Forall2 (annotates L location) l l' ->
  Forall (fun a => within_radius L (q_latitude location)
                     (q_longitude location) (q_radius_km location) a = true)
    l ->
  Forall (fun e =>
            exists d, distance_to L (q_latitude location)
                        (q_longitude location) (address e) = Ok d
                      /\ (d <=? q_radius_km location) = true
                      /\ distance_km e = Builtins.round d 2) l'.
Proof.
  induction 1 as [|a e l l' Ha _ IH]; intros W; constructor;
    inversion W as [|? ? Wa W']; subst.
  - destruct Ha as [a d Hd]. apply within_radius_spec in Wa.
    destruct Wa as (d' & Hd' & Hle). rewrite Hd in Hd'. inversion Hd'; subst d'.
    exists d. auto.
  - auto.
Qed.

(** X17: when the nearby handler answers, its answer lists the rows of the
    table whose distance to the reference point is at most the radius, each
    once per row, with the distance rounded to two places, in
    non-decreasing order of the rounded distance. *)
Theorem nearby_answer (location : LocationQuery) (db : Session)
  (out : list AddressWithDistance) :
  get_nearby_addresses L location db = Response out ->
  Permutation (map address out)
    (filter (within_radius L (q_latitude location) (q_longitude location)
               (q_radius_km location)) (rows db))
  /\ StronglySorted distance_le out
  /\ Forall (fun e =>
               exists d, distance_to L (q_latitude location)
                           (q_longitude location) (address e) = Ok d
                         /\ (d <=? q_radius_km location) = true
                         /\ distance_km e = Builtins.round d 2) out.
Proof.
  intros H. destruct (nearby_response _ _ _ H) as (annotated & -> & F & N).
  split; [|split].
  - rewrite <- (annotates_map L location _ _ F).
    apply Permutation_map, sort_perm.
  - apply (sort_sorted _ distance_km annotated N).
  - apply (Permutation_Forall (Permutation_sym (sort_perm _ distance_km _))).
    apply (annotates_within _ _ _ F). apply Forall_forall.
    intros a Ha. now apply filter_In in Ha.
Qed.

(** X18: a wider radius loses no address: what the filter returns for a
    radius is what it keeps, for that radius, of what it returns for any
    larger one. *)
Theorem wider_radius_keeps (db : Session) (lat lon r1 r2 : float)
  (out1 : list Address) :
  (r1 <=? r2) = true ->
  get_addresses_within_radius L db lat lon r1 = Ok out1 ->
  exists out2,
    get_addresses_within_radius L db lat lon r2 = Ok out2
    /\ out1 = filter (within_radius L lat lon r1) out2
    /\ incl out1 out2.
Proof.
  intros R H. destruct (radius_filter_inv L _ _ _ _ _ H) as [-> F].
  exists (filter (within_radius L lat lon r2) (rows db)).
  assert (E : filter (within_radius L lat lon r1) (rows db)
              = filter (within_radius L lat lon r1)
                  (filter (within_radius L lat lon r2) (rows db))).
  { rewrite filter_filter. apply filter_ext. intros a. unfold within_radius.
    destruct (distance_to L lat lon a) as [d|]; [|reflexivity].
    destruct (d <=? r1) eqn:D; [|now rewrite andb_false_r].
    now rewrite (leb_trans _ _ _ D R). }
  split; [|split].
  - unfold get_addresses_within_radius, query_all.
    now rewrite (radius_loop_returns L _ _ _ (rows db) [] F).
  - exact E.
  - rewrite E. intros a Ha. now apply filter_In in Ha.
Qed.

(** The distance of a valid coordinate to itself. *)
Lemma distance_to_self lat lon :
  valid_coordinate lat lon = true ->
  c_sin L 0 = 0 ->
  (abs (c_cos L (Math.radians lat)) <=? 1) = true ->
  calculate_distance L lat lon lat lon = Ok 0.
Proof.
  intros V S C.
  destruct (valid_latitude_mag lat lon V) as [Mlat Mlon].
  unfold calculate_distance. rewrite haversine_a_unfold.
  rewrite (half_difference_diag lat 7 Mlat ltac:(lia)).
  rewrite (half_difference_diag lon 8 Mlon ltac:(lia)).
  rewrite (sin_pow_zero L S).
  set (c := c_cos L (Math.radians lat)) in *.
  assert (Mc : mag_le 1 (Prim2SF c)).
  { apply (abs_leb_mag c 1 _ _ Prim2SF_one C). }
  destruct (mag_le_classify _ _ Mc) as (Nc & Ic & _).
  unfold Math.cos. fold c. rewrite (math_1_ok (c_cos L) _ Nc Ic). fold c.
  assert (Mcc : mag_le 3 (Prim2SF (c * c))).
  { apply (mul_mag c c 1 1 Mc Mc). lia. }
  assert (Scc : sign_is false (Prim2SF (c * c))).
  { assert (Sc : exists s, sign_is s (Prim2SF c)).
    { apply is_nan_false in Nc. destruct (Prim2SF c) as [s|s| |s m e]; cbn;
        try congruence; eauto. }
    destruct Sc as [s Sc].
    replace false with (xorb s s) by (now destruct s).
    eapply mul_sign; eassumption. }
  assert (Z : c * c * 0 = 0).
  { apply Prim2SF_inj. rewrite (mul_zero_r (c * c) false 3 Scc Mcc).
    reflexivity. }
  rewrite Z. change (0 + 0) with 0. cbn [bind].
  apply central_distance_zero.
Qed.

Lemma Forall2_In_l {A B} (R : A -> B -> Prop) l l' a :
  Forall2 R l l' -> In a l -> exists b, In b l' /\ R a b.
Proof.
  induction 1 as [|x y l l' Hxy _ IH]; intros Ha; [contradiction|].
  destruct Ha as [->|Ha].
  - exists y. split; [now left | exact Hxy].
  - destruct (IH Ha) as (b & Hb & Rb). exists b. split; [now right | exact Rb].
Qed.

(** X19: an address that [POST /addresses] has stored is found by the
    nearby query at its own coordinate, for every radius, with the distance
    0; this where the distance calculator returns on the rows that were
    there, the C library's sine is exact at 0 and its cosine of the latitude
    is of magnitude 1 at most. *)
Theorem created_address_is_nearby (db db' : Session) (body : AddressBody)
  (engine : Insert) (a : Address) (radius_km : float) :
  post_addresses body db engine = (db', Response a) ->
  (0 <? radius_km) = true ->
  Forall (fun b => returns (distance_to L (latitude a) (longitude a) b) = true)
    (rows db) ->
  c_sin L 0 = 0 ->
  (abs (c_cos L (Math.radians (latitude a))) <=? 1) = true ->
  exists out,
    post_addresses_nearby L (latitude a) (longitude a) radius_km db'
    = Response out
    /\ In {| address := a; distance_km := 0 |} out.
Proof.
  intros P R F S C. unfold post_addresses in P.
  destruct (AddressCreate_validate body) as [address0|] eqn:V;
    [|inversion P as [[E1 E2]];
      now apply InvariantProofs.validation_error_not_Response in E2].
  destruct (ModelProofs.AddressCreate_validate_fields _ _ V)
    as (_ & _ & _ & _ & _ & Vc).
  rewrite <- StoreFacts.valid_coordinate_sqlite_real in Vc.
  unfold Routes.create_address, create_address in P.
  destruct (new_rowid (rows db) (random_rowid engine)) as [i|];
    [|discriminate].
  inversion P; subst db' a; clear P.
  cbn [latitude longitude rows] in *.
  set (a := {| id := i; street := c_street address0 |}) in *.
  set (lat := sqlite_real (c_latitude address0)) in *.
  set (lon := sqlite_real (c_longitude address0)) in *.
  assert (D : distance_to L lat lon a = Ok 0)
    by (apply distance_to_self; assumption).
  set (db' := {| rows := insert_row a (rows db); utcnow := utcnow db |}).
  set (location := {| q_latitude := lat; q_longitude := lon;
                      q_radius_km := radius_km |}).
  assert (Q : LocationQuery_validate lat lon radius_km = Some location).
  { unfold LocationQuery_validate, Field_ge, Field_le, Field_gt.
    unfold valid_coordinate in Vc. now rewrite Vc, R. }
  assert (F' : Forall (fun b => returns (distance_to L lat lon b) = true)
                 (rows db')).
  { apply (Permutation_Forall (Permutation_sym (insert_row_perm a (rows db)))).
    constructor; [now rewrite D | exact F]. }
  unfold post_addresses_nearby. rewrite Q.
  pose proof (nearby_body_returns location db' F') as B.
  unfold get_nearby_addresses at 1.
  destruct (nearby_body L location db') as [out|] eqn:E; [|discriminate].
  exists out. split; [reflexivity|].
  assert (H : get_nearby_addresses L location db' = Response out)
    by (unfold get_nearby_addresses; now rewrite E).
  destruct (nearby_response _ _ _ H) as (annotated & -> & A & _).
  apply (Permutation_in _ (Permutation_sym (sort_perm _ distance_km _))).
  assert (I : In a (filter (within_radius L lat lon radius_km) (rows db'))).
  { apply filter_In. split.
    - apply (Permutation_in _ (Permutation_sym (insert_row_perm a (rows db)))).
      now left.
    - unfold within_radius. rewrite D. now apply ltb_leb. }
  destruct (Forall2_In_l _ _ _ _ A I) as (e & He & Ae).
  destruct Ae as [a0 d Hd]. cbn [q_latitude q_longitude location] in Hd.
  rewrite D in Hd. inversion Hd; subst d. exact He.
Qed.

(** X20: an address that was deleted is in no answer of the nearby
    handler. *)
Theorem deleted_is_not_nearby (db : Session) (address_id : Z)
  (location : LocationQuery) (out : list AddressWithDistance) :
  get_nearby_addresses L location (fst (delete_address db address_id))
  = Response out ->
  Forall (fun e => id (address e) <> address_id) out.
Proof.
  intros H. destruct (nearby_answer _ _ _ H) as (P & _ & _).
  apply Forall_forall. intros e He Hi.
  assert (I : In (address e)
                (rows (fst (delete_address db address_id)))).
  { apply (in_map address) in He. apply (Permutation_in _ P) in He.
    now apply filter_In in He. }
  unfold delete_address in I.
  destruct (get_address db address_id) as [[a|]|x] eqn:F; cbn [fst rows] in I.
  - apply filter_In in I. destruct I as [_ I].
    apply get_address_Some in F. destruct F as [_ F].
    rewrite F, Hi, Z.eqb_refl in I. discriminate.
  - apply get_address_None in F. destruct F as [F _]. elim F.
    rewrite <- Hi. now apply in_map.
  - apply get_address_Raise in F. destruct F as [F _]. elim F.
    rewrite <- Hi. now apply in_map.
Qed.

(** X21: [calculate_distance] raises exactly when the [a] it computed is
    negative or exceeds 1 (and it is [ValueError] that it raises), where the
    C library's [atan2] answers the square roots of an [a] of [[0, 1]] by an
    angle of [[0, 2]]. *)
Theorem distance_raises_iff (lat1 lon1 lat2 lon2 a : float) :
  haversine_a L lat1 lon1 lat2 lon2 = Ok a ->
  is_nan a = false ->
  ((0 <=? a) = true -> (a <=? 1) = true ->
   atan2_in_range L (sqrt a) (sqrt (1 - a)) = true) ->
  (returns (calculate_distance L lat1 lon1 lat2 lon2) = false
   <-> (a <? 0) = true \/ (1 <? a) = true)
  /\ ((a <? 0) = true \/ (1 <? a) = true ->
      calculate_distance L lat1 lon1 lat2 lon2 = Raise ValueError).
Proof.
  intros Ha N T. unfold calculate_distance. rewrite Ha. cbn [bind].
  assert (Neg : (a <? 0) = true -> central_distance L a = Raise ValueError).
  { intros H. unfold central_distance.
    rewrite math_sqrt_negative; [reflexivity|].
    rewrite ltb_spec, Prim2SF_zero in H. unfold SFltb in H.
    destruct (Prim2SF a) as [s|s| |s m e]; try destruct s; cbn in *;
      try discriminate; exact I. }
  assert (R : (a <? 0) = true \/ (1 <? a) = true ->
              central_distance L a = Raise ValueError).
  { intros [H|H]; [now apply Neg | now apply central_distance_overshoot]. }
  split; [|exact R]. split.
  - intros E.
    destruct (a <? 0) eqn:A0; [now left|].
    destruct (1 <? a) eqn:A1; [now right|].
    assert (N1 : is_nan 1 = false) by reflexivity.
    assert (N0 : is_nan 0 = false) by reflexivity.
    pose proof (leb_total 0 a N0 N A0) as H0.
    pose proof (leb_total a 1 N N1 A1) as H1.
    destruct (central_distance_in_range L a H0 H1 (T H0 H1)) as (d & Ed & _).
    rewrite Ed in E. discriminate.
  - intros H. now rewrite (R H).
Qed.

End WithLibm.

End NearbyProofs.

(** * The statements on sample data *)

Module StoreExamples.
Import StoreProofs EndpointProofs InvariantProofs PageProofs NearbyProofs.
Open Scope float_scope.
Open Scope string_scope.

Lemma create_then_get_witness :
  (exists db' a,
     create_address Sample.equator_db Fixtures.office Fixtures.engine
     = (db', Some a)
     /\ rows db' = (rows Sample.equator_db ++ [a])%list
     /\ ~ In (id a) (map id (rows Sample.equator_db))
     /\ (street a, city a, state a, country a, postal_code a)
        = ("10 Downing Street", "London", Some EmptyString, "United Kingdom",
           Some "SW1A 2AA")
     /\ (created_at a, updated_at a) = (1700000200, 1700000200)%Z
     /\ latitude a = fst Sample.london
     /\ longitude a = snd Sample.london
     /\ get_address db' (id a) = Ok (Some a)
     /\ (forall i, i <> id a ->
           get_address db' i = get_address Sample.equator_db i))
  /\ (exists db' a,
        create_address Sample.equator_db Fixtures.on_equator Fixtures.engine
        = (db', Some a)
        /\ c_latitude Fixtures.on_equator = (- 0)%float
        /\ latitude a = 0%float
        /\ (latitude a =? - 0)%float = true
        /\ longitude a = c_longitude Fixtures.on_equator).
Proof.
  assert (R : has_room Sample.equator_db).
  { repeat (apply Forall_cons; [reflexivity|]). apply Forall_nil. }
  split.
  - destruct (create_then_get Sample.equator_db Fixtures.office
                Fixtures.engine R)
      as (db' & a & C & E & N & S & T & La & _ & Lo & _ & _ & _ & G & O).
    exists db', a.
    split; [exact C|]. split; [exact E|]. split; [exact N|].
    split; [exact S|]. split; [exact T|].
    split; [exact (La eq_refl)|]. split; [exact (Lo eq_refl)|].
    split; [exact G | exact O].
  - destruct (create_then_get Sample.equator_db Fixtures.on_equator
                Fixtures.engine R)
      as (db' & a & C & _ & _ & _ & _ & _ & La & Lo & _ & Le & _).
    exists db', a.
    split; [exact C|]. split; [reflexivity|].
    split; [exact (La eq_refl)|]. split; [exact (Le eq_refl)|].
    exact (Lo eq_refl).
Defined.

Lemma create_then_delete_witness :
  exists db1 a db2,
    create_address Sample.equator_db Fixtures.office Fixtures.engine
    = (db1, Some a)
    /\ delete_address db1 (id a) = (db2, Ok true)
    /\ rows db2 = rows Sample.equator_db
    /\ forall address1 engine1,
         exists db3 a',
           create_address db2 address1 engine1 = (db3, Some a')
           /\ id a' = id a.
Proof.
  apply (create_then_delete Sample.equator_db Fixtures.office Fixtures.engine).
  repeat (apply Forall_cons; [reflexivity|]). apply Forall_nil.
Defined.

Lemma delete_then_gone_witness :
  exists db',
    Routes.delete_address 2 Sample.equator_db = (db', Ok (Response tt))
    /\ ~ In 2%Z (map id (rows db'))
    /\ Routes.get_address 2 db' = Ok (HTTPException 404%Z)
    /\ Routes.delete_address 2 db' = (db', Ok (HTTPException 404%Z))
    /\ (forall i, i <> 2%Z ->
          get_address db' i = get_address Sample.equator_db i)
    /\ (primary_key Sample.equator_db ->
        exists before after,
          rows Sample.equator_db = (before ++ Sample.east1 :: after)%list
          /\ rows db' = (before ++ after)%list).
Proof.
  destruct (delete_then_gone Sample.equator_db 2 Sample.east1 eq_refl)
    as (db' & D & A & G & O & K).
  destruct (G eq_refl) as [G1 G2].
  exists db'. split; [exact D|]. split; [exact A|]. split; [exact G1|].
  split; [exact G2|]. split; [exact O | exact K].
Defined.

Lemma update_then_get_witness :
  exists db' a',
    update_address Sample.equator_db 2 Sample.move_north
    = (db', Ok (Some a'))
    /\ get_address db' 2 = Ok (Some a')
    /\ id a' = 2%Z /\ city a' = "Shelbyville" /\ street a' = "1 Main Street"
    /\ (latitude a' =? 9)%float = true.
Proof.
  destruct (update_then_get Sample.equator_db 2 Sample.move_north Sample.east1
              eq_refl eq_refl)
    as (db' & a' & U & G & _ & _ & I & _ & S & C & _ & _ & _ & La & _).
  exists db', a'. repeat split; try assumption. now apply La.
Defined.

Lemma update_again_witness :
  update_address (at_time 1700009999 Fixtures.moved_db) 2 Sample.move_north
  = (at_time 1700009999 Fixtures.moved_db, Ok (Some Fixtures.moved)).
Proof.
  apply (update_again Sample.equator_db Fixtures.moved_db 2 1700009999
           Sample.move_north Fixtures.moved); reflexivity.
Defined.

Lemma empty_update_changes_nothing_witness :
  update_address Sample.equator_db 2 empty_update
  = (Sample.equator_db, Ok (Some Sample.east1)).
Proof.
  apply (empty_update_changes_nothing Sample.equator_db 2 Sample.east1);
    try reflexivity.
  unfold primary_key. cbn.
  repeat (apply SSorted_cons;
          [|repeat (apply Forall_cons; [reflexivity|]); apply Forall_nil]).
  apply SSorted_nil.
Defined.

Lemma primary_key_kept_witness :
  primary_key
    (fst (create_address Sample.equator_db Fixtures.office Fixtures.engine))
  /\ primary_key (fst (update_address Sample.equator_db 2 Sample.move_north))
  /\ primary_key (fst (delete_address Sample.equator_db 2)).
Proof.
  assert (K : primary_key Sample.equator_db).
  { unfold primary_key. cbn.
    repeat (apply SSorted_cons;
            [|repeat (apply Forall_cons; [reflexivity|]); apply Forall_nil]).
    apply SSorted_nil. }
  assert (R : has_room Sample.equator_db).
  { repeat (apply Forall_cons; [reflexivity|]). apply Forall_nil. }
  destruct (primary_key_kept Sample.equator_db K) as (C & U & D & _).
  split; [exact (C Fixtures.office Fixtures.engine R)|].
  split; [exact (U 2%Z Sample.move_north) | exact (D 2%Z)].
Defined.

Lemma not_found_iff_absent_witness :
  (update_address Sample.equator_db 7 Sample.move_north
   = (Sample.equator_db, Ok None)
   /\ delete_address Sample.equator_db 7 = (Sample.equator_db, Ok false)
   /\ Routes.get_address 7 Sample.equator_db = Ok (HTTPException 404%Z)
   /\ snd (Routes.update_address 7 Sample.move_north Sample.equator_db)
      = Ok (HTTPException 404%Z)
   /\ snd (Routes.delete_address 7 Sample.equator_db)
      = Ok (HTTPException 404%Z))
  /\ (update_address Sample.equator_db (2 ^ 63) Sample.move_north
      = (Sample.equator_db, Raise OverflowError)
      /\ delete_address Sample.equator_db (2 ^ 63)
         = (Sample.equator_db, Raise OverflowError)
      /\ Routes.get_address (2 ^ 63) Sample.equator_db = Raise OverflowError
      /\ snd (Routes.update_address (2 ^ 63) Sample.move_north
                Sample.equator_db) = Raise OverflowError
      /\ snd (Routes.delete_address (2 ^ 63) Sample.equator_db)
         = Raise OverflowError).
Proof.
  assert (A : forall i : Z, (4 < i)%Z -> ~ In i (map id (rows Sample.equator_db))).
  { intros i Hi. cbn. intros [H|[H|[H|[H|[]]]]]; lia. }
  split.
  - destruct (not_found_iff_absent Sample.equator_db 7 Sample.move_north)
      as (U & G & P & D & _).
    destruct (U (A 7%Z eq_refl)) as (C & _).
    destruct (C eq_refl) as [C1 C2].
    split; [exact C1|]. split; [exact C2|].
    split; [exact (proj2 G (conj (A 7%Z eq_refl) eq_refl))|].
    split; [exact (proj2 P (conj (A 7%Z eq_refl) eq_refl))|].
    exact (proj2 D (conj (A 7%Z eq_refl) eq_refl)).
  - destruct (not_found_iff_absent Sample.equator_db (2 ^ 63)
                Sample.move_north)
      as (U & _ & _ & _ & G & P & D).
    destruct (U (A (2 ^ 63)%Z eq_refl)) as (_ & C & _).
    destruct (C eq_refl) as [C1 C2].
    split; [exact C1|]. split; [exact C2|].
    split; [exact (proj2 G (conj (A (2 ^ 63)%Z eq_refl) eq_refl))|].
    split; [exact (proj2 P (conj (A (2 ^ 63)%Z eq_refl) eq_refl))|].
    exact (proj2 D (conj (A (2 ^ 63)%Z eq_refl) eq_refl)).
Defined.

Lemma blank_strings_witness :
  AddressCreate_validate Fixtures.blank_city_body = None
  /\ b_state Fixtures.office_body = Some "   "
  /\ AddressCreate_validate Fixtures.office_body = Some Fixtures.office
  /\ c_state Fixtures.office = Some EmptyString
  /\ AddressCreate_validate
       (with_postal_code Fixtures.office_body (Some " "))
     = Some {| c_street := "10 Downing Street"; c_city := "London";
               c_state := Some EmptyString; c_country := "United Kingdom";
               c_postal_code := Some EmptyString;
               c_latitude := fst Sample.london;
               c_longitude := snd Sample.london |}.
Proof.
  split; [|split; [reflexivity|split; [|split; [reflexivity|]]]].
  - apply (proj1 (blank_strings Fixtures.blank_city_body) "  " eq_refl).
    right. left. reflexivity.
  - apply (proj1 (proj2 (proj2 (proj2 (blank_strings Fixtures.office_body)))
                    "  10 Downing Street " "London" " United Kingdom"
                    (Some "SW1A 2AA") (fst Sample.london) (snd Sample.london)
                    "   "
                    ltac:(cbn; lia) ltac:(discriminate)
                    ltac:(cbn; lia) ltac:(discriminate)
                    ltac:(cbn; lia) ltac:(discriminate)
                    eq_refl eq_refl));
      [cbn; lia | reflexivity].
  - apply (proj1 (proj2 (proj1 (proj2 (blank_strings Fixtures.office_body))
                           Fixtures.office " " eq_refl eq_refl))).
    cbn. lia.
Defined.

Lemma validated_address_normalised_witness :
  (exists raw, b_street Fixtures.office_body = Some raw
               /\ c_street Fixtures.office = Str.strip raw)
  /\ (exists raw, b_city Fixtures.office_body = Some raw
                  /\ c_city Fixtures.office = Str.strip raw)
  /\ (exists raw, b_country Fixtures.office_body = Some raw
                  /\ c_country Fixtures.office = Str.strip raw)
  /\ nonblank 255 (c_street Fixtures.office) = true
  /\ nonblank 100 (c_city Fixtures.office) = true
  /\ nonblank 100 (c_country Fixtures.office) = true
  /\ fits 100 (c_state Fixtures.office) = true
  /\ fits 20 (c_postal_code Fixtures.office) = true
  /\ valid_coordinate (c_latitude Fixtures.office)
       (c_longitude Fixtures.office) = true
  /\ AddressCreate_validate (body_of Fixtures.office) = Some Fixtures.office.
Proof.
  apply (validated_address_normalised Fixtures.office_body Fixtures.office).
  reflexivity.
Defined.

Lemma validated_update_normalised_witness :
  u_street Fixtures.trimmed_update = Some (Some "2 Side Street")
  /\ u_state Fixtures.trimmed_update = Some (Some " NY ")
  /\ AddressUpdate_validate Fixtures.trimmed_update
     = Some Fixtures.trimmed_update.
Proof.
  destruct (validated_update_normalised Fixtures.padded_update
              Fixtures.trimmed_update eq_refl)
    as (_ & S & _ & _ & _ & _ & _ & [T _] & _ & _ & _ & V).
  split; [exact (S _ eq_refl)|]. split; [exact T | exact V].
Defined.

Lemma null_of_required_column_escapes_witness :
  put_address 2 Fixtures.null_city Sample.equator_db
  = (Sample.equator_db, Raise IntegrityError).
Proof.
  apply (null_of_required_column_escapes Sample.equator_db 2
           Fixtures.null_city Fixtures.null_city Sample.east1); reflexivity.
Defined.

Lemma well_formed_kept_witness :
  forallb well_formed
    (rows (fst (post_addresses Fixtures.office_body Sample.equator_db
                  Fixtures.engine))) = true
  /\ forallb well_formed
       (rows (fst (put_address 2 Fixtures.padded_update Sample.equator_db)))
     = true
  /\ forallb well_formed
       (rows (fst (Routes.delete_address 2 Sample.equator_db))) = true.
Proof.
  destruct (well_formed_kept Sample.equator_db eq_refl) as (C & U & D).
  split; [exact (proj1 (C Fixtures.office_body Fixtures.engine))|].
  split; [exact (proj1 (U 2%Z Fixtures.padded_update)) | exact (D 2%Z)].
Defined.

Lemma pages_concatenate_witness :
  exists p1 p2,
    get_addresses Sample.equator_db 1 1 = Ok p1
    /\ get_addresses Sample.equator_db (1 + 1) 2 = Ok p2
    /\ get_addresses Sample.equator_db 1 (1 + 2) = Ok (p1 ++ p2)%list
    /\ (Z.of_nat (List.length (rows Sample.equator_db)) <= 1 -> 1 = 0 ->
        p1 = rows Sample.equator_db)%Z.
Proof.
  apply (pages_concatenate Sample.equator_db 1 1 2); lia.
Defined.

Lemma nearby_fails_iff_witness :
  get_nearby_addresses Fdlibm.lib
    {| q_latitude := 8; q_longitude := -180; q_radius_km := 1 |}
    Sample.antipodal_db = HTTPException 500%Z.
Proof.
  apply (proj1 (nearby_fails_iff Fdlibm.lib
                  {| q_latitude := 8; q_longitude := -180; q_radius_km := 1 |}
                  Sample.antipodal_db)).
  apply Exists_cons_tl, Exists_cons_hd. vm_compute. reflexivity.
Defined.

Lemma nearby_answer_witness :
  Permutation (map address Sample.equator_answer)
    (filter (within_radius Fdlibm.lib 0 0 5) (rows Sample.equator_db))
  /\ StronglySorted distance_le Sample.equator_answer
  /\ Forall (fun e =>
               exists d, distance_to Fdlibm.lib 0 0 (address e) = Ok d
                         /\ (d <=? 5)%float = true
                         /\ distance_km e = Builtins.round d 2)
       Sample.equator_answer.
Proof.
  apply (nearby_answer Fdlibm.lib Sample.equator_query Sample.equator_db
           Sample.equator_answer).
  vm_compute. reflexivity.
Defined.

Lemma wider_radius_keeps_witness :
  exists out2,
    get_addresses_within_radius Fdlibm.lib Sample.equator_db 0 0 5 = Ok out2
    /\ [Sample.east1; Sample.north1]
       = filter (within_radius Fdlibm.lib 0 0 2) out2
    /\ incl [Sample.east1; Sample.north1] out2.
Proof.
  apply (wider_radius_keeps Fdlibm.lib Sample.equator_db 0 0 2 5
           [Sample.east1; Sample.north1]); vm_compute; reflexivity.
Defined.

Lemma created_address_is_nearby_witness :
  exists out,
    post_addresses_nearby Fdlibm.lib (fst Sample.london) (snd Sample.london) 1
      Fixtures.office_db = Response out
    /\ In {| address := Fixtures.office_row; distance_km := 0 |} out.
Proof.
  apply (created_address_is_nearby Fdlibm.lib Sample.equator_db
           Fixtures.office_db Fixtures.office_body Fixtures.engine
           Fixtures.office_row 1).
  - vm_compute. reflexivity.
  - reflexivity.
  - repeat (apply Forall_cons; [vm_compute; reflexivity|]). apply Forall_nil.
  - vm_compute. reflexivity.
  - vm_compute. reflexivity.
Defined.

Lemma deleted_is_not_nearby_witness :
  Forall (fun e => id (address e) <> 2%Z) Fixtures.answer_without_east1.
Proof.
  apply (deleted_is_not_nearby Fdlibm.lib Sample.equator_db 2
           Sample.equator_query Fixtures.answer_without_east1).
  vm_compute. reflexivity.
Defined.

Lemma distance_raises_iff_witness :
  (returns (calculate_distance Fdlibm.lib 8 (-180) (-8) 0) = false
   <-> (0x1.0000000000001p+0 <? 0)%float = true
       \/ (1 <? 0x1.0000000000001p+0)%float = true)
  /\ ((0x1.0000000000001p+0 <? 0)%float = true
      \/ (1 <? 0x1.0000000000001p+0)%float = true ->
      calculate_distance Fdlibm.lib 8 (-180) (-8) 0 = Raise ValueError).
Proof.
  apply (distance_raises_iff Fdlibm.lib 8 (-180) (-8) 0 0x1.0000000000001p+0).
  - vm_compute. reflexivity.
  - reflexivity.
  - intros _ H. vm_compute in H. discriminate H.
Defined.

End StoreExamples.
